(** * FlightDataAnalyzer: interval algebra, mask repair, threshold search
      and two flight-phase derivations, embedded from
      [analysis_engine/library.py] and [analysis_engine/flight_phase.py].

    Conventions of the embedding.
    - Python integers are [Z]; Python floats are idealised as exact
      rationals [Q] (no rounding), compared with [Qeq].
    - A Python [slice] is a record of three optional fields.
    - A numpy masked array is a list of samples, each a value and a mask
      bit ([true] = masked).
    - A function that may raise returns in the [res] monad; a function
      that may return [None] returns an [option].
    - The code base is Python 2: [None] orders below every number, and
      arithmetic on [None] raises [TypeError]. *)

From Stdlib Require Import String ZArith QArith Qround Qabs List Bool Lia Lqa.
Import ListNotations.
Open Scope Z_scope.

(** ** Exceptions and the result monad *)

Inductive exn : Type :=
| ValueError (msg : string)
| TypeError
| IndexError
| ZeroDivisionError
| NotImplementedError
| AttributeError
| LinAlgError.

Inductive res (A : Type) : Type :=
| Ok (a : A)
| Raise (e : exn).
Arguments Ok {A} a.
Arguments Raise {A} e.

Definition bind {A B} (m : res A) (f : A -> res B) : res B :=
  match m with
  | Ok a => f a
  | Raise e => Raise e
  end.

Notation "x <- m ;; k" := (bind m (fun x => k))
  (at level 61, m at next level, right associativity).

(** ** Python 2 ordering and arithmetic on optional numbers *)

Module Py.

(** [None < x] for every number [x]; [None] is not below [None]. *)
Definition lt (a b : option Z) : bool :=
  match a, b with
  | None, None => false
  | None, Some _ => true
  | Some _, None => false
  | Some x, Some y => x <? y
  end.

Definition le (a b : option Z) : bool :=
  match a, b with
  | None, _ => true
  | Some _, None => false
  | Some x, Some y => x <=? y
  end.

Definition gt (a b : option Z) : bool := lt b a.
Definition ge (a b : option Z) : bool := le b a.

Definition min (a b : option Z) : option Z := if lt b a then b else a.
Definition max (a b : option Z) : option Z := if lt a b then b else a.

(** [min(l)] and [max(l)] of a non-empty list. *)
Definition min_list (x : option Z) (l : list (option Z)) : option Z :=
  fold_left min l x.
Definition max_list (x : option Z) (l : list (option Z)) : option Z :=
  fold_left max l x.

(** [a - b] and [a + b]: [TypeError] when an operand is [None]. *)
Definition sub (a b : option Z) : res Z :=
  match a, b with
  | Some x, Some y => Ok (x - y)
  | _, _ => Raise TypeError
  end.

Definition add (a b : option Z) : res Z :=
  match a, b with
  | Some x, Some y => Ok (x + y)
  | _, _ => Raise TypeError
  end.

(** [x or d]: [None] and [0] are both falsy. *)
Definition or_else (x : option Z) (d : Z) : Z :=
  match x with
  | None => d
  | Some 0 => d
  | Some v => v
  end.

(** Truth value of an optional integer ([if count:]). *)
Definition truthy (x : option Z) : bool :=
  match x with
  | None | Some 0 => false
  | Some _ => true
  end.

End Py.

(** Strict comparison on rationals as a boolean. *)
Definition Qltb (a b : Q) : bool := negb (Qle_bool b a).

(** ** Slices *)

Record slice : Type := Slice {
  start : option Z;
  stop : option Z;
  step : option Z
}.

(** [slice(a, b)] with both bounds given and no step. *)
Definition slice2 (a b : Z) : slice := Slice (Some a) (Some b) None.

(** ** Containment tests (library.py, is_index_within_slice and friends) *)

Definition is_index_within_slice (index : option Z) (_slice : slice) : bool :=
  match start _slice, stop _slice with
  | None, None => true
  | None, Some _ => Py.lt index (stop _slice)
  | Some _, None => Py.ge index (start _slice)
  | Some _, Some _ => Py.le (start _slice) index && Py.lt index (stop _slice)
  end.

Definition step_below_one (s : slice) : bool :=
  match step s with
  | None => false
  | Some k => k <? 1
  end.

Definition is_none (x : option Z) : bool :=
  match x with None => true | Some _ => false end.

Definition slices_overlap (first_slice second_slice : slice) : res bool :=
  if step_below_one first_slice || step_below_one second_slice
  then Raise (ValueError "Negative step not supported")
  else Ok ((Py.lt (start first_slice) (stop second_slice)
            || is_none (stop second_slice))
           && (Py.lt (start second_slice) (stop first_slice)
               || is_none (stop first_slice))).

(** The nested helper of [is_slice_within_slice], branch for branch. The
    fifth test of the source reads [outer_slice.stop is None] twice. *)
Definition entire_slice_within_slice (inner_slice outer_slice : slice) : bool :=
  if is_none (start outer_slice) && is_none (stop outer_slice) then true
  else if is_none (start inner_slice) && negb (is_none (start outer_slice))
  then false
  else if is_none (stop inner_slice) && negb (is_none (stop outer_slice))
  then false
  else if is_none (start inner_slice) && is_none (start outer_slice)
  then Py.lt (stop inner_slice) (stop outer_slice)
  else if is_none (stop outer_slice) && is_none (stop outer_slice)
  then Py.ge (start inner_slice) (start outer_slice)
  else
    let start_within := Py.le (start outer_slice) (start inner_slice)
                        && Py.le (start inner_slice) (stop outer_slice) in
    let stop_within := Py.le (start outer_slice) (stop inner_slice)
                       && Py.le (stop inner_slice) (stop outer_slice) in
    start_within && stop_within.

(** The result is [None] when [within_use] is none of the four modes: the
    function falls off its last [elif]. *)
Definition is_slice_within_slice (inner_slice outer_slice : slice)
    (within_use : string) : res (option bool) :=
  if String.eqb within_use "slice"
  then Ok (Some (entire_slice_within_slice inner_slice outer_slice))
  else if String.eqb within_use "start"
  then Ok (Some (is_index_within_slice (start inner_slice) outer_slice))
  else if String.eqb within_use "stop"
  then Ok (Some (is_index_within_slice (stop inner_slice) outer_slice))
  else if String.eqb within_use "any"
  then b <- slices_overlap inner_slice outer_slice ;; Ok (Some b)
  else Ok None.

(** ** Small gaps and small slices (library.py) *)

(** [shift_slice]: [None] when the shifted slice is shorter than one
    sample. *)
Definition shift_slice (this_slice : slice) (offset : Z) : option slice :=
  if offset =? 0 then Some this_slice
  else
    let start' := option_map (fun x => x + offset) (start this_slice) in
    let stop' := option_map (fun x => x + offset) (stop this_slice) in
    match start', stop' with
    | Some a, Some b =>
        if 1 <=? b - a then Some (Slice start' stop' (step this_slice))
        else None
    | _, _ => Some (Slice start' stop' (step this_slice))
    end.

Definition shift_slices (slicelist : list slice) (offset : Z) : list slice :=
  if offset =? 0 then slicelist
  else
    fold_left
      (fun newlist each_slice =>
         match shift_slice each_slice offset with
         | Some new_slice => newlist ++ [new_slice]
         | None => newlist
         end)
      slicelist [].

(** The loop of [slices_remove_small_gaps]: [new_list] is the list under
    construction, whose last element is read and overwritten in place. *)
Fixpoint small_gaps_loop (sample_limit : Q) (new_list rest : list slice)
    : res (list slice) :=
  match rest with
  | [] => Ok new_list
  | each_slice :: rest' =>
      let lst := last new_list each_slice in
      gap <- Py.sub (start each_slice) (stop lst) ;;
      if Qltb (inject_Z gap) sample_limit
      then small_gaps_loop sample_limit
             (removelast new_list ++ [Slice (start lst) (stop each_slice) None])
             rest'
      else small_gaps_loop sample_limit (new_list ++ [each_slice]) rest'
  end.

Definition slices_remove_small_gaps (slice_list : option (list slice))
    (time_limit hz : Q) : res (option (list slice)) :=
  let sample_limit := (time_limit * hz)%Q in
  match slice_list with
  | None => Ok None
  | Some [] => Ok (Some [])
  | Some [s] => Ok (Some [s])
  | Some (s0 :: rest) =>
      new_list <- small_gaps_loop sample_limit [s0] rest ;;
      Ok (Some new_list)
  end.

Fixpoint small_slices_loop (sample_limit : Q) (new_list rest : list slice)
    : res (list slice) :=
  match rest with
  | [] => Ok new_list
  | each_slice :: rest' =>
      len <- Py.sub (stop each_slice) (start each_slice) ;;
      if Qltb sample_limit (inject_Z len)
      then small_slices_loop sample_limit (new_list ++ [each_slice]) rest'
      else small_slices_loop sample_limit new_list rest'
  end.

Definition slices_remove_small_slices (slice_list : option (list slice))
    (time_limit hz : Q) (count : option Z) : res (option (list slice)) :=
  let sample_limit :=
    if Py.truthy count
    then inject_Z (Py.or_else count 0)
    else (time_limit * hz)%Q in
  match slice_list with
  | None => Ok None
  | Some l =>
      new_list <- small_slices_loop sample_limit [] l ;;
      Ok (Some new_list)
  end.

(** [slices_remove_small_slices(slices_remove_small_gaps(L, t, hz), t, hz,
    count)], the composition of the two with the same parameters. *)
Definition remove_gaps_then_slices (time_limit hz : Q) (count : option Z)
    (slice_list : option (list slice)) : res (option (list slice)) :=
  g <- slices_remove_small_gaps slice_list time_limit hz ;;
  slices_remove_small_slices g time_limit hz count.

(** ** Auxiliary views used by the proofs about gaps and small slices *)

(** The loop of [slices_remove_small_gaps] seen from the element being
    grown: [cur] is [new_list[-1]], everything emitted before it is
    frozen. *)
Fixpoint merge_from (sample_limit : Q) (cur : slice) (rest : list slice)
    : res (list slice) :=
  match rest with
  | [] => Ok [cur]
  | s :: rest' =>
      gap <- Py.sub (start s) (stop cur) ;;
      if Qltb (inject_Z gap) sample_limit
      then merge_from sample_limit (Slice (start cur) (stop s) None) rest'
      else g <- merge_from sample_limit s rest' ;; Ok (cur :: g)
  end.

(** The loop of [slices_remove_small_slices] as a filter. *)
Fixpoint keep_long (sample_limit : Q) (l : list slice) : res (list slice) :=
  match l with
  | [] => Ok []
  | s :: l' =>
      len <- Py.sub (stop s) (start s) ;;
      r <- keep_long sample_limit l' ;;
      Ok (if Qltb sample_limit (inject_Z len) then s :: r else r)
  end.

(** [s.start <= s.stop], in Python's ordering. *)
Definition forward (s : slice) : bool := Py.le (start s) (stop s).

(** Slices stored in ascending order of their start. *)
Fixpoint ascending (l : list slice) : bool :=
  match l with
  | s :: (t :: _) as l' => Py.le (start s) (start t) && ascending l'
  | _ => true
  end.

(** A stored interval list: every slice runs forward and the list is in
    ascending order; [None] in place of a list is accepted as it is. *)
Definition stored_intervals (slice_list : option (list slice)) : bool :=
  match slice_list with
  | None => true
  | Some l => forallb forward l && ascending l
  end.

(** The gap from the stop of [s] to the start of [t] is at least the
    limit. *)
Definition gap_ok (sample_limit : Q) (s t : slice) : Prop :=
  exists a b, start t = Some a /\ stop s = Some b
              /\ (sample_limit <= inject_Z (a - b))%Q.

Fixpoint gapped (sample_limit : Q) (l : list slice) : Prop :=
  match l with
  | s :: (t :: _) as l' => gap_ok sample_limit s t /\ gapped sample_limit l'
  | _ => True
  end.

(** ** Numbers: Python's [int()], [round()] and [x or d] on floats *)

(** [int(x)]: truncation toward zero. *)
Definition py_int (x : Q) : Z :=
  if Qle_bool 0 x then Qfloor x else Qceiling x.

(** [int(round(x))], Python 2: halves are rounded away from zero. *)
Definition py_round (x : Q) : Z :=
  if Qle_bool 0 x then Qfloor (x + (1 # 2)) else Qceiling (x - (1 # 2)).

(** [x or d] on an optional float: [None] and zero are falsy. *)
Definition Q_or_else (x : option Q) (d : Q) : Q :=
  match x with
  | None => d
  | Some v => if Qeq_bool v 0 then d else v
  end.

(** [x < c] where [x] may be [None] (which is below every number). *)
Definition opt_Qlt (x : option Q) (c : Q) : bool :=
  match x with
  | None => true
  | Some v => Qltb v c
  end.

(** A slice whose bounds may be floats, as the threshold searches build
    them from interpolated indices. *)
Record qslice : Type := QSlice {
  qstart : option Q;
  qstop : option Q;
  qstep : option Z
}.

Definition qslice_of (s : slice) : qslice :=
  QSlice (option_map inject_Z (start s)) (option_map inject_Z (stop s)) (step s).

(** numpy of that era truncates a float slice bound or index to an
    integer (with a deprecation warning). *)
Definition trunc_qslice (s : qslice) : slice :=
  Slice (option_map py_int (qstart s)) (option_map py_int (qstop s)) (qstep s).

(** ** Masked arrays and the numpy operations the code uses *)

Record sample : Type := Sample {
  value : Q;
  masked : bool
}.

Definition marray : Type := list sample.

Definition len {A} (a : list A) : Z := Z.of_nat (List.length a).

Fixpoint mapi_from {A B} (i : Z) (f : Z -> A -> B) (l : list A) : list B :=
  match l with
  | [] => []
  | x :: l' => f i x :: mapi_from (i + 1) f l'
  end.

Definition mapi {A B} (f : Z -> A -> B) (l : list A) : list B :=
  mapi_from 0 f l.

Module Np.

(** Python's [slice.indices(n)]: a bound is shifted by [n] when negative
    and then clipped. *)
Definition adjust (n : Z) (neg : bool) (x : Z) : Z :=
  if x <? 0 then
    (if x + n <? 0 then (if neg then -1 else 0) else x + n)
  else if n <=? x then (if neg then n - 1 else n)
  else x.

Definition slice_bounds (n : Z) (s : slice) : res (Z * Z * Z) :=
  let k := match step s with None => 1 | Some k => k end in
  if k =? 0 then Raise (ValueError "slice step cannot be zero")
  else
    let neg := k <? 0 in
    let a := match start s with
             | None => if neg then n - 1 else 0
             | Some x => adjust n neg x
             end in
    let b := match stop s with
             | None => if neg then -1 else n
             | Some x => adjust n neg x
             end in
    Ok (a, b, k).

Definition range_len (a b k : Z) : Z :=
  if 0 <? k then (if a <? b then (b - a - 1) / k + 1 else 0)
  else (if b <? a then (a - b - 1) / (- k) + 1 else 0).

Definition range (a b k : Z) : list Z :=
  map (fun j => a + Z.of_nat j * k) (seq 0 (Z.to_nat (range_len a b k))).

(** The positions a slice selects in an array of length [n]. *)
Definition positions (n : Z) (s : slice) : res (list Z) :=
  abk <- slice_bounds n s ;;
  let '(a, b, k) := abk in Ok (range a b k).

(** [arr[s]] *)
Definition getitem_slice {A} (d : A) (arr : list A) (s : slice)
    : res (list A) :=
  idx <- positions (len arr) s ;;
  Ok (map (fun i => nth (Z.to_nat i) arr d) idx).

(** [arr[s] = v] for a scalar [v] *)
Definition setitem_slice {A} (arr : list A) (s : slice) (v : A)
    : res (list A) :=
  idx <- positions (len arr) s ;;
  Ok (mapi (fun i x => if existsb (Z.eqb i) idx then v else x) arr).

(** [arr[i]] for an integer [i]: negative indices count from the end. *)
Definition getitem {A} (arr : list A) (i : Z) : res A :=
  let j := if i <? 0 then i + len arr else i in
  if (0 <=? j) && (j <? len arr)
  then match nth_error arr (Z.to_nat j) with
       | Some x => Ok x
       | None => Raise IndexError
       end
  else Raise IndexError.

(** [np.ma.zeros(n)]. A negative length is an error. For [None] numpy
    builds a zero-dimensional array, on which the indexing that follows
    in every caller raises [IndexError]; the model raises at once. *)
Definition zeros (n : option Z) : res marray :=
  match n with
  | None => Raise IndexError
  | Some k =>
      if k <? 0 then Raise (ValueError "negative dimensions are not allowed")
      else Ok (repeat (Sample 0 false) (Z.to_nat k))
  end.

Definition count (a : marray) : Z :=
  len (filter (fun s => negb (masked s)) a).

Definition masked_equal (a : marray) (v : Q) : marray :=
  map (fun s => Sample (value s) (masked s || Qeq_bool (value s) v)) a.

Definition masked_greater (a : marray) (v : Q) : marray :=
  map (fun s => Sample (value s) (masked s || Qltb v (value s))) a.

Definition masked_less_equal (a : marray) (v : Q) : marray :=
  map (fun s => Sample (value s) (masked s || Qle_bool (value s) v)) a.

Definition abs (a : marray) : marray :=
  map (fun s => Sample (Qabs (value s)) (masked s)) a.

Definition sub_scalar (a : marray) (v : Q) : marray :=
  map (fun s => Sample (value s - v) (masked s)) a.

Fixpoint zip_with {A B C} (f : A -> B -> C) (x : list A) (y : list B)
    : list C :=
  match x, y with
  | a :: x', b :: y' => f a b :: zip_with f x' y'
  | _, _ => []
  end.

(** Element-wise binary operation on one-dimensional arrays, with
    numpy's broadcasting of a one-element operand. *)
Definition broadcast (f : sample -> sample -> sample) (x y : marray)
    : res marray :=
  if len x =? len y then Ok (zip_with f x y)
  else match x, y with
       | [a], _ => Ok (map (f a) y)
       | _, [b] => Ok (map (fun a => f a b) x)
       | _, _ => Raise (ValueError "operands could not be broadcast together")
       end.

Definition multiply : marray -> marray -> res marray :=
  broadcast (fun a b => Sample (value a * value b) (masked a || masked b)).

(** Maximal runs of [true] in a list of bits, as slices, scanning from
    position [i]; [open] is the start of the run being read. *)
Fixpoint clump_from (i : Z) (open : option Z) (m : list bool) : list slice :=
  match m with
  | [] => match open with
          | Some s => [slice2 s i]
          | None => []
          end
  | true :: m' =>
      clump_from (i + 1)
        (Some (match open with Some s => s | None => i end)) m'
  | false :: m' =>
      match open with
      | Some s => slice2 s i :: clump_from (i + 1) None m'
      | None => clump_from (i + 1) None m'
      end
  end.

(** [np.ma.clump_masked] and [np.ma.clump_unmasked]: one slice per
    maximal run. An array none of whose elements is masked carries the
    mask [nomask] (the masking functions shrink such a mask to it), and
    for it numpy returns no masked run and the one unmasked run
    [slice(0, a.size)], which is [slice(0, 0)] when the array is empty. *)
Definition clump_masked (a : marray) : list slice :=
  clump_from 0 None (map masked a).

Definition clump_unmasked (a : marray) : list slice :=
  if existsb masked a
  then clump_from 0 None (map (fun s => negb (masked s)) a)
  else [slice2 0 (len a)].

Fixpoint first_index_from (i : Z) (m : list bool) : option Z :=
  match m with
  | [] => None
  | true :: _ => Some i
  | false :: m' => first_index_from (i + 1) m'
  end.

Fixpoint last_index_from (i : Z) (m : list bool) : option Z :=
  match m with
  | [] => None
  | b :: m' =>
      match last_index_from (i + 1) m' with
      | Some j => Some j
      | None => if b then Some i else None
      end
  end.

(** [np.ma.flatnotmasked_edges]: first and last unmasked positions;
    [None] when everything is masked; [[0, size-1]] when nothing is. *)
Definition flatnotmasked_edges (a : marray) : option (Z * Z) :=
  if negb (existsb masked a) then Some (0, len a - 1)
  else
    let u := map (fun s => negb (masked s)) a in
    match first_index_from 0 u, last_index_from 0 u with
    | Some i, Some j => Some (i, j)
    | _, _ => None
    end.

(** [np.ma.ediff1d]: differences of consecutive elements. *)
Definition ediff1d (a : marray) : marray :=
  zip_with (fun x y => Sample (value y - value x) (masked x || masked y))
    a (tl a).

(** [np.ma.where(cond)[0]]: the positions where the condition holds on
    an unmasked element. *)
Definition ma_where (cond : Q -> bool) (a : marray) : list Z :=
  List.concat (mapi (fun i s => if negb (masked s) && cond (value s)
                           then [i] else []) a).

(** [np.ma.argmin]: position of the first minimum, masked elements
    counting as larger than any value; an empty array is an error. *)
Fixpoint argmin_from (i : Z) (best : Z) (bv : option Q) (a : marray) : Z :=
  match a with
  | [] => best
  | s :: a' =>
      if masked s then argmin_from (i + 1) best bv a'
      else match bv with
           | None => argmin_from (i + 1) i (Some (value s)) a'
           | Some v =>
               if Qltb (value s) v
               then argmin_from (i + 1) i (Some (value s)) a'
               else argmin_from (i + 1) best bv a'
           end
  end.

Definition argmin (a : marray) : res Z :=
  match a with
  | [] => Raise (ValueError "attempt to get argmin of an empty sequence")
  | _ => Ok (argmin_from 0 0 None a)
  end.

(** [np.convolve(z, v, 'full')] *)
Fixpoint add_lists (x y : list Q) : list Q :=
  match x, y with
  | [], _ => y
  | _, [] => x
  | a :: x', b :: y' => (a + b)%Q :: add_lists x' y'
  end.

Fixpoint convolve_full (z v : list Q) : list Q :=
  match z with
  | [] => []
  | a :: z' =>
      match z' with
      | [] => map (Qmult a) v
      | _ => add_lists (map (Qmult a) v) (0%Q :: convolve_full z' v)
      end
  end.

(** [np.convolve(z, v, 'same')]: the middle [max(len z, len v)] elements
    of the full convolution. *)
Definition convolve_same (z v : list Q) : res (list Q) :=
  match z, v with
  | [], _ | _, [] => Raise (ValueError "v cannot be empty")
  | _, _ =>
      let full := convolve_full z v in
      let n := Nat.max (List.length z) (List.length v) in
      let k := ((Nat.min (List.length z) (List.length v) - 1) / 2)%nat in
      Ok (firstn n (skipn k full))
  end.

Definition masked_not_equal (a : marray) (v : Q) : marray :=
  map (fun s => Sample (value s) (masked s || negb (Qeq_bool (value s) v))) a.

Definition masked_less (a : marray) (v : Q) : marray :=
  map (fun s => Sample (value s) (masked s || Qltb (value s) v)) a.

(** [np.ma.masked_outside(a, v1, v2)]: the bounds are put in order
    first. *)
Definition masked_outside (a : marray) (v1 v2 : Q) : marray :=
  let lo := if Qltb v2 v1 then v2 else v1 in
  let hi := if Qltb v2 v1 then v1 else v2 in
  map (fun s => Sample (value s)
                  (masked s || Qltb (value s) lo || Qltb hi (value s))) a.

(** [np.argmax] of a list of floats: the position of the first
    maximum. *)
Fixpoint argmax_from (i best : Z) (bv : Q) (a : list Q) : Z :=
  match a with
  | [] => best
  | v :: a' =>
      if Qltb bv v then argmax_from (i + 1) i v a'
      else argmax_from (i + 1) best bv a'
  end.

Definition argmax (a : list Q) : res Z :=
  match a with
  | [] => Raise (ValueError "attempt to get argmax of an empty sequence")
  | v :: a' => Ok (argmax_from 1 0 v a')
  end.


(** [arr[i] = v] for an integer [i]: negative indices count from the
    end. *)
Definition setitem {A} (arr : list A) (i : Z) (v : A) : res (list A) :=
  let j := if i <? 0 then i + len arr else i in
  if (0 <=? j) && (j <? len arr)
  then Ok (mapi (fun k x => if k =? j then v else x) arr)
  else Raise IndexError.

(** [np.ma.where(c)[0]] for a plain array of booleans: the positions
    that hold [True]. *)
Definition where_ (c : list bool) : list Z :=
  List.concat (mapi (fun i (b : bool) => if b then [i] else []) c).

(** [np.linspace(start, stop, num)] for [num] at least 2. *)
Definition linspace (start stop : Q) (num : Z) : list Q :=
  map (fun k => (start + inject_Z k * ((stop - start) / inject_Z (num - 1)))%Q)
      (range 0 num 1).

(** [arr[s] = v] for an element [v] of a masked array: a valid element
    sets data and mask, [np.ma.masked] sets the mask alone. *)
Definition setitem_slice_sample (arr : marray) (s : slice) (v : sample)
    : res marray :=
  idx <- positions (len arr) s ;;
  Ok (mapi (fun i x => if existsb (Z.eqb i) idx
                       then (if masked v then Sample (value x) true
                             else Sample (value v) false)
                       else x) arr).

End Np.

Definition masked_default : sample := Sample 0 true.

(** [array[s]] for a slice with float bounds. *)
Definition getitem_qslice (arr : marray) (s : qslice) : res marray :=
  Np.getitem_slice masked_default arr (trunc_qslice s).

(** [array[i]] for a float index. *)
Definition getitem_q (arr : marray) (i : Q) : res sample :=
  Np.getitem arr (py_int i).

(** ** Complement and union of slice lists (library.py) *)

(** [workspace[each_slice] = 1] for every slice of the list. *)
Fixpoint paint (workspace : marray) (slice_list : list slice) : res marray :=
  match slice_list with
  | [] => Ok workspace
  | each_slice :: rest =>
      w <- Np.setitem_slice workspace each_slice (Sample 1 false) ;;
      paint w rest
  end.

Definition slices_not (slice_list : list slice) (begin_at end_at : option Z)
    : res (list slice) :=
  match slice_list with
  | [] => Ok [Slice begin_at end_at None]
  | s0 :: rest =>
      let a := Py.min_list (start s0) (map start rest) in
      let b := Py.min_list (stop s0) (map stop rest) in
      let c := Py.max_list (step s0) (map step rest) in
      if Py.gt c (Some 1)
      then Raise (ValueError "slices_not does not cater for non-unity steps")
      else
        let startpoint := if is_none b then a else Py.min a b in
        let startpoint :=
          if negb (is_none begin_at) && Py.lt begin_at startpoint
          then begin_at else startpoint in
        let startpoint := match startpoint with None => 0 | Some v => v end in
        let c := Py.max_list (start s0) (map start rest) in
        let d := Py.max_list (stop s0) (map stop rest) in
        let endpoint := Py.max c d in
        let endpoint :=
          if negb (is_none end_at) && Py.gt end_at endpoint
          then end_at else endpoint in
        workspace <- Np.zeros endpoint ;;
        workspace <- paint workspace slice_list ;;
        let workspace := Np.masked_equal workspace 1 in
        sub <- Np.getitem_slice masked_default workspace
                 (Slice (Some startpoint) endpoint None) ;;
        Ok (shift_slices (Np.clump_unmasked sub) startpoint)
  end.

(** The keyword arguments of [slices_or]: a key is absent ([None]) or
    present with a value that may itself be Python's [None]. *)
Record or_kwargs : Type := OrKwargs {
  begin_at : option (option Z);
  end_at : option (option Z)
}.

Definition no_kwargs : or_kwargs := OrKwargs None None.

(** The inner loop over one list: it leaves the list at the first slice
    whose stop is [None]. *)
Fixpoint or_bounds_list (a b : option Z) (slice_list : list slice)
    : option Z * option Z :=
  match slice_list with
  | [] => (a, b)
  | each_slice :: rest =>
      let a := if is_none a then Some (Py.or_else (start each_slice) 0)
               else Py.min a (start each_slice) in
      if is_none (stop each_slice) then (a, b)
      else
        let b := if is_none b then stop each_slice
                 else Py.max b (stop each_slice) in
        or_bounds_list a b rest
  end.

Fixpoint or_bounds (a b : option Z) (slice_lists : list (option (list slice)))
    : res (option Z * option Z) :=
  match slice_lists with
  | [] => Ok (a, b)
  | None :: _ => Raise (ValueError "slices_or called with slice list of None")
  | Some slice_list :: rest =>
      let '(a, b) := or_bounds_list a b slice_list in
      or_bounds a b rest
  end.

Fixpoint paint_lists (workspace : marray)
    (slice_lists : list (option (list slice))) : res marray :=
  match slice_lists with
  | [] => Ok workspace
  | None :: _ => Raise TypeError
  | Some slice_list :: rest =>
      w <- paint workspace slice_list ;;
      paint_lists w rest
  end.

(** The result is [None] when the function returns without a value. *)
Definition slices_or (slice_lists : list (option (list slice)))
    (kwargs : or_kwargs) : res (option (list slice)) :=
  match slice_lists with
  | [] => Ok None
  | _ =>
      ab <- or_bounds None None slice_lists ;;
      let '(a, b) := ab in
      let startpoint := match begin_at kwargs with
                        | Some v => v
                        | None => Some 0
                        end in
      let endpoint := match end_at kwargs with
                      | Some v => v
                      | None => b
                      end in
      if Py.ge startpoint (Some 0) && Py.gt endpoint (Some 0)
      then
        workspace <- Np.zeros b ;;
        workspace <- paint_lists workspace slice_lists ;;
        let workspace := Np.masked_equal workspace 1 in
        sub <- Np.getitem_slice masked_default workspace
                 (Slice startpoint endpoint None) ;;
        Ok (Some (shift_slices (Np.clump_masked sub)
                    (match startpoint with Some v => v | None => 0 end)))
      else Ok None
  end.

(** [NOT(OR(A, NOT(A, b, e)), b, e)]; a [None] from [slices_or] is passed on
    to [slices_not], for which it is an empty list ([not slice_list]). *)
Definition not_or_not (A : list slice) (b e : Z) : res (list slice) :=
  na <- slices_not A (Some b) (Some e) ;;
  o <- slices_or [Some A; Some na] no_kwargs ;;
  slices_not (match o with Some l => l | None => [] end) (Some b) (Some e).

(** ** Airborne (flight_phase.py) *)

(** A parameter: its masked array and its sample rate. *)
Record parameter : Type := MkParameter {
  array : marray;
  frequency : Q
}.

(** Modelled from the spec: the attribute [hz] of a parameter (node.py is
    not among the sources): a masked series has one sample rate, a float,
    which [frequency] and [hz] both name. *)
Definition hz (p : parameter) : Q := frequency p.

(** A section node: its slices and its sample rate. *)
Record section : Type := MkSection {
  get_slices : list slice;
  sec_frequency : Q
}.

(** Modelled from the spec: [FlightPhaseNode.create_phase] (node.py is not
    among the sources) appends one interval to the phase under
    construction; it reads the bounds of its argument, so [None] in place
    of a slice is an error. *)
Definition create_phase (self : list slice) (_slice : option slice)
    : res (list slice) :=
  match _slice with
  | Some s => Ok (self ++ [s])
  | None => Raise AttributeError
  end.

Section Airborne.

(** [settings.AIRBORNE_THRESHOLD_TIME], in seconds. *)
Variable AIRBORNE_THRESHOLD_TIME : Q.

(** The body of [for air in airs]: one candidate run. *)
Definition airborne_run (alt_aal : parameter) (start_point : Z)
    (self : list slice) (air : slice) : res (list slice) :=
  s <- Py.add (start air) (Some start_point) ;;
  let begin := if s =? 0 then None else start air in
  e <- Py.add (stop air) (Some start_point) ;;
  let end_ := if len (array alt_aal) <=? e then None else stop air in
  match begin, end_ with
  | Some b, Some e' =>
      let duration := e' - b in
      if Qeq_bool (hz alt_aal) 0 then Raise ZeroDivisionError
      else if Qltb AIRBORNE_THRESHOLD_TIME (inject_Z duration / hz alt_aal)
      then create_phase self (shift_slice (Slice begin end_ None) start_point)
      else Ok self
  | _, _ => create_phase self (shift_slice (Slice begin end_ None) start_point)
  end.

Fixpoint airborne_runs (alt_aal : parameter) (start_point : Z)
    (self : list slice) (airs : list slice) : res (list slice) :=
  match airs with
  | [] => Ok self
  | air :: rest =>
      self' <- airborne_run alt_aal start_point self air ;;
      airborne_runs alt_aal start_point self' rest
  end.

(** The candidate runs of positive altitude inside one fast interval,
    relative to [start_point]. *)
Definition candidate_runs (alt_aal : parameter) (speedy : slice)
    : res (list slice) :=
  let start_point := Py.or_else (start speedy) 0 in
  let stop_point := Py.or_else (stop speedy) (len (array alt_aal)) in
  working_alt <- Np.getitem_slice masked_default (array alt_aal)
                   (Slice (Some start_point) (Some stop_point) None) ;;
  airs <- slices_remove_small_gaps
            (Some (Np.clump_unmasked (Np.masked_less_equal working_alt 0)))
            40 (frequency alt_aal) ;;
  Ok (match airs with Some l => l | None => [] end).

(** The loop over the fast intervals; it stops at an interval open at
    both ends. *)
Fixpoint airborne_loop (alt_aal : parameter) (self : list slice)
    (speedy_slices : list slice) : res (list slice) :=
  match speedy_slices with
  | [] => Ok self
  | speedy :: rest =>
      if is_none (start speedy) && is_none (stop speedy) then Ok self
      else
        airs <- candidate_runs alt_aal speedy ;;
        self' <- airborne_runs alt_aal (Py.or_else (start speedy) 0) self airs ;;
        airborne_loop alt_aal self' rest
  end.

(** [Airborne.derive]: the phases created, in order. *)
Definition Airborne_derive (alt_aal : parameter) (fast : section)
    : res (list slice) :=
  speedy_slices <- slices_remove_small_gaps (Some (get_slices fast))
                     60 (sec_frequency fast) ;;
  airborne_loop alt_aal []
    (match speedy_slices with Some l => l | None => [] end).

End Airborne.

(** ** The phases of Airborne, by the rule of the specification *)

Section AirborneRule.

(** [settings.AIRBORNE_THRESHOLD_TIME], in seconds. *)
Variable AIRBORNE_THRESHOLD_TIME : Q.

(** The rule for one candidate run [air] of a fast interval that starts
    at [start_point] (the bounds of the run count from there): a run that
    touches the start or the end of the data gives a phase whatever its
    duration, the touching bound open ([None]); any other run gives a
    phase exactly when its duration in seconds, samples over the sample
    rate, exceeds [AIRBORNE_THRESHOLD_TIME]. *)
Definition airborne_rule (alt_aal : parameter) (start_point : Z) (air : slice)
    : list slice :=
  match start air, stop air with
  | Some a, Some b =>
      let at_start := a + start_point =? 0 in
      let at_end := len (array alt_aal) <=? b + start_point in
      if at_start || at_end
      then [Slice (if at_start then None else Some (a + start_point))
                  (if at_end then None else Some (b + start_point)) None]
      else if Qltb AIRBORNE_THRESHOLD_TIME (inject_Z (b - a) / hz alt_aal)
           then [slice2 (a + start_point) (b + start_point)]
           else []
  | _, _ => []
  end.

(** The rule applied to every candidate run of every fast interval, in
    order, up to the first interval that is open at both ends. *)
Fixpoint phases_by_rule (alt_aal : parameter) (speedy_slices : list slice)
    : list slice :=
  match speedy_slices with
  | [] => []
  | speedy :: rest =>
      if is_none (start speedy) && is_none (stop speedy) then []
      else
        match candidate_runs alt_aal speedy with
        | Ok airs =>
            flat_map (airborne_rule alt_aal (Py.or_else (start speedy) 0)) airs
            ++ phases_by_rule alt_aal rest
        | Raise _ => []
        end
  end.

End AirborneRule.

(** ** Auxiliary views used by the proofs about complement and union *)

(** The positions [i, i+1, ..., i+n-1]. *)
Fixpoint zseq (i : Z) (n : nat) : list Z :=
  match n with
  | O => []
  | S n' => i :: zseq (i + 1) n'
  end.

(** Position [i] lies in the slice, both bounds being given. *)
Definition in_slice (s : slice) (i : Z) : bool :=
  match start s, stop s with
  | Some x, Some y => (x <=? i) && (i <? y)
  | _, _ => false
  end.

(** Position [i] lies in one of the slices. *)
Definition covers (A : list slice) (i : Z) : bool :=
  existsb (fun s => in_slice s i) A.

(** A workspace cell after painting and [masked_equal]: presence is the
    value 1, masked. *)
Definition cell (present : bool) : sample :=
  Sample (if present then 1 else 0) present.

(** A forward slice with both bounds given, lying inside [[b, e)], and
    with no step or step 1. *)
Definition inside (b e : Z) (s : slice) : Prop :=
  exists x y, start s = Some x /\ stop s = Some y
              /\ b <= x /\ x <= y /\ y <= e
              /\ (step s = None \/ step s = Some 1).

(** ** Auxiliary view used by the proofs about candidate runs *)

(** Non-empty forward slices, each starting at or after the stop of the
    one before, the first at or after [lo]. *)
Fixpoint chain (lo : Z) (l : list slice) : Prop :=
  match l with
  | [] => True
  | c :: l' => exists s t, c = slice2 s t /\ lo <= s /\ s < t /\ chain t l'
  end.

(** ** Mask repair (library.py, repair_mask) *)

(** [array.data[section] = f(i); array.mask[section] = False] for the
    positions [i] of a section [[a, b)]. *)
Definition fill_section (array : marray) (a b : Z) (f : Z -> Q) : marray :=
  mapi (fun i s => if (a <=? i) && (i <? b) then Sample (f i) false else s)
       array.

(** [array.data[i]] *)
Definition data_at (array : marray) (i : Z) : res Q :=
  s <- Np.getitem array i ;; Ok (value s).

(** [np.interp(np.arange(length) + 1, [0, length + 1], [start_value,
    end_value])], read at the position [i] of the section starting at
    [a]. *)
Definition interp (a length : Z) (start_value end_value : Q) (i : Z) : Q :=
  (start_value
   + (end_value - start_value) * inject_Z (i - a + 1) / inject_Z (length + 1))%Q.

Section RepairMask.

Variable frequency : Q.
Variable repair_duration : option Q.
Variable raise_duration_exceedance : bool.
Variable extrapolate : bool.
Variable zero_if_masked : bool.
Variable repair_above : option Q.

(** [repair_samples], [None] when [repair_duration] is falsy. *)
Definition repair_samples : option Q :=
  match repair_duration with
  | None => None
  | Some d => if Qeq_bool d 0 then None else Some (d * frequency)%Q
  end.

(** [repair_samples and length > repair_samples] *)
Definition too_long (length : Z) : bool :=
  match repair_samples with
  | None => false
  | Some r => negb (Qeq_bool r 0) && Qltb r (inject_Z length)
  end.

(** The body of the loop over the masked sections. *)
Definition repair_section (array : marray) (section : slice) : res marray :=
  length <- Py.sub (stop section) (start section) ;;
  match start section, stop section with
  | Some a, Some b =>
      if too_long length then
        (if raise_duration_exceedance
         then Raise (ValueError "Length of masked section exceeds repair duration")
         else Ok array)
      else if a =? 0 then
        (if extrapolate then
           (if zero_if_masked then Ok (fill_section array a b (fun _ => 0%Q))
            else v <- data_at array b ;;
                 Ok (fill_section array a b (fun _ => v)))
         else Ok array)
      else if b =? len array then
        (if extrapolate then
           (if zero_if_masked then Ok (fill_section array a b (fun _ => 0%Q))
            else v <- data_at array (a - 1) ;;
                 Ok (fill_section array a b (fun _ => v)))
         else Ok array)
      else
        start_value <- data_at array (a - 1) ;;
        end_value <- data_at array b ;;
        if match repair_above with
           | None => true
           | Some ra => Qltb ra start_value && Qltb ra end_value
           end
        then Ok (fill_section array a b (interp a length start_value end_value))
        else Ok array
  | _, _ => Raise TypeError
  end.

Fixpoint repair_sections (array : marray) (masked_sections : list slice)
    : res marray :=
  match masked_sections with
  | [] => Ok array
  | section :: rest =>
      array' <- repair_section array section ;;
      repair_sections array' rest
  end.

(** [repair_mask]. The argument [copy] only decides whether the caller's
    array is updated in place; the array returned is the same. *)
Definition repair_mask (array : marray) (copy : bool) : res marray :=
  if Np.count array =? 0 then
    (if zero_if_masked then Ok (map (fun _ => Sample 0 true) array)
     else Raise (ValueError "Array cannot be repaired as it is entirely masked"))
  else repair_sections array (Np.clump_masked array).

End RepairMask.

(** ** First and last valid samples (library.py) *)

Definition first_valid_sample (array : marray) (start_index : Z)
    : res (option Z * option Q) :=
  if negb ((0 <=? start_index) && (start_index <? len array))
  then Ok (None, None)
  else
    tail <- Np.getitem_slice masked_default array
              (Slice (Some start_index) None None) ;;
    match Np.clump_unmasked tail with
    | c :: _ =>
        index <- Py.add (start c) (Some start_index) ;;
        s <- Np.getitem array index ;;
        Ok (Some index, Some (value s))
    | [] => Ok (None, None)
    end.

Definition last_valid_sample (array : marray) (end_index : option Z)
    : res (option Z * option Q) :=
  let end_index' := match end_index with
                    | None => len array
                    | Some e => e
                    end in
  if negb (is_none end_index) && (len array <? end_index')
  then Ok (None, None)
  else
    head <- Np.getitem_slice masked_default array
              (Slice None (Some (end_index' + 1)) None) ;;
    match rev (Np.clump_unmasked head) with
    | c :: _ =>
        e <- Py.sub (stop c) (Some 1) ;;
        s <- Np.getitem array e ;;
        Ok (Some e, Some (value s))
    | [] => Ok (None, None)
    end.

(** ** Threshold crossing (library.py, index_at_value) *)

Definition is_noneQ (x : option Q) : bool :=
  match x with None => true | Some _ => false end.

(** Truth value of an optional float. *)
Definition truthyQ (x : option Q) : bool :=
  match x with
  | None => false
  | Some v => negb (Qeq_bool v 0)
  end.

(** [x == y] on optional floats. *)
Definition opt_Qeq (x y : option Q) : bool :=
  match x, y with
  | None, None => true
  | Some u, Some v => Qeq_bool u v
  | _, _ => false
  end.

(** Division that raises on a zero divisor. *)
Definition Qdiv_checked (x y : Q) : res Q :=
  if Qeq_bool y 0 then Raise ZeroDivisionError else Ok (x / y)%Q.

(** The nested helper of [closest_unmasked_value]. *)
Definition find_unmasked_value (_slice : qslice) (array : marray) (index : Q)
    : res Q :=
  let slice_start := Q_or_else (qstart _slice) 0 in
  let slice_stop := Q_or_else (qstop _slice) (inject_Z (len array)) in
  if Qle_bool 0 index && Qltb slice_stop index then Raise IndexError
  else if Qltb index 0 && Qltb (inject_Z (len array)) (Qabs index)
  then Raise IndexError
  else
    let index := if Qltb index 0 then Qabs (inject_Z (len array) + index)
                 else index in
    sliced_array <- getitem_qslice array _slice ;;
    let rel_index := (index - slice_start)%Q in
    if (Np.count sliced_array =? 0)
       || Qltb (inject_Z (len sliced_array)) (Qabs rel_index)
    then Raise IndexError
    else
      let indices := mapi (fun i s => Sample (Qabs (inject_Z i - rel_index))
                                             (masked s)) sliced_array in
      relative_pos <- Np.argmin indices ;;
      Ok (inject_Z relative_pos + slice_start)%Q.

(** [step and step == -1] *)
Definition step_is_minus_one (k : option Z) : bool :=
  match k with
  | Some k' => k' =? -1
  | None => false
  end.

Definition closest_unmasked_value (array : marray) (index : Q)
    (_slice : option qslice) : res (Q * sample) :=
  if negb (match _slice with None => true | Some _ => false end)
     && Qltb index 0
  then Raise NotImplementedError
  else
    let _slice := match _slice with
                  | None => QSlice None None None
                  | Some s => s
                  end in
    let n := inject_Z (len array) in
    pos <- (if step_is_minus_one (qstep _slice)
            then
              reversed <- Np.getitem_slice masked_default array
                            (Slice None None (Some (-1)%Z)) ;;
              neg_pos <- find_unmasked_value
                           (QSlice (Some (n - Q_or_else (qstart _slice) n))
                                   (Some (n - Q_or_else (qstop _slice) 0))
                                   None)
                           reversed
                           (n - Q_or_else (qstart _slice) n) ;;
              Ok (n - neg_pos - 1)
            else find_unmasked_value _slice array index)%Q ;;
    v <- getitem_q array pos ;;
    Ok (pos, v).

(** The last branch of [index_at_value] with its [return]: a crossing was
    found between the samples [n] and [n + 1] of the scan. *)
Definition interpolate_crossing (array : marray) (threshold : Q)
    (begin step n : Z) : res (option Q) :=
  a <- Np.getitem array (begin + step * n) ;;
  b <- Np.getitem array (begin + step * (n + 1)) ;;
  r <- (if masked a || masked b || Qeq_bool (value a) (value b)
        then Ok (1 # 2)
        else Qdiv_checked (threshold - value a) (value b - value a)) ;;
  Ok (Some (inject_Z begin + inject_Z step * (inject_Z n + r))%Q).

Definition index_at_value (array : marray) (threshold : Q) (_slice : qslice)
    (endpoint : string) : res (option Q) :=
  let step := Py.or_else (qstep _slice) 1 in
  let max_index := len array in
  scan <-
    (if step =? 1 then
       let begin := Z.max (py_round (Q_or_else (qstart _slice) 0)) 0 in
       let end_ := Z.min (py_round (Q_or_else (qstop _slice)
                                      (inject_Z max_index))) max_index in
       Ok (begin, end_,
           Slice (Some begin) (Some (end_ - 1)) (Some step),
           Slice (Some (begin + 1)) (Some end_) (Some step))
     else if step =? -1 then
       let begin := Z.min (py_round (Q_or_else (qstart _slice)
                                       (inject_Z max_index)))
                          (max_index - 1) in
       let end_ := Z.max (py_int (Q_or_else (qstop _slice) 0)) 0 in
       Ok (begin, end_,
           Slice (Some begin) (Some end_) (Some step),
           Slice (Some (begin - 1))
                 (if 0 <? end_ then Some (end_ - 1) else None) (Some step))
     else Raise (ValueError "Step length not 1 in index_at_value")) ;;
  let '(begin, end_, left_, right_) := scan in
  if begin =? end_ then Ok None
  else if Z.abs (begin - end_) <? 2 then Ok None
  else
    l <- Np.getitem_slice masked_default array left_ ;;
    r <- Np.getitem_slice masked_default array right_ ;;
    value_passing_array <-
      Np.multiply (Np.sub_scalar l threshold) (Np.sub_scalar r threshold) ;;
    let test_array := Np.masked_greater value_passing_array 0 in
    if len test_array =? 0 then Ok None
    else if opt_Qeq (qstop _slice) (qstart _slice)
            && negb (is_noneQ (qstart _slice))
    then Ok None
    else if Np.count test_array =? 0 then
      (if String.eqb endpoint "closing" then
         sliced <- getitem_qslice array _slice ;;
         let diff := Np.ediff1d sliced in
         match closest_unmasked_value array (Q_or_else (qstart _slice) 0)
                 (Some _slice) with
         | Raise _ => Ok None
         | Ok (_, v) =>
             let diff_where :=
               if negb (masked v) && Qle_bool (value v) threshold
               then Np.ma_where (fun d => Qltb d 0) diff
               else Np.ma_where (fun d => Qltb 0 d) diff in
             match diff_where with
             | i :: _ =>
                 Ok (Some (Q_or_else (qstart _slice) 0
                           + inject_Z (step * i))%Q)
             | [] =>
                 if truthyQ (qstop _slice)
                 then Ok (Some (Q_or_else (qstop _slice) 0 - inject_Z step)%Q)
                 else Ok (Some (inject_Z (len array - 1)))
             end
         end
       else if String.eqb endpoint "nearest" then
         closing_array <-
           getitem_qslice (Np.abs (Np.sub_scalar array threshold)) _slice ;;
         k <- Np.argmin closing_array ;;
         Ok (Some (inject_Z (begin + step * k)))
       else Ok None)
    else
      match Np.flatnotmasked_edges test_array with
      | None => Raise TypeError
      | Some (n, _) => interpolate_crossing array threshold begin step n
      end.

(** ** First-order filters (library.py) *)

(** [arr[s] = vals] for an array of values of the right length. *)
Definition setitem_slice_values (arr : marray) (s : slice) (vals : marray)
    : res marray :=
  idx <- Np.positions (len arr) s ;;
  if len idx =? len vals
  then Ok (fold_left
             (fun a iv => mapi (fun j x => if j =? fst iv then snd iv else x) a)
             (combine idx vals) arr)
  else Raise (ValueError "could not broadcast input array").

(** [scipy.signal.lfilter_zi(b, a)] for a first-order filter with
    [a[0] = 1]: the state of the step response at rest, the solution of
    [zi = b1 - a1 * b0 - a1 * zi]. *)
Definition lfilter_zi (b0 b1 a1 : Q) : res Q :=
  if Qeq_bool (1 + a1) 0 then Raise LinAlgError
  else Ok ((b1 - a1 * b0) / (1 + a1))%Q.

(** [scipy.signal.lfilter(b, a, x, zi=z)] for a first-order filter with
    [a[0] = 1], in the transposed direct form II: [y = b0*x + z], then
    [z = b1*x - a1*y]. *)
Fixpoint lfilter (b0 b1 a1 : Q) (z : Q) (x : list Q) : list Q :=
  match x with
  | [] => []
  | v :: x' =>
      let y := (b0 * v + z)%Q in
      y :: lfilter b0 b1 a1 (b1 * v - a1 * y)%Q x'
  end.

(** The loop over the unmasked parts; [initial_value], once set from the
    first part, is kept for the later ones. *)
Fixpoint filter_good_parts (b0 b1 a1 z_initial : Q) (param result : marray)
    (initial_value : option Q) (good_parts : list slice) : res marray :=
  match good_parts with
  | [] => Ok result
  | good_part :: rest =>
      init <- match initial_value with
              | Some v => Ok v
              | None =>
                  i <- Py.add (start good_part) (Some 0) ;;
                  s <- Np.getitem param i ;;
                  Ok (value s)
              end ;;
      xs <- Np.getitem_slice masked_default param good_part ;;
      let answer := lfilter b0 b1 a1 (z_initial * init)%Q (map value xs) in
      result' <- setitem_slice_values result good_part
                   (map (fun y => Sample y false) answer) ;;
      filter_good_parts b0 b1 a1 z_initial param result' (Some init) rest
  end.

(** [result[bad_part] = np.ma.masked] for every masked part. *)
Fixpoint mask_bad_parts (result : marray) (bad_parts : list slice)
    : res marray :=
  match bad_parts with
  | [] => Ok result
  | bad_part :: rest =>
      idx <- Np.positions (len result) bad_part ;;
      mask_bad_parts
        (mapi (fun i s => if existsb (Z.eqb i) idx
                          then Sample (value s) true else s) result)
        rest
  end.

(** [y_term = [1, a1]] and [x_term = [b0, b1]]. *)
Definition masked_first_order_filter (a1 b0 b1 : Q) (param : marray)
    (initial_value : option Q) : res marray :=
  z_initial <- lfilter_zi b0 b1 a1 ;;
  result <- Np.zeros (Some (len param)) ;;
  result <- filter_good_parts b0 b1 a1 z_initial param result initial_value
              (Np.clump_unmasked param) ;;
  mask_bad_parts result (Np.clump_masked param).

Definition first_order_lag (param : marray) (time_constant hz gain : Q)
    (initial_value : option Q) : res marray :=
  let tc := (time_constant * hz)%Q in
  if Qltb tc (1 # 2) then Raise (ValueError "Lag timeconstant too small")
  else
    b0 <- Qdiv_checked gain (1 + 2 * tc) ;;
    b1 <- Qdiv_checked gain (1 + 2 * tc) ;;
    a1 <- Qdiv_checked (1 - 2 * tc) (1 + 2 * tc) ;;
    masked_first_order_filter a1 b0 b1 param initial_value.

Definition first_order_washout (param : marray) (time_constant hz gain : Q)
    (initial_value : option Q) : res marray :=
  let tc := (time_constant * hz)%Q in
  if Qltb tc (1 # 2) then Raise (ValueError "Lag timeconstant too small")
  else
    b0 <- Qdiv_checked (gain * 2 * tc) (1 + 2 * tc) ;;
    b1 <- Qdiv_checked (- gain * 2 * tc) (1 + 2 * tc) ;;
    a1 <- Qdiv_checked (1 - 2 * tc) (1 + 2 * tc) ;;
    masked_first_order_filter a1 b0 b1 param initial_value.

(** ** Rate of change, regression method (library.py) *)

(** Python's [max] and [min] over the elements of an array: an empty
    array is an error. *)
Definition list_max (l : list Q) : res Q :=
  match l with
  | [] => Raise (ValueError "max() arg is an empty sequence")
  | x :: l' => Ok (fold_left (fun m v => if Qltb m v then v else m) l' x)
  end.

Definition list_min (l : list Q) : res Q :=
  match l with
  | [] => Raise (ValueError "min() arg is an empty sequence")
  | x :: l' => Ok (fold_left (fun m v => if Qltb v m then v else m) l' x)
  end.

(** [rate_of_change_array(to_diff, hz, width, method='regression')]: only
    the regression branch is embedded, the one [scan_ils] selects. A
    masked element enters the convolution as 0, the data of numpy's
    masked constant. *)
Definition rate_of_change_array (to_diff : marray) (hz width : Q)
    : res (list Q) :=
  let hw := py_int (width * hz / 2) in
  if hw <? 1
  then Raise (ValueError "Rate of change called with inadequate width.")
  else if len to_diff <=? 2 * hw
  then Ok (map (fun _ => 0%Q) to_diff)
  else
    let x := map inject_Z (Np.range (- hw) (hw + 1) 1) in
    let sx2_hz := (fold_left Qplus (map (fun v => v * v) x) 0 / hz)%Q in
    let plain := map (fun s => if masked s then 0%Q else value s) to_diff in
    first <- Np.getitem plain 0 ;;
    last <- Np.getitem plain (-1) ;;
    let z := repeat first (Z.to_nat hw) ++ plain ++ repeat last (Z.to_nat hw) in
    same <- Np.convolve_same z (map Qopp x) ;;
    middle <- Np.getitem_slice 0%Q same (Slice (Some hw) (Some (- hw)) None) ;;
    Ok (map (fun v => v / sx2_hz)%Q middle).

(** ** ILS beam scan (flight_phase.py, scan_ils) *)

(** [a + b] where [a] may be [None] ([TypeError]) and [b] is a float. *)
Definition add_opt (a : option Z) (b : Q) : res Q :=
  match a with
  | Some x => Ok (inject_Z x + b)%Q
  | None => Raise TypeError
  end.

Definition scan_ils (beam : string) (ils_dots height : marray)
    (scan_slice : slice) (frequency duration : Q) : res (option qslice) :=
  if negb (String.eqb beam "localizer" || String.eqb beam "glideslope")
  then Raise (ValueError "Unrecognised beam type in scan_ils")
  else
    window <- Np.getitem_slice masked_default ils_dots scan_slice ;;
    if Qltb (inject_Z (Np.count window)) (duration * frequency) then Ok None
    else
      match Np.flatnotmasked_edges window with
      | None => Ok None
      | Some (first, last) =>
          v0 <- Py.add (Some first) (start scan_slice) ;;
          v1 <- Py.add (Some last) (start scan_slice) ;;
          valid <- Np.getitem_slice masked_default ils_dots (slice2 v0 v1) ;;
          ratio <- Qdiv_checked (inject_Z (Np.count valid))
                     (inject_Z (len valid)) ;;
          if Qltb ratio (4 # 10) then Ok None
          else
            ils_abs <- repair_mask frequency (Some 5%Q) false false false None
                         (Np.abs ils_dots) false ;;
            (* ----------- Find loss of capture *)
            abs_window <- Np.getitem_slice masked_default ils_abs scan_slice ;;
            lv <- last_valid_sample abs_window None ;;
            let '(last_valid_idx, last_valid_value) := lv in
            lost <-
              (if opt_Qlt last_valid_value (25 # 10) then
                 i <- Py.add (start scan_slice) last_valid_idx ;;
                 Ok (Some (inject_Z (i + 1)))
               else
                 index_at_value ils_abs (25 # 10)
                   (QSlice (option_map inject_Z (stop scan_slice))
                           (option_map inject_Z (start scan_slice))
                           (Some (-1)))
                   "exact") ;;
            match lost with
            | None => Ok None
            | Some ils_lost_idx =>
                glide <-
                  (if String.eqb beam "glideslope" then
                     idx_200 <- index_at_value height 200
                                  (QSlice (option_map inject_Z (stop scan_slice))
                                          (option_map inject_Z (start scan_slice))
                                          (Some (-1)))
                                  "closing" ;;
                     let ils_lost_idx :=
                       match idx_200 with
                       | Some i => if Qltb i ils_lost_idx then i else ils_lost_idx
                       | None => ils_lost_idx
                       end in
                     remaining <- getitem_qslice ils_dots
                                    (QSlice (option_map inject_Z (start scan_slice))
                                            (Some ils_lost_idx) None) ;;
                     if Np.count remaining <? 5 then Ok None
                     else Ok (Some ils_lost_idx)
                   else Ok (Some ils_lost_idx)) ;;
                match glide with
                | None => Ok None
                | Some ils_lost_idx =>
                    (* ----------- Find start of capture *)
                    before <- Py.sub (start scan_slice) (Some 1) ;;
                    scan_start_idx <-
                      index_at_value ils_abs (25 # 10)
                        (QSlice (Some (ils_lost_idx - 1)%Q)
                                (Some (inject_Z before)) (Some (-1)))
                        "exact" ;;
                    ils_capture_idx <-
                      (if truthyQ scan_start_idx then
                         index_at_value ils_abs 1
                           (QSlice scan_start_idx (Some ils_lost_idx) None)
                           "exact"
                       else
                         head <- getitem_qslice ils_abs
                                   (QSlice (option_map inject_Z (start scan_slice))
                                           (Some ils_lost_idx) None) ;;
                         fv <- first_valid_sample head 0 ;;
                         let '(first_valid_idx, first_valid_value) := fv in
                         if opt_Qlt first_valid_value 1 then
                           i <- Py.add (start scan_slice) first_valid_idx ;;
                           Ok (Some (inject_Z i))
                         else
                           index_at_value ils_abs 1
                             (QSlice (option_map inject_Z (start scan_slice))
                                     (Some ils_lost_idx) None)
                             "exact") ;;
                    match ils_capture_idx with
                    | None => Ok None
                    | Some capture =>
                        let ils_slice :=
                          QSlice (Some capture) (Some ils_lost_idx) None in
                        let width := if Qltb frequency (1 # 2) then 10%Q
                                     else 5%Q in
                        section_dots <- getitem_qslice ils_dots ils_slice ;;
                        ils_rate <- rate_of_change_array section_dots
                                      frequency width ;;
                        top <- list_max ils_rate ;;
                        bottom <- list_min ils_rate ;;
                        if Qltb 0 (top * bottom) then Ok None
                        else Ok (Some ils_slice)
                    end
                end
            end
      end.

(** ** More of the interval algebra (library.py) *)

(** [is_index_within_slices]: the loop returns at the first slice that
    holds the index. *)
Fixpoint is_index_within_slices (index : option Z) (slices : list slice)
    : bool :=
  match slices with
  | [] => false
  | _slice :: rest =>
      if is_index_within_slice index _slice then true
      else is_index_within_slices index rest
  end.

Definition find_slices_containing_index (index : option Z)
    (slices : list slice) : list slice :=
  filter (is_index_within_slice index) slices.

(** [filter_slices_duration]: [[s for s in slices if (s.stop - s.start) >=
    (duration * frequency)]]; a slice with an open bound is a
    [TypeError]. *)
Fixpoint filter_slices_duration (slices : list slice) (duration frequency : Q)
    : res (list slice) :=
  match slices with
  | [] => Ok []
  | s :: rest =>
      width <- Py.sub (stop s) (start s) ;;
      kept <- filter_slices_duration rest duration frequency ;;
      Ok (if Qle_bool (duration * frequency) (inject_Z width)
          then s :: kept else kept)
  end.

(** The nested helper [fwd] of [slices_and]: a slice with a negative step
    is turned round. *)
Definition fwd (_slice : slice) : res slice :=
  match step _slice with
  | None => Ok _slice
  | Some k =>
      if k <? 0 then
        a <- Py.add (stop _slice) (Some 1) ;;
        b <- Py.add (start _slice) (Some 1) ;;
        Ok (Slice (Some a) (Some (Z.max b 0)) (Some (- k)))
      else Ok _slice
  end.

(** The body of the inner loop of [slices_and]. *)
Definition and_pair (result_list : list slice) (first_slice second_slice : slice)
    : res (list slice) :=
  slice_1 <- fwd first_slice ;;
  slice_2 <- fwd second_slice ;;
  overlap <- slices_overlap slice_1 slice_2 ;;
  if overlap then
    let slice_start := Py.max (start slice_1) (start slice_2) in
    let slice_stop :=
      if is_none (stop slice_1) then stop slice_2
      else if is_none (stop slice_2) then stop slice_1
      else Py.min (stop slice_1) (stop slice_2) in
    Ok (result_list ++ [Slice slice_start slice_stop None])
  else Ok result_list.

Fixpoint and_inner (result_list : list slice) (first_slice : slice)
    (second_list : list slice) : res (list slice) :=
  match second_list with
  | [] => Ok result_list
  | second_slice :: rest =>
      r <- and_pair result_list first_slice second_slice ;;
      and_inner r first_slice rest
  end.

Fixpoint and_outer (result_list first_list second_list : list slice)
    : res (list slice) :=
  match first_list with
  | [] => Ok result_list
  | first_slice :: rest =>
      r <- and_inner result_list first_slice second_list ;;
      and_outer r rest second_list
  end.

Definition slices_and (first_list second_list : list slice)
    : res (list slice) :=
  and_outer [] first_list second_list.

(** [slices_and_not(first, second)]; the arguments here are the lists
    [[s.slice for s in first]] and [[s.slice for s in second]]. [min] and
    [max] of an empty list are a [ValueError]. *)
Definition slices_and_not (first second : list slice) : res (list slice) :=
  match first with
  | [] => Raise (ValueError "min() arg is an empty sequence")
  | s0 :: rest =>
      inverse <- slices_not second
                   (Py.min_list (start s0) (map start rest))
                   (Py.max_list (stop s0) (map stop rest)) ;;
      slices_and first inverse
  end.

(** [slices_after]. The bounds and the index are taken as integers. *)
Fixpoint slices_after (slices : list slice) (index : Z) : res (list slice) :=
  match slices with
  | [] => Ok []
  | _slice :: rest =>
      match stop _slice with
      | None =>
          Raise (ValueError
                   "Slice stop being None is not supported in slices_after.")
      | Some b =>
          if Py.gt (start _slice) (stop _slice)
          then Raise (ValueError
                        "Reverse slices are not supported in slices_after.")
          else if b <? index then slices_after rest index
          else
            let _slice' :=
              if Py.or_else (start _slice) 0 <? index
              then Slice (Some index) (stop _slice) None
              else _slice in
            truncated <- slices_after rest index ;;
            Ok (_slice' :: truncated)
      end
  end.

Fixpoint slices_before (slices : list slice) (index : Z) : res (list slice) :=
  match slices with
  | [] => Ok []
  | _slice :: rest =>
      match stop _slice with
      | None =>
          Raise (ValueError
                   "Slice stop being None is not supported in slices_before.")
      | Some b =>
          if Py.gt (start _slice) (stop _slice)
          then Raise (ValueError
                        "Reverse slices are not supported in slices_after.")
          else if Py.gt (start _slice) (Some index)
          then slices_before rest index
          else
            let _slice' :=
              if index <? b then Slice (start _slice) (Some index) None
              else _slice in
            truncated <- slices_before rest index ;;
            Ok (_slice' :: truncated)
      end
  end.

(** [slice_midpoint] on integer bounds: [/] is Python 2's floor
    division. *)
Definition slice_midpoint (_slice : slice) : res Z :=
  difference <- Py.sub (stop _slice) (Some (Py.or_else (start _slice) 0)) ;;
  Py.sub (stop _slice) (Some (difference / 2)).

(** [slice_samples]: a zero step is a division by zero. *)
Definition slice_samples (_slice : slice) : res Z :=
  let step := match step _slice with None => 1 | Some k => k end in
  match start _slice, stop _slice with
  | Some a, Some b =>
      if Z.abs step =? 0 then Raise ZeroDivisionError
      else Ok ((Z.abs (b - a) - 1) / Z.abs step + 1)
  | _, _ => Ok 0
  end.

(** [slice_duration] and [slices_duration]; the bounds may be floats. *)
Definition slice_duration (_slice : qslice) (hz : Q) : res Q :=
  match qstop _slice with
  | None =>
      Raise (ValueError "Slice stop is unsupported by slice_duration.")
  | Some b => Qdiv_checked (b - Q_or_else (qstart _slice) 0) hz
  end.

(** [sum([slice_duration(_slice, hz) for _slice in slices])] *)
Fixpoint slice_durations (slices : list qslice) (hz : Q) : res (list Q) :=
  match slices with
  | [] => Ok []
  | _slice :: rest =>
      d <- slice_duration _slice hz ;;
      ds <- slice_durations rest hz ;;
      Ok (d :: ds)
  end.

Definition slices_duration (slices : list qslice) (hz : Q) : res Q :=
  ds <- slice_durations slices hz ;;
  Ok (fold_left Qplus ds 0%Q).

(** [trim_slices] *)
Fixpoint trim_slices (slices : list qslice) (seconds frequency hdf_duration : Q)
    : res (list qslice) :=
  let trim_duration := (seconds * frequency)%Q in
  match slices with
  | [] => Ok []
  | _slice :: rest =>
      let trimmed_slice :=
        QSlice (Some (Q_or_else (qstart _slice) 0 + trim_duration)%Q)
               (Some (Q_or_else (qstop _slice) hdf_duration - trim_duration)%Q)
               None in
      d <- slice_duration trimmed_slice frequency ;;
      trimmed_slices <- trim_slices rest seconds frequency hdf_duration ;;
      Ok (if Qle_bool d 0 then trimmed_slices
          else trimmed_slice :: trimmed_slices)
  end.

(** [runs_of_ones] *)
Definition runs_of_ones (bits : marray) : list slice :=
  Np.clump_unmasked (Np.masked_not_equal bits 1).

(** ** Approach (flight_phase.py) *)

(** The loop over [apps]: the slices collected and the running bounds. A
    [begin] that is still [None] after a slice (an open start) is set
    again, together with [end], from the next slice. *)
Fixpoint approach_bounds (begin end_ : option Z) (apps : list slice)
    : option Z * option Z :=
  match apps with
  | [] => (begin, end_)
  | _slice :: rest =>
      if is_none begin
      then approach_bounds (start _slice) (stop _slice) rest
      else approach_bounds (Py.min begin (start _slice))
                           (Py.max end_ (stop _slice)) rest
  end.

(** [Approach.derive]: the list handed to [self.create_phases]; [apps] and
    [lands] are the slices of the two section nodes. *)
Definition Approach_derive (apps lands : list slice) : res (list slice) :=
  let '(begin, end_) := approach_bounds None None apps in
  inverse <- slices_not lands begin end_ ;;
  slices_and apps inverse.

(** ** Auxiliary views used by the proofs about the interval algebra *)

(** Both bounds given, and no step or step 1. *)
Definition bounded (s : slice) : Prop :=
  exists a b, start s = Some a /\ stop s = Some b
              /\ (step s = None \/ step s = Some 1).

(** [stop - start] of a slice with both bounds given. *)
Definition width (s : slice) : option Z :=
  match start s, stop s with
  | Some a, Some b => Some (b - a)
  | _, _ => None
  end.

(** ** Masking by slices (library.py) *)

(** [for slice_ in slices: arr[slice_] = v] *)
Fixpoint setitem_slices {A} (arr : list A) (slices : list slice) (v : A)
    : res (list A) :=
  match slices with
  | [] => Ok arr
  | slice_ :: rest =>
      arr' <- Np.setitem_slice arr slice_ v ;;
      setitem_slices arr' rest v
  end.

(** [np.ma.array(array, mask=np.ma.mask_or(mask, array.mask))] *)
Definition with_mask (array : marray) (mask : list bool) : marray :=
  Np.zip_with (fun s m => Sample (value s) (m || masked s)) array mask.

Definition mask_inside_slices (array : marray) (slices : list slice)
    : res marray :=
  mask <- setitem_slices (repeat false (length array)) slices true ;;
  Ok (with_mask array mask).

Definition mask_outside_slices (array : marray) (slices : list slice)
    : res marray :=
  mask <- setitem_slices (repeat true (length array)) slices false ;;
  Ok (with_mask array mask).

(** [valid_slices_within_array]; [sections] is the list
    [[x.slice for x in sections]]. *)
Definition valid_slices_within_array (array : marray) (sections : list slice)
    : res (list slice) :=
  array_band <- mask_outside_slices array sections ;;
  Ok (Np.clump_unmasked array_band).

(** ** The longest run of valid samples (library.py) *)

Definition opt_Zeqb (x y : option Z) : bool :=
  match x, y with
  | None, None => true
  | Some u, Some v => u =? v
  | _, _ => false
  end.

Definition slice_eqb (s t : slice) : bool :=
  opt_Zeqb (start s) (start t) && opt_Zeqb (stop s) (stop t)
  && opt_Zeqb (step s) (step t).

(** The loop of [max_continuous_unmasked]: [_max] is replaced when it is
    [None] or strictly shorter than the clump. *)
Fixpoint longest_clump (_max : option slice) (clumps : list slice)
    : res (option slice) :=
  match clumps with
  | [] => Ok _max
  | clump :: rest =>
      dur <- Py.sub (stop clump) (start clump) ;;
      match _max with
      | None => longest_clump (Some clump) rest
      | Some m =>
          w <- Py.sub (stop m) (start m) ;;
          if w <? dur then longest_clump (Some clump) rest
          else longest_clump _max rest
      end
  end.

Definition max_continuous_unmasked (array : marray) (_slice : slice)
    : res (option slice) :=
  if match step _slice with
     | Some k => negb (k =? 0) && negb (k =? 1)
     | None => false
     end
  then Raise (ValueError "Step not supported")
  else
    window <- Np.getitem_slice masked_default array _slice ;;
    let clumps := Np.clump_unmasked window in
    match clumps with
    | [] => Ok None
    | c :: rest =>
        if slice_eqb c (Slice (Some 0) (Some 0) None)
           && match rest with [] => true | _ => false end
        then Ok None
        else
          m <- longest_clump None clumps ;;
          match m with
          | None => Raise AttributeError
          | Some _max =>
              let offset := Py.or_else (start _slice) 0 in
              a <- Py.add (start _max) (Some offset) ;;
              b <- Py.add (stop _max) (Some offset) ;;
              Ok (Some (slice2 a b))
          end
    end.

(** ** Phase masks (library.py) *)

(** [_create_phase_mask]. The work array [m] starts as [np.arange(length)]
    and ends as the mask, so a cell counts as masked when it is not
    zero. *)
Definition _create_phase_mask (array : marray) (hz offset a b : Q)
    (which_side : string) : res marray :=
  let length := len array in
  let m := map (fun i => negb (i =? 0)) (Np.range 0 length 1) in
  let a' := if Qltb b a then b else a in
  let b' := if Qltb b a then a else b in
  let ia := py_int ((a' - offset) * hz) in
  let ia := if Qltb (inject_Z ia) ((a' - offset) * hz) then ia + 1 else ia in
  if (ia <? 0) || (length <? ia)
  then Raise (ValueError "Phase mask index out of range")
  else
    let ib := py_int ((b' - offset) * hz) + 1 in
    if (ib <? 0) || (length <? ib)
    then Raise (ValueError "Phase mask index out of range")
    else
      let inside := String.eqb which_side "inside" in
      m <- Np.setitem_slice m (Slice None (Some ia) None) inside ;;
      m <- Np.setitem_slice m (Slice (Some ia) (Some ib) None) (negb inside) ;;
      m <- Np.setitem_slice m (Slice (Some ib) None None) inside ;;
      Ok (with_mask array m).

Definition create_phase_inside (array : marray)
    (hz offset phase_start phase_end : Q) : res marray :=
  _create_phase_mask array hz offset phase_start phase_end "inside".

Definition create_phase_outside (array : marray)
    (hz offset phase_start phase_end : Q) : res marray :=
  _create_phase_mask array hz offset phase_start phase_end "outside".

(** ** Value at an index (library.py) *)

(** [value_at_index]. The result is [None], or an element of the array (a
    masked one standing for [np.ma.masked]), or a float, written as an
    unmasked sample. An [index] of [None] is below [0.0]. *)
Definition value_at_index (array : marray) (index : option Q)
    (interpolate : bool) : res (option sample) :=
  match index with
  | None => s <- Np.getitem array 0 ;; Ok (Some s)
  | Some index =>
      if Qltb index 0 then s <- Np.getitem array 0 ;; Ok (Some s)
      else if Qltb (inject_Z (len array - 1)) index
      then s <- Np.getitem array (-1) ;; Ok (Some s)
      else
        let low := py_int index in
        if Qeq_bool (inject_Z low) index then
          s <- Np.getitem array low ;;
          Ok (if masked s then None else Some s)
        else
          let high := low + 1 in
          let r := (index - inject_Z low)%Q in
          low_s <- Np.getitem array low ;;
          high_s <- Np.getitem array high ;;
          if masked low_s then
            (if masked high_s then Ok None
             else Ok (Some (Sample (value high_s) false)))
          else if masked high_s then Ok (Some (Sample (value low_s) false))
          else if negb interpolate then
            s <- getitem_q array (index + (1 # 2)) ;; Ok (Some s)
          else Ok (Some (Sample (r * value high_s
                                 + (1 - r) * value low_s)%Q false))
  end.

(** ** Peak of a list (library.py) *)

Definition peak_index (a : list Q) : res Q :=
  match a with
  | [] => Raise (ValueError "No data to scan for peak")
  | [_] => Ok 0%Q
  | [_; _] => loc <- Np.argmax a ;; Ok (inject_Z loc)
  | _ =>
      loc <- Np.argmax a ;;
      if loc =? 0 then Ok 0%Q
      else if loc =? len a - 1 then Ok (inject_Z (len a - 1))
      else
        before <- Np.getitem a (loc - 1) ;;
        at_loc <- Np.getitem a loc ;;
        after <- Np.getitem a (loc + 1) ;;
        let denominator := (2 * before - 4 * at_loc + 2 * after)%Q in
        if Qltb (Qabs denominator) (1 # 1000) then Ok (inject_Z loc)
        else
          let peak := ((before - after) / denominator)%Q in
          Ok (inject_Z loc + peak)%Q
  end.

(** ** Power of two (library.py) *)

(** [is_power2]: a number with a fractional part is rejected, then the
    bit test is made on [int(number)]. *)
Definition is_power2 (number : Q) : bool :=
  if negb (Qeq_bool (number - inject_Z (Qfloor number)) 0) then false
  else
    let num := py_int number in
    (0 <? num) && (Z.land num (num - 1) =? 0).

(** ** Time delay (library.py) *)

Definition np_ma_masked_zeros_like (array : marray) : marray :=
  repeat (Sample 0 true) (length array).

Definition np_ma_zeros_like (array : marray) : marray :=
  repeat (Sample 0 false) (length array).

Definition delay (array : marray) (period hz : Q) : res marray :=
  let n := py_int (period * hz) in
  let result := np_ma_masked_zeros_like array in
  result_tail <- Np.getitem_slice masked_default result
                   (Slice (Some n) None None) ;;
  array_head <- Np.getitem_slice masked_default array
                  (Slice None (Some (- n)) None) ;;
  if len result_tail =? len array_head then
    setitem_slice_values result (Slice (Some n) None None) array_head
  else if n =? 0 then Ok array
  else Ok result.

(** ** Hysteresis (library.py) *)

(** The update of [old] in both loops of [hysteresis]. *)
Definition hysteresis_step (quarter_range old new : Q) : Q :=
  if Qltb quarter_range (new - old) then (new - quarter_range)%Q
  else if Qltb (new - old) (- quarter_range) then (new + quarter_range)%Q
  else old.

(** The forward loop over the valid positions: [old] and [half_done] are
    threaded through. *)
Fixpoint hysteresis_forward (array : marray) (quarter_range : Q)
    (notmasked : list Z) (old : Q) (half_done : list Q)
    : res (Q * list Q) :=
  match notmasked with
  | [] => Ok (old, half_done)
  | index :: rest =>
      new <- data_at array index ;;
      let old := hysteresis_step quarter_range old new in
      half_done <- Np.setitem half_done index old ;;
      hysteresis_forward array quarter_range rest old half_done
  end.

(** The backward loop, over [notmasked[::-1]]. *)
Fixpoint hysteresis_backward (half_done : list Q) (quarter_range : Q)
    (notmasked : list Z) (old : Q) (result : list Q) : res (list Q) :=
  match notmasked with
  | [] => Ok result
  | index :: rest =>
      new <- Np.getitem half_done index ;;
      let old := hysteresis_step quarter_range old new in
      result <- Np.setitem result index old ;;
      hysteresis_backward half_done quarter_range rest old result
  end.

(** [hysteresis]. An array whose mask is [np.False_] has no masked
    element, so both ways of building [notmasked] give the positions of
    the valid elements. *)
Definition hysteresis (array : marray) (hysteresis : Q) : res marray :=
  if Np.count array =? 0 then Ok array
  else
    let quarter_range := (hysteresis / 4)%Q in
    let length := len array in
    let half_done := repeat 0%Q (Z.to_nat length) in
    let result := repeat 0%Q (Z.to_nat length) in
    let notmasked := Np.where_ (map (fun s => negb (masked s)) array) in
    match notmasked with
    | [] => Raise IndexError
    | first :: _ =>
        old <- data_at array first ;;
        fwd_state <- hysteresis_forward array quarter_range notmasked old
                       half_done ;;
        let '(old, half_done) := fwd_state in
        result <- hysteresis_backward half_done quarter_range (rev notmasked)
                    old result ;;
        Ok (Np.zip_with (fun r s => Sample r (masked s)) result array)
    end.

(** ** Interpolation over masked blocks (library.py) *)

(** The body of the loop of [interpolate]. [array[a - 1]] and [array[b]]
    are the neighbours of a block of masked samples; [np.linspace] is
    given their data. *)
Definition interpolate_block (last : Z) (extrapolate : bool) (array : marray)
    (block : slice) : res marray :=
  match start block, stop block with
  | Some a, Some b =>
      if a =? 0 then
        (if extrapolate then
           v <- Np.getitem array b ;;
           Np.setitem_slice_sample array (Slice None (Some b) None) v
         else Ok array)
      else if b =? last then
        (if extrapolate then
           v <- Np.getitem array (a - 1) ;;
           Np.setitem_slice_sample array (Slice (Some a) None None) v
         else Ok array)
      else
        lo <- Np.getitem array (a - 1) ;;
        hi <- Np.getitem array b ;;
        let join := Np.linspace (value lo) (value hi) (b - a + 2) in
        inner <- Np.getitem_slice 0%Q join (Slice (Some 1) (Some (-1)) None) ;;
        setitem_slice_values array (slice2 a b)
          (map (fun v => Sample v false) inner)
  | _, _ => Raise TypeError
  end.

Fixpoint interpolate_blocks (last : Z) (extrapolate : bool) (array : marray)
    (blocks : list slice) : res marray :=
  match blocks with
  | [] => Ok array
  | block :: rest =>
      array' <- interpolate_block last extrapolate array block ;;
      interpolate_blocks last extrapolate array' rest
  end.

Definition interpolate (array : marray) (extrapolate : bool) : res marray :=
  let blocks := Np.clump_masked array in
  let last := len array in
  if match blocks with
     | [block] => opt_Zeqb (start block) (Some 0)
                  && opt_Zeqb (stop block) (Some last)
     | _ => false
     end
  then Ok (np_ma_zeros_like array)
  else interpolate_blocks last extrapolate array blocks.

(** ** Slices above, below and between values (library.py) *)

Section SlicesAbove.

(** [settings.REPAIR_DURATION], the default of [repair_mask]; its value
    is set outside these files. *)
Variable REPAIR_DURATION : option Q.

(** [repair_mask(array)], every argument but the array at its default. *)
Definition repair_mask_default (array : marray) : res marray :=
  repair_mask 1 REPAIR_DURATION false false false None array false.

(** [slices_above]. [repair_mask] returns an array or raises, so the test
    [repaired_array is None] never holds. *)
Definition slices_above (array : marray) (value_ : Q)
    : res (marray * list slice) :=
  if len array =? 0 then Ok (array, [])
  else
    repaired_array <- repair_mask_default array ;;
    let band := Np.masked_less repaired_array value_ in
    Ok (repaired_array, Np.clump_unmasked band).

Definition slices_below (array : marray) (value_ : Q)
    : res (marray * list slice) :=
  if len array =? 0 then Ok (array, [])
  else
    repaired_array <- repair_mask_default array ;;
    let band := Np.masked_greater repaired_array value_ in
    Ok (repaired_array, Np.clump_unmasked band).

Definition slices_between (array : marray) (min_ max_ : Q)
    : res (marray * list slice) :=
  if Np.count array =? 0 then Ok (array, [])
  else
    match repair_mask_default array with
    | Raise (ValueError _) => Ok (array, [])
    | Raise e => Raise e
    | Ok repaired_array =>
        let band := Np.masked_outside repaired_array min_ max_ in
        let band := Np.masked_equal band min_ in
        let band := Np.masked_equal band max_ in
        Ok (repaired_array, Np.clump_unmasked band)
    end.

End SlicesAbove.

(** ** Auxiliary view: runs kept apart *)

(** Non-empty forward slices in ascending order with at least one
    position between two of them, the first at or after [lo]. *)
Fixpoint apart (lo : Z) (l : list slice) : Prop :=
  match l with
  | [] => True
  | c :: l' => exists s t, c = slice2 s t /\ lo <= s /\ s < t /\ apart (t + 1) l'
  end.

(** The slices [shift_slices] keeps when the offset is not zero: those
    with an open bound or at least one sample wide. *)
Definition keeps_width (s : slice) : bool :=
  match start s, stop s with
  | Some a, Some b => 1 <=? b - a
  | _, _ => true
  end.

(** * Properties *)

(** ** Monad and comparison helpers *)

Lemma bind_Ok {A B} (m : res A) (f : A -> res B) (b : B) :
  bind m f = Ok b -> exists a, m = Ok a /\ f a = Ok b.
Proof. destruct m; simpl; intros H; [exists a; auto | discriminate]. Qed.

Lemma Qltb_lt a b : Qltb a b = true <-> (a < b)%Q.
Proof.
  unfold Qltb. rewrite negb_true_iff. split; intros H.
  - apply Qnot_le_lt. intros Hle. apply Qle_bool_iff in Hle. congruence.
  - destruct (Qle_bool b a) eqn:E; auto.
    apply Qle_bool_iff in E. exfalso. apply (Qlt_not_le _ _ H E).
Qed.

Lemma Qltb_ge a b : Qltb a b = false <-> (b <= a)%Q.
Proof.
  unfold Qltb. rewrite negb_false_iff. apply Qle_bool_iff.
Qed.


(** ** Containment: [is_slice_within_slice] *)

(** C8 at a concrete input: the inner slice [slice(None, 5)] has no
    start, so by the docstring of [is_slice_within_slice] ("inner_slice is
    considered to not be within outer slice if its start or stop is
    None") it is within no slice; the code returns [True] for the outer
    slice [slice(None, 10)], through the branch that compares the stops
    when both starts are [None]. *)
Theorem is_slice_within_slice_open_inner_true :
  is_slice_within_slice (Slice None (Some 5) None) (Slice None (Some 10) None)
    "slice" = Ok (Some true)
  /\ start (Slice None (Some 5) None) = None.
Proof. split; reflexivity. Qed.

(** ** Small gaps, then small slices *)

Section GapsAndSlices.

Variable gap_limit : Q.

Lemma small_gaps_loop_merge_from (rest pre : list slice) (cur : slice) :
  small_gaps_loop gap_limit (pre ++ [cur]) rest
  = (g <- merge_from gap_limit cur rest ;; Ok (pre ++ g)).
Proof.
  revert pre cur. induction rest as [|s rest IH]; intros pre cur; simpl.
  - reflexivity.
  - rewrite last_last, removelast_last.
    destruct (Py.sub (start s) (stop cur)) as [gap|e]; simpl; [|reflexivity].
    destruct (Qltb (inject_Z gap) gap_limit).
    + apply IH.
    + rewrite IH. destruct (merge_from gap_limit s rest); simpl;
        [rewrite <- app_assoc|]; reflexivity.
Qed.

Lemma small_slices_loop_keep_long (slice_limit : Q) (l pre : list slice) :
  small_slices_loop slice_limit pre l
  = (r <- keep_long slice_limit l ;; Ok (pre ++ r)).
Proof.
  revert pre. induction l as [|s l IH]; intros pre; simpl.
  - now rewrite app_nil_r.
  - destruct (Py.sub (stop s) (start s)) as [len|e]; simpl; [|reflexivity].
    destruct (Qltb slice_limit (inject_Z len)); rewrite IH;
      destruct (keep_long slice_limit l); simpl;
      [rewrite <- app_assoc| | |]; reflexivity.
Qed.

(** What [merge_from] emits, from a forward, ascending input: forward
    slices whose consecutive gaps reach the limit, the first of which
    starts where [cur] starts. *)
Lemma merge_from_gapped (rest : list slice) (cur : slice) (g : list slice) :
  forward cur = true ->
  forallb forward rest = true ->
  ascending (cur :: rest) = true ->
  merge_from gap_limit cur rest = Ok g ->
  exists c g', g = c :: g' /\ start c = start cur
               /\ Forall (fun s => forward s = true) g
               /\ gapped gap_limit g.
Proof.
  revert cur g. induction rest as [|s rest IH]; intros cur g Hc Hf Ha Hm.
  - simpl in Hm. injection Hm as <-. exists cur, []. repeat split; auto.
  - simpl in Hm. simpl in Hf. apply andb_prop in Hf as [Hs Hf].
    assert (Ha' : Py.le (start cur) (start s) = true /\ ascending (s :: rest) = true).
    { simpl in Ha. apply andb_prop in Ha. exact Ha. }
    destruct Ha' as [Hcs Has].
    destruct (start s) as [a|] eqn:Es, (stop cur) as [b|] eqn:Ec;
      simpl in Hm; try discriminate.
    destruct (Qltb (inject_Z (a - b)) gap_limit) eqn:Eg.
    + destruct (IH (Slice (start cur) (stop s) None) g) as (c & g' & -> & Hst & HF & HG);
        auto.
      * unfold forward in *. simpl. rewrite Es in *.
        destruct (start cur) as [x|], (stop s) as [y|]; simpl in *; auto;
          try discriminate.
        apply Z.leb_le in Hcs, Hs. apply Z.leb_le. lia.
      * destruct rest as [|t rest]; [reflexivity|].
        simpl in Has |- *. apply andb_prop in Has as [Hst Has].
        rewrite Has, andb_true_r. rewrite Es in *.
        destruct (start cur) as [x|], (start t) as [y|]; simpl in *; auto;
          try discriminate.
        apply Z.leb_le in Hcs, Hst. apply Z.leb_le. lia.
      * exists c, g'. repeat split; auto.
    + destruct (merge_from gap_limit s rest) as [g1|] eqn:E1; simpl in Hm;
        [|discriminate].
      injection Hm as <-.
      destruct (IH s g1) as (c & g' & -> & Hst & HF & HG); auto.
      exists cur, (c :: g'). repeat split; auto.
      * exists a, b. rewrite Hst. repeat split; auto.
        apply Qltb_ge. exact Eg.
Qed.

(** A list whose consecutive gaps reach the limit is left alone. *)
Lemma merge_from_gapped_id (rest : list slice) (cur : slice) :
  gapped gap_limit (cur :: rest) ->
  merge_from gap_limit cur rest = Ok (cur :: rest).
Proof.
  revert cur. induction rest as [|s rest IH]; intros cur Hg; simpl.
  - reflexivity.
  - destruct Hg as [(a & b & Ha & Hb & Hab) Hg].
    rewrite Ha, Hb. simpl.
    apply Qltb_ge in Hab. rewrite Hab.
    rewrite (IH s Hg). reflexivity.
Qed.

Lemma gapped_tail (s : slice) (l : list slice) :
  gapped gap_limit (s :: l) -> gapped gap_limit l.
Proof. destruct l; simpl; tauto. Qed.

(** Dropping slices from a forward list keeps the gaps, the limit being
    non-negative: the dropped slice and the two gaps around it add up. *)
Lemma keep_long_gapped (slice_limit : Q) (g : list slice) :
  (0 <= gap_limit)%Q ->
  forall (d : slice) (m : list slice),
  Forall (fun s => forward s = true) g ->
  gapped gap_limit (d :: g) ->
  keep_long slice_limit g = Ok m ->
  gapped gap_limit (d :: m).
Proof.
  intros Hpos. induction g as [|s g IH]; intros d m HF Hg Hk.
  - simpl in Hk. injection Hk as <-. exact I.
  - simpl in Hk. inversion HF as [|? ? Hs HF']; subst.
    destruct Hg as [(a & b & Ha & Hb & Hab) Hg].
    destruct (stop s) as [bs|] eqn:Ebs; simpl in Hk; [|discriminate].
    rewrite Ha in Hk. simpl in Hk.
    destruct (keep_long slice_limit g) as [r|] eqn:Er; simpl in Hk; [|discriminate].
    injection Hk as <-.
    destruct (Qltb slice_limit (inject_Z (bs - a))).
    + split.
      * exists a, b. auto.
      * apply IH; auto.
    + apply IH; auto.
      destruct g as [|t g]; [exact I|].
      destruct Hg as [(a' & b' & Ha' & Hb' & Hab') Hg].
      split; [|exact Hg].
      exists a', b. repeat split; auto.
      rewrite Ebs in Hb'. injection Hb' as <-.
      unfold forward in Hs. rewrite Ha, Ebs in Hs. simpl in Hs.
      apply Z.leb_le in Hs.
      assert (H0 : (0 <= inject_Z (a - b))%Q) by (eapply Qle_trans; eauto).
      change 0%Q with (inject_Z 0) in H0. rewrite <- Zle_Qle in H0.
      eapply Qle_trans; [exact Hab'|]. rewrite <- Zle_Qle. lia.
Qed.

(** With a negative limit no forward slice is short enough to drop. *)
Lemma keep_long_negative_limit (slice_limit : Q) (g m : list slice) :
  (slice_limit < 0)%Q ->
  Forall (fun s => forward s = true) g ->
  keep_long slice_limit g = Ok m -> m = g.
Proof.
  intros Hneg. revert m. induction g as [|s g IH]; intros m HF Hk.
  - simpl in Hk. now injection Hk as <-.
  - simpl in Hk. inversion HF as [|? ? Hs HF']; subst.
    destruct (stop s) as [b|] eqn:Eb, (start s) as [a|] eqn:Ea;
      simpl in Hk; try discriminate.
    destruct (keep_long slice_limit g) as [r|] eqn:Er; simpl in Hk; [|discriminate].
    injection Hk as <-. rewrite (IH r HF' eq_refl).
    unfold forward in Hs. rewrite Ea, Eb in Hs. simpl in Hs. apply Z.leb_le in Hs.
    assert (Hlt : Qltb slice_limit (inject_Z (b - a)) = true).
    { apply Qltb_lt. eapply Qlt_le_trans; [exact Hneg|].
      change 0%Q with (inject_Z 0). rewrite <- Zle_Qle. lia. }
    now rewrite Hlt.
Qed.

(** Filtering twice is filtering once. *)
Lemma keep_long_idem (slice_limit : Q) (g m : list slice) :
  keep_long slice_limit g = Ok m -> keep_long slice_limit m = Ok m.
Proof.
  revert m. induction g as [|s g IH]; intros m Hk; simpl in Hk.
  - now injection Hk as <-.
  - destruct (Py.sub (stop s) (start s)) as [len|] eqn:El; simpl in Hk;
      [|discriminate].
    destruct (keep_long slice_limit g) as [r|] eqn:Er; simpl in Hk; [|discriminate].
    injection Hk as <-.
    destruct (Qltb slice_limit (inject_Z len)) eqn:Eq; [|now apply IH].
    simpl. rewrite El. simpl. rewrite (IH r eq_refl). simpl. now rewrite Eq.
Qed.

End GapsAndSlices.

Lemma slices_remove_small_gaps_cons (s : slice) (l : list slice) (tl hz : Q) :
  slices_remove_small_gaps (Some (s :: l)) tl hz
  = (g <- merge_from (tl * hz) s l ;; Ok (Some g)).
Proof.
  unfold slices_remove_small_gaps. destruct l as [|t l].
  - reflexivity.
  - change [s] with ([] ++ [s]).
    rewrite (small_gaps_loop_merge_from (tl * hz) (t :: l) [] s).
    destruct (merge_from (tl * hz) s (t :: l)); reflexivity.
Qed.

Lemma slices_remove_small_slices_Some (l : list slice) (tl hz : Q)
    (count : option Z) :
  slices_remove_small_slices (Some l) tl hz count
  = (r <- keep_long (if Py.truthy count then inject_Z (Py.or_else count 0)
                     else (tl * hz)%Q) l ;;
     Ok (Some r)).
Proof.
  unfold slices_remove_small_slices. rewrite small_slices_loop_keep_long.
  destruct (keep_long _ l); reflexivity.
Qed.

(** On a list with the gaps and the lengths already in place the
    composition changes nothing. *)
Lemma remove_gaps_then_slices_fixed (tl hz : Q) (count : option Z)
    (g m : list slice) :
  gapped (tl * hz) m ->
  keep_long (if Py.truthy count then inject_Z (Py.or_else count 0)
             else (tl * hz)%Q) g = Ok m ->
  remove_gaps_then_slices tl hz count (Some m) = Ok (Some m).
Proof.
  intros Hg Hk. apply keep_long_idem in Hk.
  unfold remove_gaps_then_slices. destruct m as [|c m].
  - reflexivity.
  - rewrite slices_remove_small_gaps_cons, (@merge_from_gapped_id _ m c Hg).
    cbn [bind]. rewrite slices_remove_small_slices_Some, Hk. reflexivity.
Qed.

(** C4, as stated, fails on a list of forward slices that is not in
    ascending order: with [time_limit=10, hz=1] the list
    [[slice(0,20), slice(30,40), slice(5,10), slice(20,60)]] goes to
    [[slice(0,20), slice(20,60)]] (the merge of the second and third is
    [slice(30,10)], which is dropped), and a second application merges
    the two survivors into [[slice(0,60)]]. *)
Lemma remove_gaps_then_slices_not_idempotent :
  let L := Some [slice2 0 20; slice2 30 40; slice2 5 10; slice2 20 60] in
  remove_gaps_then_slices 10 1 None L = Ok (Some [slice2 0 20; slice2 20 60])
  /\ (r <- remove_gaps_then_slices 10 1 None L ;;
      remove_gaps_then_slices 10 1 None r) = Ok (Some [slice2 0 60])
  /\ (r <- remove_gaps_then_slices 10 1 None L ;;
      remove_gaps_then_slices 10 1 None r)
     <> remove_gaps_then_slices 10 1 None L.
Proof.
  repeat split; try (vm_compute; reflexivity).
  vm_compute. discriminate.
Qed.

(** C4, amended: for a stored interval list (every slice forward, the
    list in ascending order of start) and a gap limit [time_limit * hz]
    that is not negative (or no [count], so that both passes use the same
    limit), applying the composition a second time with the same
    parameters gives the result of applying it once. A list with an open
    bound makes the first application raise, and the second with it. *)
Theorem remove_gaps_then_slices_idempotent (time_limit hz : Q)
    (count : option Z) (slice_list : option (list slice)) :
  stored_intervals slice_list = true ->
  (0 <= time_limit * hz)%Q \/ Py.truthy count = false ->
  (r <- remove_gaps_then_slices time_limit hz count slice_list ;;
   remove_gaps_then_slices time_limit hz count r)
  = remove_gaps_then_slices time_limit hz count slice_list.
Proof.
  intros Hst Hlim.
  destruct slice_list as [[|s l]|]; try reflexivity.
  simpl in Hst. apply andb_prop in Hst as [Hfw Hasc].
  apply andb_prop in Hfw as [Hs Hfw].
  destruct (remove_gaps_then_slices time_limit hz count (Some (s :: l)))
    as [r|e] eqn:E; [|reflexivity].
  cbn [bind]. unfold remove_gaps_then_slices in E.
  rewrite slices_remove_small_gaps_cons in E.
  destruct (merge_from (time_limit * hz) s l) as [g|] eqn:Eg; [|discriminate].
  cbn [bind] in E. rewrite slices_remove_small_slices_Some in E.
  destruct (keep_long _ g) as [m|] eqn:Em; [|discriminate].
  simpl in E. injection E as <-.
  destruct (@merge_from_gapped _ l s g Hs Hfw Hasc Eg) as (c & g' & -> & _ & HF & HG).
  apply remove_gaps_then_slices_fixed with (g := c :: g'); [|exact Em].
  destruct (Qlt_le_dec (time_limit * hz) 0) as [Hneg|Hpos].
  - destruct Hlim as [Hpos|Hc]; [exfalso; apply (Qlt_not_le _ _ Hneg Hpos)|].
    rewrite Hc in Em. apply keep_long_negative_limit in Em; auto. now subst m.
  - simpl in Em.
    destruct (Py.sub (stop c) (start c)) as [len|]; [|discriminate].
    simpl in Em.
    destruct (keep_long _ g') as [r|] eqn:Er; [|discriminate].
    simpl in Em. inversion HF as [|? ? Hc HF']; subst.
    assert (Hcr : gapped (time_limit * hz) (c :: r))
      by (eapply keep_long_gapped; eauto).
    injection Em as <-. destruct (Qltb _ (inject_Z len)).
    + exact Hcr.
    + apply (gapped_tail _ _ _ Hcr).
Qed.

Lemma remove_gaps_then_slices_idempotent_witness :
  let L := Some [slice2 0 20; slice2 25 28; slice2 30 60; slice2 100 105] in
  (r <- remove_gaps_then_slices 10 1 None L ;;
   remove_gaps_then_slices 10 1 None r)
  = remove_gaps_then_slices 10 1 None L.
Proof.
  apply (@remove_gaps_then_slices_idempotent 10 1 None
           (Some [slice2 0 20; slice2 25 28; slice2 30 60; slice2 100 105])).
  - reflexivity.
  - left. vm_compute. discriminate.
Defined.

(** ** Union of slice lists: the degenerate calls *)

Lemma or_bounds_all_empty (slice_lists : list (option (list slice))) :
  Forall (fun l => l = Some []) slice_lists ->
  or_bounds None None slice_lists = Ok (None, None).
Proof.
  induction 1 as [|l ls Hl _ IH]; simpl.
  - reflexivity.
  - subst l. exact IH.
Qed.

(** C10: [slices_or] returns [None], not an empty list, when it is called
    with no slice list at all, and also when every list it is given is
    empty and no [end_at] is passed, so that the endpoint stays [None]. *)
Theorem slices_or_degenerate_returns_None :
  (forall kwargs, slices_or [] kwargs = Ok None)
  /\ (forall slice_lists kwargs,
        slice_lists <> [] ->
        Forall (fun l => l = Some []) slice_lists ->
        end_at kwargs = None ->
        slices_or slice_lists kwargs = Ok None).
Proof.
  split; [reflexivity|].
  intros slice_lists kwargs Hne Hall Hend.
  unfold slices_or. destruct slice_lists as [|l ls]; [congruence|].
  rewrite (or_bounds_all_empty _ Hall). cbn [bind]. rewrite Hend.
  cbn. now rewrite andb_false_r.
Qed.

Lemma slices_or_degenerate_returns_None_witness :
  slices_or [Some []; Some []; Some []] (OrKwargs (Some (Some 3)) None) = Ok None.
Proof.
  apply (proj2 slices_or_degenerate_returns_None).
  - discriminate.
  - repeat constructor.
  - reflexivity.
Defined.

(** ** Positions, slicing and painting *)

Lemma zseq_length (n : nat) (i : Z) : length (zseq i n) = n.
Proof. revert i. induction n; intros i; simpl; auto. Qed.

Lemma zseq_In (n : nat) (i j : Z) :
  In j (zseq i n) <-> i <= j < i + Z.of_nat n.
Proof.
  revert i. induction n as [|n IH]; intros i; simpl.
  - lia.
  - rewrite IH. lia.
Qed.

Lemma zseq_app (n m : nat) (i : Z) :
  zseq i (n + m) = zseq i n ++ zseq (i + Z.of_nat n) m.
Proof.
  revert i. induction n as [|n IH]; intros i.
  - simpl. now rewrite Z.add_0_r.
  - cbn [zseq Nat.add app]. rewrite IH.
    replace (i + Z.of_nat (S n)) with (i + 1 + Z.of_nat n) by lia. reflexivity.
Qed.

Lemma zseq_nth (n : nat) (i : Z) (k : nat) (d : Z) :
  (k < n)%nat -> nth k (zseq i n) d = i + Z.of_nat k.
Proof.
  revert i k. induction n as [|n IH]; intros i k Hk; [lia|].
  destruct k as [|k]; simpl.
  - lia.
  - rewrite IH by lia. lia.
Qed.

Lemma existsb_zseq (n : nat) (x i : Z) :
  existsb (Z.eqb i) (zseq x n) = (x <=? i) && (i <? x + Z.of_nat n).
Proof.
  destruct (existsb (Z.eqb i) (zseq x n)) eqn:E.
  - apply existsb_exists in E as (j & Hj & Hij).
    apply Z.eqb_eq in Hij. subst j. apply zseq_In in Hj.
    symmetry. apply andb_true_iff. split; [apply Z.leb_le|apply Z.ltb_lt]; lia.
  - symmetry. apply not_true_is_false. intros H.
    apply andb_true_iff in H as [H1 H2].
    apply Z.leb_le in H1. apply Z.ltb_lt in H2.
    assert (Hin : existsb (Z.eqb i) (zseq x n) = true).
    { apply existsb_exists. exists i. split; [apply zseq_In; lia|apply Z.eqb_refl]. }
    congruence.
Qed.

Lemma map_seq_zseq (a : Z) (n k : nat) :
  map (fun j => a + Z.of_nat j * 1) (seq k n) = zseq (a + Z.of_nat k) n.
Proof.
  revert k. induction n as [|n IH]; intros k; simpl.
  - reflexivity.
  - rewrite IH. f_equal; [lia|]. f_equal. lia.
Qed.

Lemma range_forward (a b : Z) : Np.range a b 1 = zseq a (Z.to_nat (b - a)).
Proof.
  unfold Np.range, Np.range_len. cbn [Z.ltb Z.compare].
  rewrite map_seq_zseq, Z.add_0_r. f_equal.
  destruct (a <? b) eqn:E.
  - apply Z.ltb_lt in E. rewrite Z.div_1_r. f_equal. lia.
  - apply Z.ltb_ge in E. simpl. lia.
Qed.
Lemma adjust_inside (n x : Z) : 0 <= x <= n -> Np.adjust n false x = x.
Proof.
  intros H. unfold Np.adjust.
  destruct (x <? 0) eqn:E1; [apply Z.ltb_lt in E1; lia|].
  destruct (n <=? x) eqn:E2; [apply Z.leb_le in E2; lia|reflexivity].
Qed.

Lemma positions_inside (n x y : Z) (k : option Z) :
  0 <= x <= n -> 0 <= y <= n -> k = None \/ k = Some 1 ->
  Np.positions n (Slice (Some x) (Some y) k) = Ok (zseq x (Z.to_nat (y - x))).
Proof.
  intros Hx Hy Hk. unfold Np.positions, Np.slice_bounds.
  destruct Hk as [-> | ->]; cbn; rewrite !adjust_inside by lia;
    now rewrite range_forward.
Qed.

Lemma mapi_from_length {A B} (f : Z -> A -> B) (l : list A) (i : Z) :
  length (mapi_from i f l) = length l.
Proof. revert i. induction l; intros i; simpl; auto. Qed.

Lemma mapi_from_ext {A B} (f g : Z -> A -> B) (l : list A) (i : Z) :
  (forall j x, i <= j < i + len l -> f j x = g j x) ->
  mapi_from i f l = mapi_from i g l.
Proof.
  revert i. induction l as [|x l IH]; intros i H; simpl; [reflexivity|].
  unfold len in H. cbn [length] in H. f_equal.
  - apply H. lia.
  - apply IH. intros j y Hj. apply H. unfold len in Hj. lia.
Qed.

Lemma mapi_from_fuse {A B C} (f : Z -> A -> B) (g : Z -> B -> C)
    (l : list A) (i : Z) :
  mapi_from i g (mapi_from i f l) = mapi_from i (fun j x => g j (f j x)) l.
Proof. revert i. induction l; intros i; simpl; [|rewrite IHl]; reflexivity. Qed.

Lemma mapi_from_repeat {A B} (f : Z -> A -> B) (z : A) (n : nat) (i : Z) :
  mapi_from i f (repeat z n) = map (fun j => f j z) (zseq i n).
Proof. revert i. induction n; intros i; simpl; [|rewrite IHn]; reflexivity. Qed.

Lemma map_mapi_from {A B C} (f : Z -> A -> B) (g : B -> C) (l : list A) (i : Z) :
  map g (mapi_from i f l) = mapi_from i (fun j x => g (f j x)) l.
Proof. revert i. induction l; intros i; simpl; [|rewrite IHl]; reflexivity. Qed.

Lemma len_mapi {A B} (f : Z -> A -> B) (l : list A) : len (mapi f l) = len l.
Proof. unfold len, mapi. now rewrite mapi_from_length. Qed.

(** Painting forward slices that lie inside the workspace marks exactly
    the positions they cover. *)
Lemma paint_covers (A : list slice) (ws : marray) :
  Forall (inside 0 (len ws)) A ->
  paint ws A
  = Ok (mapi (fun i s => if covers A i then Sample 1 false else s) ws).
Proof.
  revert ws. induction A as [|s A IH]; intros ws HA; simpl.
  - clear HA. f_equal. unfold mapi. generalize 0. induction ws; intros i; simpl;
      [|rewrite <- IHws]; reflexivity.
  - inversion HA as [|? ? Hs HA']; subst.
    destruct Hs as (x & y & Hx & Hy & H0 & Hxy & Hyn & Hk).
    unfold Np.setitem_slice. destruct s as [sa sb sk]. simpl in Hx, Hy, Hk.
    subst sa sb. rewrite positions_inside by (auto; lia). cbn [bind].
    rewrite IH by (now rewrite len_mapi). f_equal.
    unfold mapi. rewrite mapi_from_fuse. apply mapi_from_ext.
    intros j v _. cbn [covers existsb in_slice start stop].
    rewrite existsb_zseq.
    replace (x + Z.of_nat (Z.to_nat (y - x))) with y by lia.
    fold (covers A j).
    destruct ((x <=? j) && (j <? y)), (covers A j); reflexivity.
Qed.

Lemma paint_app (A B : list slice) (ws : marray) :
  paint ws (A ++ B) = (w <- paint ws A ;; paint w B).
Proof.
  revert ws. induction A as [|s A IH]; intros ws; simpl; [reflexivity|].
  destruct (Np.setitem_slice ws s (Sample 1 false)); simpl; auto.
Qed.

(** A fresh workspace, painted and passed through [masked_equal]. *)
Lemma raster_covers (A : list slice) (n : nat) :
  Forall (inside 0 (Z.of_nat n)) A ->
  (w <- paint (repeat (Sample 0 false) n) A ;; Ok (Np.masked_equal w 1))
  = Ok (map (fun i => cell (covers A i)) (zseq 0 n)).
Proof.
  intros HA. rewrite paint_covers.
  - cbn [bind]. f_equal. unfold Np.masked_equal, mapi.
    rewrite map_mapi_from, mapi_from_repeat. apply map_ext.
    intros i. destruct (covers A i); reflexivity.
  - unfold len. now rewrite repeat_length.
Qed.

Lemma zeros_Some (n : Z) :
  0 <= n -> Np.zeros (Some n) = Ok (repeat (Sample 0 false) (Z.to_nat n)).
Proof.
  intros H. unfold Np.zeros.
  destruct (n <? 0) eqn:E; [apply Z.ltb_lt in E; lia|reflexivity].
Qed.

(** Slicing a raster. *)
Lemma getitem_slice_raster {A} (g : Z -> A) (d : A) (n : nat) (b e : Z) :
  0 <= b <= e -> e <= Z.of_nat n ->
  Np.getitem_slice d (map g (zseq 0 n)) (Slice (Some b) (Some e) None)
  = Ok (map g (zseq b (Z.to_nat (e - b)))).
Proof.
  intros Hb He. unfold Np.getitem_slice, len.
  rewrite length_map, zseq_length, positions_inside by (auto; lia).
  cbn [bind]. f_equal. apply map_ext_in. intros i Hi.
  apply zseq_In in Hi.
  rewrite (nth_indep _ d (g 0)) by (rewrite length_map, zseq_length; lia).
  rewrite map_nth, zseq_nth by lia. f_equal. lia.
Qed.
(** ** Clumps *)

(** Case analysis on every integer comparison of the goal. *)
Ltac zbool :=
  repeat match goal with
         | |- context [?a <=? ?b] => destruct (Z.leb_spec a b)
         | |- context [?a <? ?b] => destruct (Z.ltb_spec a b)
         end;
  cbn [andb orb negb]; try reflexivity; try lia;
  rewrite ?andb_false_r, ?orb_false_r, ?andb_true_r, ?orb_true_r;
  try reflexivity.

(** Which positions the slices of [clump_from] cover: the run that was
    open, and every later position whose bit is set. *)
Lemma covers_clump_from (m : list bool) (i : Z) (open : option Z) (j : Z) :
  (forall s, open = Some s -> s <= i) ->
  covers (Np.clump_from i open m) j
  = (match open with
     | Some s => (s <=? j) && (j <? i)
     | None => false
     end
     || ((i <=? j) && nth (Z.to_nat (j - i)) m false)).
Proof.
  revert i open. induction m as [|b m IH]; intros i open Ho.
  - assert (Hnil : nth (Z.to_nat (j - i)) [] false = false)
      by (destruct (Z.to_nat (j - i)); reflexivity).
    rewrite Hnil. destruct open as [s|]; cbn; zbool.
  - assert (Hopen : forall s, open = Some s -> s <= i) by exact Ho.
    destruct (Z.compare_spec j i) as [->|Hlt|Hgt].
    + rewrite Z.sub_diag. cbn [Z.to_nat nth].
      destruct b, open as [s|]; cbn [Np.clump_from];
        try specialize (Ho s eq_refl);
        cbn [covers existsb in_slice slice2 start stop];
        try fold (covers (Np.clump_from (i + 1) None m) i);
        rewrite IH by (intros ? [= <-]; lia || discriminate); zbool.
    + destruct b, open as [s|]; cbn [Np.clump_from];
        try specialize (Ho s eq_refl);
        cbn [covers existsb in_slice slice2 start stop];
        try fold (covers (Np.clump_from (i + 1) None m) j);
        rewrite IH by (intros ? [= <-]; lia || discriminate); zbool.
    + replace (Z.to_nat (j - i)) with (S (Z.to_nat (j - (i + 1)))) by lia.
      cbn [nth].
      destruct b, open as [s|]; cbn [Np.clump_from];
        try specialize (Ho s eq_refl);
        cbn [covers existsb in_slice slice2 start stop];
        try fold (covers (Np.clump_from (i + 1) None m) j);
        rewrite IH by (intros ? [= <-]; lia || discriminate); zbool.
Qed.

(** Every clump is a non-empty forward slice within the range scanned. *)
Lemma clump_from_bounds (m : list bool) (i : Z) (open : option Z) (lo : Z) :
  lo <= i ->
  (forall s, open = Some s -> lo <= s < i) ->
  Forall (fun c => exists s t, c = slice2 s t
                               /\ lo <= s /\ s < t /\ t <= i + len m)
         (Np.clump_from i open m).
Proof.
  revert i open. induction m as [|b m IH]; intros i open Hlo Ho.
  - destruct open as [s|]; cbn; constructor; [|constructor].
    exists s, i. specialize (Ho s eq_refl). unfold len. simpl. repeat split; lia.
  - assert (Hlen : len (b :: m) = len m + 1) by (unfold len; simpl length; lia).
    assert (Hmono : Forall (fun c => exists s t, c = slice2 s t
                               /\ lo <= s /\ s < t /\ t <= i + 1 + len m)
                      (Np.clump_from (i + 1) None m)).
    { apply IH; [lia|discriminate]. }
    rewrite Hlen. replace (i + (len m + 1)) with (i + 1 + len m) by lia.
    destruct b; cbn [Np.clump_from].
    + apply IH; [lia|]. intros s [= <-].
      destruct open as [s'|]; [specialize (Ho s' eq_refl)|]; lia.
    + destruct open as [s|]; [|exact Hmono].
      constructor; [|exact Hmono].
      exists s, i. specialize (Ho s eq_refl).
      assert (0 <= len m) by (unfold len; lia). repeat split; lia.
Qed.

Lemma clump_from_false_prefix (k : nat) (m : list bool) (i : Z) :
  Np.clump_from i None (repeat false k ++ m)
  = Np.clump_from (i + Z.of_nat k) None m.
Proof.
  revert i. induction k as [|k IH]; intros i.
  - simpl. now rewrite Z.add_0_r.
  - cbn [repeat app Np.clump_from]. rewrite IH. f_equal. lia.
Qed.

Lemma clump_from_true_run (k : nat) (i s : Z) :
  Np.clump_from i (Some s) (repeat true k) = [slice2 s (i + Z.of_nat k)].
Proof.
  revert i. induction k as [|k IH]; intros i.
  - simpl. now rewrite Z.add_0_r.
  - cbn [repeat Np.clump_from]. rewrite IH. do 2 f_equal. lia.
Qed.

Lemma clump_from_all_false (k : nat) (i : Z) :
  Np.clump_from i None (repeat false k) = [].
Proof.
  rewrite <- (app_nil_r (repeat false k)), clump_from_false_prefix.
  reflexivity.
Qed.

(** *** The unmasked runs of an array *)

Lemma clump_from_all_true (a : marray) (i : Z) :
  a <> [] -> existsb masked a = false ->
  Np.clump_from i None (map (fun s => negb (masked s)) a)
  = [slice2 i (i + len a)].
Proof.
  intros Hne Hm.
  assert (E : map (fun s => negb (masked s)) a = repeat true (length a)).
  { clear Hne. induction a as [|s a IH]; [reflexivity|].
    cbn [existsb] in Hm. apply orb_false_iff in Hm as [Hs Ha].
    cbn [map length repeat]. now rewrite Hs, IH. }
  rewrite E. destruct a as [|s a]; [congruence|].
  cbn [length repeat Np.clump_from]. rewrite clump_from_true_run.
  unfold len. cbn [length]. do 2 f_equal. lia.
Qed.

(** On an array that is not empty the runs are the maximal runs of valid
    samples, whether or not a sample is masked. *)
Lemma clump_unmasked_nonempty (a : marray) :
  a <> [] ->
  Np.clump_unmasked a = Np.clump_from 0 None (map (fun s => negb (masked s)) a).
Proof.
  intros Hne. unfold Np.clump_unmasked.
  destruct (existsb masked a) eqn:E; [reflexivity|].
  now rewrite (clump_from_all_true a 0 Hne E).
Qed.

Lemma clump_unmasked_nil : Np.clump_unmasked [] = [slice2 0 0].
Proof. reflexivity. Qed.

(** The runs cover the valid samples, on every array. *)
Lemma covers_clump_unmasked (a : marray) (j : Z) :
  covers (Np.clump_unmasked a) j
  = (0 <=? j) && nth (Z.to_nat j) (map (fun s => negb (masked s)) a) false.
Proof.
  destruct a as [|s a].
  - cbn [Np.clump_unmasked existsb covers in_slice slice2 start stop map len
         length Z.of_nat orb].
    destruct (Z.to_nat j); cbn [nth]; zbool.
  - rewrite clump_unmasked_nonempty by discriminate.
    rewrite covers_clump_from by discriminate.
    cbn [orb]. now rewrite Z.sub_0_r.
Qed.

Lemma map_zseq_nonempty {A} (g : Z -> A) (i : Z) (n : nat) :
  (0 < n)%nat -> map g (zseq i n) <> [].
Proof. destruct n; [lia|discriminate]. Qed.

(** ** Shifting *)

Lemma shift_fold_acc (offset : Z) (l acc : list slice) :
  fold_left
    (fun newlist each_slice =>
       match shift_slice each_slice offset with
       | Some new_slice => newlist ++ [new_slice]
       | None => newlist
       end) l acc
  = acc ++ fold_left
      (fun newlist each_slice =>
         match shift_slice each_slice offset with
         | Some new_slice => newlist ++ [new_slice]
         | None => newlist
         end) l [].
Proof.
  revert acc. induction l as [|s l IH]; intros acc; simpl.
  - now rewrite app_nil_r.
  - rewrite IH. symmetry. rewrite IH.
    destruct (shift_slice s offset); simpl; [now rewrite <- app_assoc|reflexivity].
Qed.

Lemma shift_slices_cons (s : slice) (l : list slice) (offset : Z) :
  shift_slices (s :: l) offset
  = match shift_slice s offset with
    | Some x => x :: shift_slices l offset
    | None => shift_slices l offset
    end.
Proof.
  unfold shift_slices. destruct (offset =? 0) eqn:E.
  - unfold shift_slice. now rewrite E.
  - cbn [fold_left]. rewrite shift_fold_acc.
    destruct (shift_slice s offset); reflexivity.
Qed.

Lemma shift_slices_nil (offset : Z) : shift_slices [] offset = [].
Proof. unfold shift_slices. destruct (offset =? 0); reflexivity. Qed.

Lemma shift_slice2 (s t offset : Z) :
  s < t ->
  shift_slice (slice2 s t) offset = Some (slice2 (s + offset) (t + offset)).
Proof.
  intros H. unfold shift_slice. destruct (offset =? 0) eqn:E.
  - apply Z.eqb_eq in E. subst. now rewrite !Z.add_0_r.
  - cbn. replace (1 <=? t + offset - (s + offset)) with true
      by (symmetry; apply Z.leb_le; lia).
    reflexivity.
Qed.

(** Shifting the clumps is clumping from the shifted origin. *)
Lemma shift_clump_from (m : list bool) (i : Z) (open : option Z) (offset : Z) :
  (forall s, open = Some s -> s < i) ->
  shift_slices (Np.clump_from i open m) offset
  = Np.clump_from (i + offset) (option_map (fun s => s + offset) open) m.
Proof.
  revert i open. induction m as [|b m IH]; intros i open Ho.
  - destruct open as [s|]; cbn [Np.clump_from option_map].
    + rewrite shift_slices_cons, shift_slice2, shift_slices_nil by auto.
      reflexivity.
    + apply shift_slices_nil.
  - destruct b; cbn [Np.clump_from].
    + rewrite IH.
      * replace (i + 1 + offset) with (i + offset + 1) by lia.
        destruct open; reflexivity.
      * intros s [= <-]. destruct open as [s'|]; [specialize (Ho s' eq_refl)|]; lia.
    + destruct open as [s|]; cbn [option_map].
      * rewrite shift_slices_cons, shift_slice2, IH by (auto; discriminate).
        replace (i + 1 + offset) with (i + offset + 1) by lia. reflexivity.
      * rewrite IH by discriminate.
        replace (i + 1 + offset) with (i + offset + 1) by lia. reflexivity.
Qed.

Lemma shift_clump_unmasked (sub : marray) (offset : Z) :
  sub <> [] ->
  shift_slices (Np.clump_unmasked sub) offset
  = Np.clump_from offset None (map (fun s => negb (masked s)) sub).
Proof.
  intros H. rewrite clump_unmasked_nonempty by exact H.
  now rewrite shift_clump_from by discriminate.
Qed.

(** Shifted, the runs cover the same positions as the clumps counted from
    the offset, also on an empty array, whose one empty run covers
    nothing. *)
Lemma covers_shift_clump_unmasked (sub : marray) (offset i : Z) :
  covers (shift_slices (Np.clump_unmasked sub) offset) i
  = covers (Np.clump_from offset None (map (fun s => negb (masked s)) sub)) i.
Proof.
  destruct sub as [|x sub].
  - rewrite clump_unmasked_nil, shift_slices_cons, shift_slices_nil.
    unfold shift_slice. cbn [map Np.clump_from covers existsb].
    destruct (offset =? 0).
    + cbn [covers existsb in_slice slice2 start stop]. zbool.
    + cbn [slice2 start stop step option_map].
      destruct (Z.leb_spec 1 (0 + offset - (0 + offset))); [lia|reflexivity].
  - now rewrite shift_clump_unmasked by discriminate.
Qed.

(** ** Complement and union on slices inside a range *)

Lemma map_const_zseq {A} (c : A) (n : nat) (i : Z) :
  map (fun _ => c) (zseq i n) = repeat c n.
Proof. revert i. induction n; intros i; simpl; [|rewrite IHn]; reflexivity. Qed.

Lemma covers_app (A B : list slice) (i : Z) :
  covers (A ++ B) i = covers A i || covers B i.
Proof. apply existsb_app. Qed.

Lemma covers_inside (A : list slice) (b e i : Z) :
  Forall (inside b e) A -> covers A i = true -> b <= i < e.
Proof.
  intros HA Hc. apply existsb_exists in Hc as (s & Hs & Hi).
  rewrite Forall_forall in HA.
  destruct (HA s Hs) as (x & y & Hx & Hy & H1 & H2 & H3 & _).
  unfold in_slice in Hi. rewrite Hx, Hy in Hi.
  apply andb_true_iff in Hi as [Ha Hb].
  apply Z.leb_le in Ha. apply Z.ltb_lt in Hb. lia.
Qed.

Lemma inside_weaken (b e b' e' : Z) (s : slice) :
  b' <= b -> e <= e' -> inside b e s -> inside b' e' s.
Proof.
  intros Hb He (x & y & Hx & Hy & H1 & H2 & H3 & Hk).
  exists x, y. repeat split; auto; lia.
Qed.

(** The complement clumps cover exactly the uncovered positions of the
    range. *)
Lemma covers_complement (A : list slice) (b : Z) (n : nat) (i : Z) :
  covers (Np.clump_from b None
            (map (fun j => negb (covers A j)) (zseq b n))) i
  = (b <=? i) && (i <? b + Z.of_nat n) && negb (covers A i).
Proof.
  rewrite covers_clump_from by discriminate. cbn [orb].
  destruct (Z.leb_spec b i) as [Hle|Hgt]; [|reflexivity].
  destruct (Z.ltb_spec i (b + Z.of_nat n)) as [Hlt|Hge]; cbn [andb].
  - rewrite (nth_indep _ false (negb (covers A 0)))
      by (rewrite length_map, zseq_length; lia).
    rewrite (map_nth (fun j => negb (covers A j))), zseq_nth by lia.
    do 2 f_equal. lia.
  - apply nth_overflow. rewrite length_map, zseq_length. lia.
Qed.

Lemma complement_inside (A : list slice) (b : Z) (n : nat) :
  0 <= b ->
  Forall (inside 0 (b + Z.of_nat n))
    (Np.clump_from b None (map (fun j => negb (covers A j)) (zseq b n))).
Proof.
  intros Hb.
  eapply Forall_impl; [|apply (clump_from_bounds _ b None b); [lia|discriminate]].
  intros c (s & t & -> & H1 & H2 & H3).
  unfold len in H3. rewrite length_map, zseq_length in H3.
  exists s, t. cbn. repeat split; auto; lia.
Qed.

(** *** The bounds computed by [slices_not] *)

Lemma min_list_inside (lo hi : Z) (l : list (option Z)) (x : option Z) :
  Forall (fun o => exists v, o = Some v /\ lo <= v <= hi) (x :: l) ->
  exists v, Py.min_list x l = Some v /\ lo <= v <= hi.
Proof.
  revert x. induction l as [|y l IH]; intros x H.
  - inversion H; subst. assumption.
  - inversion H as [|? ? Hx Hl]; subst. inversion Hl as [|? ? Hy Hl']; subst.
    unfold Py.min_list. cbn [fold_left]. apply IH. constructor; auto.
    destruct Hx as (vx & -> & Hvx), Hy as (vy & -> & Hvy).
    unfold Py.min, Py.lt. destruct (vy <? vx); eauto.
Qed.

Lemma max_list_inside (lo hi : Z) (l : list (option Z)) (x : option Z) :
  Forall (fun o => exists v, o = Some v /\ lo <= v <= hi) (x :: l) ->
  exists v, Py.max_list x l = Some v /\ lo <= v <= hi.
Proof.
  revert x. induction l as [|y l IH]; intros x H.
  - inversion H; subst. assumption.
  - inversion H as [|? ? Hx Hl]; subst. inversion Hl as [|? ? Hy Hl']; subst.
    unfold Py.max_list. cbn [fold_left]. apply IH. constructor; auto.
    destruct Hx as (vx & -> & Hvx), Hy as (vy & -> & Hvy).
    unfold Py.max, Py.lt. destruct (vx <? vy); eauto.
Qed.

Lemma max_list_unit_steps (l : list (option Z)) (x : option Z) :
  Forall (fun o => o = None \/ o = Some 1) (x :: l) ->
  Py.gt (Py.max_list x l) (Some 1) = false.
Proof.
  revert x. induction l as [|y l IH]; intros x H.
  - inversion H as [|? ? Hx _]; subst. destruct Hx as [-> | ->]; reflexivity.
  - inversion H as [|? ? Hx Hl]; subst. inversion Hl as [|? ? Hy Hl']; subst.
    unfold Py.max_list. cbn [fold_left]. apply IH. constructor; auto.
    destruct Hx as [-> | ->], Hy as [-> | ->]; cbn; auto.
Qed.

Lemma inside_starts (b e : Z) (A : list slice) :
  Forall (inside b e) A ->
  Forall (fun o => exists v, o = Some v /\ b <= v <= e) (map start A).
Proof.
  induction 1 as [|s A (x & y & Hx & Hy & H1 & H2 & H3 & _) _ IH]; simpl;
    constructor; auto.
  exists x. split; [assumption|lia].
Qed.

Lemma inside_stops (b e : Z) (A : list slice) :
  Forall (inside b e) A ->
  Forall (fun o => exists v, o = Some v /\ b <= v <= e) (map stop A).
Proof.
  induction 1 as [|s A (x & y & Hx & Hy & H1 & H2 & H3 & _) _ IH]; simpl;
    constructor; auto.
  exists y. split; [assumption|lia].
Qed.

Lemma inside_steps (b e : Z) (A : list slice) :
  Forall (inside b e) A ->
  Forall (fun o => o = None \/ o = Some 1) (map step A).
Proof.
  induction 1 as [|s A (x & y & _ & _ & _ & _ & _ & Hk) _ IH]; simpl;
    constructor; auto.
Qed.

Lemma paint_raster (A : list slice) (n : nat) :
  Forall (inside 0 (Z.of_nat n)) A ->
  exists w, paint (repeat (Sample 0 false) n) A = Ok w
            /\ Np.masked_equal w 1
               = map (fun i => cell (covers A i)) (zseq 0 n).
Proof.
  intros HA. pose proof (raster_covers A n HA) as H.
  destruct (paint (repeat (Sample 0 false) n) A) as [w|]; [|discriminate].
  exists w. split; [reflexivity|]. now injection H.
Qed.

(** [slices_not] on slices inside [[b, e)]: the clumps of the uncovered
    positions of the range. *)
Lemma slices_not_inside (A : list slice) (b e : Z) :
  0 <= b < e ->
  Forall (inside b e) A ->
  slices_not A (Some b) (Some e)
  = Ok (Np.clump_from b None
          (map (fun i => negb (covers A i)) (zseq b (Z.to_nat (e - b))))).
Proof.
  intros Hbe HA. destruct A as [|s0 rest].
  - cbn [slices_not covers existsb negb]. rewrite map_const_zseq.
    destruct (Z.to_nat (e - b)) as [|k] eqn:Ek; [lia|].
    cbn [repeat Np.clump_from]. rewrite clump_from_true_run.
    unfold slice2. do 4 f_equal. lia.
  - unfold slices_not.
    pose proof (inside_starts _ _ _ HA) as Hst. pose proof (inside_stops _ _ _ HA) as Hsp.
    pose proof (inside_steps _ _ _ HA) as Hsk. cbn [map] in Hst, Hsp, Hsk.
    destruct (min_list_inside _ _ _ _ Hst) as (va & -> & Hva).
    destruct (min_list_inside _ _ _ _ Hsp) as (vb & -> & Hvb).
    destruct (max_list_inside _ _ _ _ Hst) as (vc & -> & Hvc).
    destruct (max_list_inside _ _ _ _ Hsp) as (vd & -> & Hvd).
    rewrite (max_list_unit_steps _ _ Hsk).
    cbn [is_none negb andb].
    assert (Hsp' : match (if Py.lt (Some b) (Py.min (Some va) (Some vb))
                          then Some b else Py.min (Some va) (Some vb)) with
                   | Some v => v | None => 0 end = b).
    { unfold Py.min, Py.lt. destruct (vb <? va) eqn:E1.
      - destruct (Z.ltb_spec b vb); lia.
      - destruct (Z.ltb_spec b va); lia. }
    rewrite Hsp'.
    assert (Hep : (if Py.gt (Some e) (Py.max (Some vc) (Some vd))
                   then Some e else Py.max (Some vc) (Some vd)) = Some e).
    { unfold Py.gt, Py.max, Py.lt. destruct (vc <? vd) eqn:E1.
      - destruct (Z.ltb_spec vd e); f_equal; lia.
      - destruct (Z.ltb_spec vc e); f_equal; lia. }
    rewrite Hep, zeros_Some by lia. cbn [bind].
    destruct (paint_raster (s0 :: rest) (Z.to_nat e)) as (w & -> & Hw).
    { eapply Forall_impl; [|exact HA]. intros s. apply inside_weaken; lia. }
    cbn [bind]. rewrite Hw, getitem_slice_raster by lia. cbn [bind].
    f_equal. rewrite shift_clump_unmasked by (apply map_zseq_nonempty; lia).
    now rewrite map_map.
Qed.

(** *** The bounds computed by [slices_or] *)

Lemma or_bounds_list_stop (e : Z) (l : list slice) (a b0 : option Z) :
  Forall (inside 0 e) l ->
  (forall v, b0 = Some v -> v <= e) ->
  exists a' b', or_bounds_list a b0 l = (a', b')
    /\ (forall v, b' = Some v -> v <= e)
    /\ (b0 = Some e \/ (exists s, In s l /\ stop s = Some e) -> b' = Some e).
Proof.
  revert a b0. induction l as [|s l IH]; intros a b0 Hl Hb.
  - exists a, b0. repeat split; auto. intros [H|(s & [] & _)]; exact H.
  - inversion Hl as [|? ? (x & y & Hx & Hy & H1 & H2 & H3 & _) Hl']; subst.
    cbn [or_bounds_list]. rewrite Hy. cbn [is_none].
    set (a1 := if is_none a then _ else _).
    set (b1 := if is_none b0 then Some y else Py.max b0 (Some y)).
    assert (Hb1 : forall v, b1 = Some v -> v <= e).
    { subst b1. destruct b0 as [v0|]; cbn [is_none]; unfold Py.max, Py.lt;
        [|intros v Hv; injection Hv as Hv; lia].
      specialize (Hb v0 eq_refl).
      destruct (v0 <? y); intros v Hv; injection Hv as Hv; lia. }
    destruct (IH a1 b1 Hl' Hb1) as (a' & b' & E & Hle & Hhit).
    exists a', b'. repeat split; auto.
    intros Hor. apply Hhit.
    destruct Hor as [-> | (s' & [<- | Hin] & Hs')].
    + left. subst b1. cbn [is_none]. unfold Py.max, Py.lt.
      destruct (Z.ltb_spec e y); f_equal; lia.
    + left. rewrite Hy in Hs'. injection Hs' as ->. subst b1.
      destruct b0 as [v0|]; cbn [is_none]; unfold Py.max, Py.lt; [|reflexivity].
      specialize (Hb v0 eq_refl). destruct (Z.ltb_spec v0 e); f_equal; lia.
    + right. eauto.
Qed.

Lemma shift_slices_0 (l : list slice) : shift_slices l 0 = l.
Proof. reflexivity. Qed.

(** [slices_or] of two lists inside [[0, e)], one of which reaches [e]:
    the clumps of the covered positions. *)
Lemma slices_or_inside (A B : list slice) (e : Z) :
  0 < e ->
  Forall (inside 0 e) A -> Forall (inside 0 e) B ->
  (exists s, In s (A ++ B) /\ stop s = Some e) ->
  slices_or [Some A; Some B] no_kwargs
  = Ok (Some (Np.clump_from 0 None
                (map (covers (A ++ B)) (zseq 0 (Z.to_nat e))))).
Proof.
  intros He HA HB (s & Hin & Hs).
  unfold slices_or. cbn [or_bounds].
  destruct (or_bounds_list_stop e A None None HA) as (a1 & b1 & -> & Hle1 & Hhit1);
    [discriminate|].
  destruct (or_bounds_list_stop e B a1 b1 HB Hle1) as (a2 & b2 & -> & _ & Hhit2).
  assert (Hb2 : b2 = Some e).
  { apply Hhit2. apply in_app_or in Hin as [Hin|Hin].
    - left. apply Hhit1. right. eauto.
    - right. eauto. }
  subst b2. cbn [bind no_kwargs begin_at end_at Py.ge Py.gt Py.le Py.lt].
  replace (0 <? e) with true by (symmetry; apply Z.ltb_lt; lia).
  cbn [Z.leb Z.compare andb]. rewrite zeros_Some by lia. cbn [bind paint_lists].
  destruct (paint_raster (A ++ B) (Z.to_nat e)) as (w & Hp & Hw).
  { apply Forall_app. split; (eapply Forall_impl; [|eassumption]);
      intros ?; apply inside_weaken; lia. }
  rewrite paint_app in Hp.
  destruct (paint (repeat (Sample 0 false) (Z.to_nat e)) A) as [w1|];
    [|discriminate].
  cbn [bind] in Hp |- *. rewrite Hp. cbn [bind].
  rewrite Hw, getitem_slice_raster by lia. cbn [bind].
  rewrite shift_slices_0, Z.sub_0_r. unfold Np.clump_masked.
  rewrite map_map. reflexivity.
Qed.
(** *** The round trip *)

(** Inside the range, the slices of [A] and the slices of its complement
    together cover every position, and nothing before the range. *)
Lemma covers_with_complement (A : list slice) (b e : Z) :
  0 <= b < e ->
  Forall (inside b e) A ->
  map (covers (A ++ Np.clump_from b None
                      (map (fun i => negb (covers A i))
                           (zseq b (Z.to_nat (e - b))))))
      (zseq 0 (Z.to_nat e))
  = repeat false (Z.to_nat b) ++ repeat true (Z.to_nat (e - b)).
Proof.
  intros Hbe HA.
  replace (Z.to_nat e) with (Z.to_nat b + Z.to_nat (e - b))%nat by lia.
  rewrite zseq_app, map_app, Z2Nat.id, Z.add_0_l by lia. f_equal.
  - rewrite <- (map_const_zseq false (Z.to_nat b) 0). apply map_ext_in.
    intros i Hi. apply zseq_In in Hi.
    rewrite covers_app, covers_complement.
    destruct (covers A i) eqn:Ec.
    + apply (covers_inside _ _ _ _ HA) in Ec. lia.
    + destruct (Z.leb_spec b i); [lia|reflexivity].
  - rewrite <- (map_const_zseq true (Z.to_nat (e - b)) b). apply map_ext_in.
    intros i Hi. apply zseq_In in Hi.
    rewrite covers_app, covers_complement.
    destruct (covers A i); [reflexivity|].
    destruct (Z.leb_spec b i); [|lia].
    destruct (Z.ltb_spec i (b + Z.of_nat (Z.to_nat (e - b)))); [reflexivity|lia].
Qed.

(** The union of [A] and its complement is the whole range. *)
Lemma slices_or_with_complement (A : list slice) (b e : Z) :
  0 <= b < e ->
  Forall (inside b e) A ->
  slices_or [Some A;
             Some (Np.clump_from b None
                     (map (fun i => negb (covers A i))
                          (zseq b (Z.to_nat (e - b)))))] no_kwargs
  = Ok (Some [slice2 b e]).
Proof.
  intros Hbe HA.
  set (NA := Np.clump_from b None _).
  assert (HNA : Forall (inside 0 e) NA).
  { replace e with (b + Z.of_nat (Z.to_nat (e - b))) at 1 by lia.
    apply complement_inside. lia. }
  assert (HA0 : Forall (inside 0 e) A).
  { eapply Forall_impl; [|exact HA]. intros s. apply inside_weaken; lia. }
  rewrite (slices_or_inside A NA e); auto; try lia.
  - subst NA. rewrite covers_with_complement by auto.
    rewrite clump_from_false_prefix, Z.add_0_l, Z2Nat.id by lia.
    destruct (Z.to_nat (e - b)) as [|k] eqn:Ek; [lia|].
    cbn [repeat Np.clump_from]. rewrite clump_from_true_run.
    do 4 f_equal. lia.
  - assert (Hc : covers (A ++ NA) (e - 1) = true).
    { rewrite covers_app. subst NA. rewrite covers_complement.
      destruct (covers A (e - 1)); [reflexivity|].
      destruct (Z.leb_spec b (e - 1)); [|lia].
      destruct (Z.ltb_spec (e - 1) (b + Z.of_nat (Z.to_nat (e - b))));
        [reflexivity|lia]. }
    apply existsb_exists in Hc as (s & Hs & Hi). exists s. split; [exact Hs|].
    assert (Hin : inside 0 e s).
    { apply in_app_or in Hs as [Hs|Hs];
        [rewrite Forall_forall in HA0; auto|rewrite Forall_forall in HNA; auto]. }
    destruct Hin as (x & y & Hx & Hy & H1 & H2 & H3 & _).
    unfold in_slice in Hi. rewrite Hx, Hy in Hi.
    apply andb_true_iff in Hi as [_ Hi]. apply Z.ltb_lt in Hi.
    rewrite Hy. f_equal. lia.
Qed.

(** The complement of the whole range is empty. *)
Lemma slices_not_whole_range (b e : Z) :
  0 <= b < e ->
  slices_not [slice2 b e] (Some b) (Some e) = Ok [].
Proof.
  intros Hbe. rewrite slices_not_inside; auto.
  - f_equal.
    rewrite (map_ext_in _ (fun _ => false)), map_const_zseq.
    + apply clump_from_all_false.
    + intros i Hi. apply zseq_In in Hi. cbn.
      destruct (Z.leb_spec b i); [|lia]. destruct (Z.ltb_spec i e); [reflexivity|lia].
  - constructor; [|constructor]. exists b, e. cbn. repeat split; auto; lia.
Qed.

(** C1, as stated, fails: for [A = [slice(2,5)]] inside [[0,10)] the
    complement is [[slice(0,2), slice(5,10)]], the union of the two is
    [[slice(0,10)]], and its complement is the empty list, not [A]. *)
Lemma not_or_not_is_not_the_identity :
  slices_not [slice2 2 5] (Some 0) (Some 10) = Ok [slice2 0 2; slice2 5 10]
  /\ slices_or [Some [slice2 2 5]; Some [slice2 0 2; slice2 5 10]] no_kwargs
     = Ok (Some [slice2 0 10])
  /\ not_or_not [slice2 2 5] 0 10 = Ok []
  /\ not_or_not [slice2 2 5] 0 10 <> Ok [slice2 2 5].
Proof.
  repeat split; try (vm_compute; reflexivity).
  vm_compute. discriminate.
Qed.

(** C1, amended: for every interval list [A] whose intervals all lie
    inside [[b, e)] (with [0 <= b < e]),
    [slices_not(slices_or(A, slices_not(A, begin_at=b, end_at=e)),
    begin_at=b, end_at=e)] is the empty list: [A] and its complement
    together fill the range, whose complement is empty. The round trip
    therefore gives back [A] exactly when [A] is empty. *)
Theorem not_or_not_is_empty (A : list slice) (b e : Z) :
  0 <= b < e ->
  Forall (inside b e) A ->
  not_or_not A b e = Ok []
  /\ (not_or_not A b e = Ok A <-> A = []).
Proof.
  intros Hbe HA.
  assert (H : not_or_not A b e = Ok []).
  { unfold not_or_not. rewrite slices_not_inside by auto. cbn [bind].
    rewrite slices_or_with_complement by auto. cbn [bind].
    now apply slices_not_whole_range. }
  split; [exact H|]. rewrite H. split.
  - intros [= <-]. reflexivity.
  - intros ->. reflexivity.
Qed.

Lemma not_or_not_is_empty_witness :
  not_or_not [slice2 4 5; slice2 7 9; Slice (Some 8) (Some 10) (Some 1)] 3 10
  = Ok [].
Proof.
  apply (not_or_not_is_empty
           [slice2 4 5; slice2 7 9; Slice (Some 8) (Some 10) (Some 1)] 3 10).
  - lia.
  - repeat constructor.
    + exists 4, 5. cbn. repeat split; auto; lia.
    + exists 7, 9. cbn. repeat split; auto; lia.
    + exists 8, 10. cbn. repeat split; auto; lia.
Defined.

(** ** Airborne: the candidate runs and the phases they create *)

Lemma chain_weaken (lo lo' : Z) (l : list slice) :
  lo' <= lo -> chain lo l -> chain lo' l.
Proof.
  intros H. destruct l as [|c l]; [auto|].
  intros (s & t & -> & H1 & H2 & H3). exists s, t. repeat split; auto; lia.
Qed.

Lemma chain_In (l : list slice) (lo : Z) (c : slice) :
  chain lo l -> In c l -> exists s t, c = slice2 s t /\ lo <= s /\ s < t.
Proof.
  revert lo. induction l as [|c' l IH]; intros lo Hc Hin; [destruct Hin|].
  destruct Hc as (s & t & -> & H1 & H2 & H3). destruct Hin as [<- | Hin].
  - exists s, t. auto.
  - destruct (IH t H3 Hin) as (s' & t' & -> & H1' & H2').
    exists s', t'. repeat split; auto; lia.
Qed.

(** The clumps come in order and do not touch. *)
Lemma clump_from_chain (m : list bool) (i : Z) (open : option Z) (lo : Z) :
  lo <= i ->
  (forall s, open = Some s -> lo <= s < i) ->
  chain lo (Np.clump_from i open m).
Proof.
  revert i open lo. induction m as [|b m IH]; intros i open lo Hlo Ho.
  - destruct open as [s|]; cbn; [|exact I].
    exists s, i. specialize (Ho s eq_refl). repeat split; auto; lia.
  - destruct b; cbn [Np.clump_from].
    + apply IH; [lia|]. intros s [= <-].
      destruct open as [s'|]; [specialize (Ho s' eq_refl)|]; lia.
    + destruct open as [s|].
      * specialize (Ho s eq_refl). exists s, i. repeat split; try lia.
        apply IH; [lia|discriminate].
      * apply IH; [lia|discriminate].
Qed.

(** Merging small gaps keeps the order, and never raises on such a list. *)
Lemma merge_from_chain (gap_limit : Q) (rest : list slice) (cur : slice)
    (lo : Z) :
  chain lo (cur :: rest) ->
  exists g, merge_from gap_limit cur rest = Ok g /\ chain lo g.
Proof.
  revert cur lo. induction rest as [|c rest IH]; intros cur lo Hc.
  - exists [cur]. split; [reflexivity|exact Hc].
  - destruct Hc as (s & t & -> & H1 & H2 & (s' & t' & -> & H1' & H2' & H3)).
    cbn [merge_from slice2 start stop Py.sub bind].
    destruct (Qltb (inject_Z (s' - t)) gap_limit).
    + apply (IH (slice2 s t') lo).
      exists s, t'. repeat split; auto; lia.
    + destruct (IH (slice2 s' t') t) as (g & Hg & Hch).
      { exists s', t'. repeat split; auto; lia. }
      rewrite Hg. cbn [bind].
      exists (slice2 s t :: g). split; [reflexivity|].
      exists s, t. repeat split; auto.
Qed.

(** Every fast interval has its candidate runs, each a forward slice. On
    a window without data the one candidate is the empty run
    [slice(0, 0)]. *)
Lemma candidate_runs_total (alt_aal : parameter) (speedy : slice) :
  exists airs,
    candidate_runs alt_aal speedy = Ok airs
    /\ Forall (fun air => exists a b, air = slice2 a b /\ 0 <= a /\ a <= b) airs.
Proof.
  unfold candidate_runs, Np.getitem_slice, Np.positions, Np.slice_bounds.
  cbn [step start stop Z.eqb bind].
  set (band := Np.masked_less_equal _ 0).
  destruct band as [|x band'] eqn:Eb.
  - exists [slice2 0 0]. split; [reflexivity|].
    repeat constructor. exists 0, 0. repeat split; lia.
  - rewrite clump_unmasked_nonempty by discriminate.
    set (clumps := Np.clump_from 0 None _).
    assert (Hch : chain 0 clumps)
      by (apply clump_from_chain; [lia|discriminate]).
    destruct clumps as [|c rest].
    + exists []. split; [reflexivity|constructor].
    + rewrite slices_remove_small_gaps_cons.
      destruct (merge_from_chain (40 * frequency alt_aal) rest c 0 Hch)
        as (g & -> & Hcg).
      cbn [bind]. exists g. split; [reflexivity|].
      apply Forall_forall. intros air Hin.
      destruct (chain_In _ _ _ Hcg Hin) as (a & b & -> & Ha & Hab).
      exists a, b. repeat split; lia.
Qed.

Lemma shift_slice_open_start (b offset : Z) :
  shift_slice (Slice None (Some b) None) offset
  = Some (Slice None (Some (b + offset)) None).
Proof.
  unfold shift_slice. destruct (offset =? 0) eqn:E; [|reflexivity].
  apply Z.eqb_eq in E. subst. now rewrite Z.add_0_r.
Qed.

Lemma shift_slice_open_stop (a offset : Z) :
  shift_slice (Slice (Some a) None None) offset
  = Some (Slice (Some (a + offset)) None None).
Proof.
  unfold shift_slice. destruct (offset =? 0) eqn:E; [|reflexivity].
  apply Z.eqb_eq in E. subst. now rewrite Z.add_0_r.
Qed.

Lemma shift_slice_open_both (offset : Z) :
  shift_slice (Slice None None None) offset = Some (Slice None None None).
Proof. unfold shift_slice. destruct (offset =? 0); reflexivity. Qed.

Section AirborneRuns.

Variable AIRBORNE_THRESHOLD_TIME : Q.
Variable alt_aal : parameter.

Hypothesis sample_rate : ~ (hz alt_aal == 0)%Q.
Hypothesis threshold : (0 <= AIRBORNE_THRESHOLD_TIME)%Q.

(** The body of the loop over the runs creates what the rule says. *)
Lemma airborne_run_rule (start_point : Z) (self : list slice) (a b : Z) :
  a <= b ->
  airborne_run AIRBORNE_THRESHOLD_TIME alt_aal start_point self (slice2 a b)
  = Ok (self ++ airborne_rule AIRBORNE_THRESHOLD_TIME alt_aal start_point
                  (slice2 a b)).
Proof.
  intros Hab. unfold airborne_run, airborne_rule.
  cbn [slice2 start stop Py.add bind]. cbv zeta.
  destruct (Z.eqb_spec (a + start_point) 0) as [E0|E0];
    destruct (Z.leb_spec (len (array alt_aal)) (b + start_point)) as [E1|E1];
    cbn [orb].
  - now rewrite shift_slice_open_both.
  - now rewrite shift_slice_open_start.
  - now rewrite shift_slice_open_stop.
  - assert (Ehz : Qeq_bool (hz alt_aal) 0 = false).
    { apply not_true_is_false. intros E. apply Qeq_bool_iff in E.
      now apply sample_rate. }
    rewrite Ehz.
    destruct (Qltb AIRBORNE_THRESHOLD_TIME (inject_Z (b - a) / hz alt_aal))
      eqn:Et.
    + assert (Hlt : a < b).
      { destruct (Z.eq_dec a b) as [->|Hne]; [|lia]. exfalso.
        apply Qltb_lt in Et. rewrite Z.sub_diag in Et.
        assert (Ez : (inject_Z 0 / hz alt_aal == 0)%Q)
          by (unfold Qdiv; apply Qmult_0_l).
        rewrite Ez in Et. exact (Qlt_not_le _ _ Et threshold). }
      fold (slice2 a b). now rewrite shift_slice2 by exact Hlt.
    + now rewrite app_nil_r.
Qed.

Lemma airborne_runs_rule (start_point : Z) (airs self : list slice) :
  Forall (fun air => exists a b, air = slice2 a b /\ 0 <= a /\ a <= b) airs ->
  airborne_runs AIRBORNE_THRESHOLD_TIME alt_aal start_point self airs
  = Ok (self ++ flat_map (airborne_rule AIRBORNE_THRESHOLD_TIME alt_aal
                            start_point) airs).
Proof.
  revert self. induction airs as [|air airs IH]; intros self HF.
  - cbn. now rewrite app_nil_r.
  - inversion HF as [|? ? (a & b & -> & _ & Hab) HF']; subst.
    cbn [airborne_runs flat_map]. rewrite airborne_run_rule by exact Hab.
    cbn [bind]. rewrite IH by exact HF'. now rewrite app_assoc.
Qed.

Lemma airborne_loop_rule (speedy_slices self : list slice) :
  airborne_loop AIRBORNE_THRESHOLD_TIME alt_aal self speedy_slices
  = Ok (self ++ phases_by_rule AIRBORNE_THRESHOLD_TIME alt_aal speedy_slices).
Proof.
  revert self. induction speedy_slices as [|speedy rest IH]; intros self.
  - cbn. now rewrite app_nil_r.
  - cbn [airborne_loop phases_by_rule].
    destruct (is_none (start speedy) && is_none (stop speedy));
      [now rewrite app_nil_r|].
    destruct (candidate_runs_total alt_aal speedy) as (airs & -> & HF).
    cbn [bind]. rewrite airborne_runs_rule by exact HF.
    cbn [bind]. rewrite IH. now rewrite app_assoc.
Qed.

(** C2: [Airborne.derive] creates exactly the phases of the rule, for
    every candidate run of every fast interval (the intervals that
    [slices_remove_small_gaps] returns, read up to the first one open at
    both ends, where the loop stops): a run that touches the start or the
    end of the data gives a phase with the touching bound [None]
    whatever its duration; any other run gives the phase
    [[a + start_point, b + start_point)] if and only if [(b - a) / hz]
    exceeds [AIRBORNE_THRESHOLD_TIME], and nothing otherwise. The
    candidate runs of an interval always exist and are forward slices. *)
Theorem Airborne_derive_creates_phases (fast : section)
    (speedy_slices : list slice) :
  slices_remove_small_gaps (Some (get_slices fast)) 60 (sec_frequency fast)
  = Ok (Some speedy_slices) ->
  Airborne_derive AIRBORNE_THRESHOLD_TIME alt_aal fast
  = Ok (phases_by_rule AIRBORNE_THRESHOLD_TIME alt_aal speedy_slices)
  /\ forall speedy,
       exists airs,
         candidate_runs alt_aal speedy = Ok airs
         /\ Forall (fun air => exists a b, air = slice2 a b /\ 0 <= a /\ a <= b)
                   airs.
Proof.
  intros Hfast. split; [|apply candidate_runs_total].
  unfold Airborne_derive. rewrite Hfast. cbn [bind].
  now rewrite airborne_loop_rule.
Qed.

End AirborneRuns.

Lemma Airborne_derive_creates_phases_witness :
  let alt := MkParameter
               (map (fun v => Sample (inject_Z v) false)
                    [0; 0; 500; 1000; 500; 0; 0]) 1 in
  let fast := MkSection [slice2 0 7] 1 in
  Airborne_derive 2 alt fast = Ok (phases_by_rule 2 alt [slice2 0 7])
  /\ forall speedy,
       exists airs,
         candidate_runs alt speedy = Ok airs
         /\ Forall (fun air => exists a b, air = slice2 a b /\ 0 <= a /\ a <= b)
                   airs.
Proof.
  intros alt fast.
  assert (Hhz : ~ (hz alt == 0)%Q) by (intros H; discriminate H).
  assert (Hth : (0 <= 2)%Q) by discriminate.
  exact (Airborne_derive_creates_phases 2 alt Hhz Hth fast [slice2 0 7]
           eq_refl).
Defined.

(** On that input the one run of positive altitude, [[2, 5)], lasts three
    seconds and gives the phase [slice(2, 5)]; with a threshold of three
    seconds it gives none. *)
Lemma Airborne_derive_one_run :
  let alt := MkParameter
               (map (fun v => Sample (inject_Z v) false)
                    [0; 0; 500; 1000; 500; 0; 0]) 1 in
  let fast := MkSection [slice2 0 7] 1 in
  Airborne_derive 2 alt fast = Ok [slice2 2 5]
  /\ Airborne_derive 3 alt fast = Ok [].
Proof. split; vm_compute; reflexivity. Qed.

(** ** Mask repair *)

Lemma getitem_in_range {A} (arr : list A) (i : Z) :
  0 <= i < len arr -> exists x, Np.getitem arr i = Ok x.
Proof.
  intros H. unfold Np.getitem.
  destruct (Z.ltb_spec i 0); [lia|].
  destruct (Z.leb_spec 0 i); [|lia]. destruct (Z.ltb_spec i (len arr)); [|lia].
  cbn [andb]. destruct (nth_error arr (Z.to_nat i)) as [x|] eqn:E; [eauto|].
  apply nth_error_None in E. unfold len in H. lia.
Qed.

Lemma data_at_in_range (array : marray) (i : Z) :
  0 <= i < len array -> exists v, data_at array i = Ok v.
Proof.
  intros H. unfold data_at. destruct (getitem_in_range array i H) as (x & ->).
  cbn. eauto.
Qed.

Lemma len_fill_section (array : marray) (a b : Z) (f : Z -> Q) :
  len (fill_section array a b f) = len array.
Proof. apply len_mapi. Qed.

Lemma clump_from_no_bits (m : list bool) (i : Z) :
  Forall (fun b => b = false) m -> Np.clump_from i None m = [].
Proof.
  revert i. induction m as [|b m IH]; intros i H; [reflexivity|].
  inversion H; subst. cbn. auto.
Qed.

(** A fully valid array has no masked section. *)
Lemma clump_masked_valid (array : marray) :
  Forall (fun s => masked s = false) array -> Np.clump_masked array = [].
Proof.
  intros H. apply clump_from_no_bits. induction H; simpl; constructor; auto.
Qed.

(** A masked section covering the whole array leaves no valid sample. *)
Lemma whole_clump_no_count (array : marray) :
  In (slice2 0 (len array)) (Np.clump_masked array) -> Np.count array = 0.
Proof.
  intros Hin.
  assert (Hall : forall j, 0 <= j < len array ->
                           nth (Z.to_nat j) (map masked array) false = true).
  { intros j Hj.
    assert (Hc : covers (Np.clump_masked array) j = true).
    { apply existsb_exists. exists (slice2 0 (len array)). split; [exact Hin|].
      cbn. apply andb_true_iff. split; [apply Z.leb_le|apply Z.ltb_lt]; lia. }
    unfold Np.clump_masked in Hc. rewrite covers_clump_from in Hc by discriminate.
    cbn [orb] in Hc. apply andb_true_iff in Hc as [_ Hc].
    now rewrite Z.sub_0_r in Hc. }
  unfold Np.count, len in *. clear Hin.
  induction array as [|s array IH]; [reflexivity|].
  assert (Hs : masked s = true) by (apply (Hall 0); simpl length; lia).
  cbn [filter]. rewrite Hs. cbn [negb]. apply IH.
  intros j Hj. specialize (Hall (j + 1)).
  replace (Z.to_nat (j + 1)) with (S (Z.to_nat j)) in Hall by lia.
  apply Hall. simpl length. lia.
Qed.

Section RepairMaskProps.

Variable frequency : Q.
Variable repair_duration : option Q.
Variable extrapolate zero_if_masked : bool.
Variable repair_above : option Q.

(** With [raise_duration_exceedance] off, repairing a section that lies
    inside the array and does not span it returns an array of the same
    length. *)
Lemma repair_section_length (array : marray) (a b : Z) :
  0 <= a -> a < b -> b <= len array -> ~ (a = 0 /\ b = len array) ->
  exists out,
    repair_section frequency repair_duration false extrapolate zero_if_masked
      repair_above array (slice2 a b) = Ok out
    /\ len out = len array.
Proof.
  intros Ha Hab Hb Hnot. unfold repair_section.
  cbn [slice2 start stop Py.sub bind].
  destruct (too_long _ _ _); [eauto|].
  destruct (Z.eqb_spec a 0) as [E0|E0].
  { destruct extrapolate; [|eauto].
    destruct zero_if_masked; [eexists; split; [reflexivity|apply len_fill_section]|].
    destruct (data_at_in_range array b) as (v & ->); [lia|].
    cbn [bind]. eexists; split; [reflexivity|apply len_fill_section]. }
  destruct (Z.eqb_spec b (len array)) as [E1|E1].
  { destruct extrapolate; [|eauto].
    destruct zero_if_masked; [eexists; split; [reflexivity|apply len_fill_section]|].
    destruct (data_at_in_range array (a - 1)) as (v & ->); [lia|].
    cbn [bind]. eexists; split; [reflexivity|apply len_fill_section]. }
  destruct (data_at_in_range array (a - 1)) as (v1 & ->); [lia|].
  destruct (data_at_in_range array b) as (v2 & ->); [lia|].
  cbn [bind].
  destruct (match repair_above with
            | Some ra => Qltb ra v1 && Qltb ra v2
            | None => true
            end); [|eauto].
  eexists; split; [reflexivity|apply len_fill_section].
Qed.

Lemma repair_sections_length (sections : list slice) (array : marray) (n : Z) :
  len array = n ->
  Forall (fun c => exists a b, c = slice2 a b /\ 0 <= a /\ a < b /\ b <= n
                               /\ ~ (a = 0 /\ b = n)) sections ->
  exists out,
    repair_sections frequency repair_duration false extrapolate zero_if_masked
      repair_above array sections = Ok out
    /\ len out = n.
Proof.
  revert array. induction sections as [|c sections IH]; intros array Hn Hs.
  - exists array. split; [reflexivity|exact Hn].
  - inversion Hs as [|? ? (a & b & -> & H1 & H2 & H3 & H4) Hs']; subst.
    cbn [repair_sections].
    destruct (repair_section_length array a b) as (out & -> & Hlen); auto.
    cbn [bind]. apply IH; auto.
Qed.

End RepairMaskProps.

(** C5: for every masked series that is not entirely masked,
    [repair_mask] (called without [raise_duration_exceedance], its
    default, or on a series with no masked sample) returns an array of
    exactly the input's length; and if the input has no masked sample at
    all, the array returned is the input, value for value and mask bit for
    mask bit. *)
Theorem repair_mask_keeps_length (frequency : Q) (repair_duration : option Q)
    (raise_duration_exceedance extrapolate zero_if_masked : bool)
    (repair_above : option Q) (array : marray) (copy : bool) :
  0 < Np.count array ->
  raise_duration_exceedance = false
  \/ Forall (fun s => masked s = false) array ->
  exists out,
    repair_mask frequency repair_duration raise_duration_exceedance
      extrapolate zero_if_masked repair_above array copy = Ok out
    /\ len out = len array
    /\ (Forall (fun s => masked s = false) array -> out = array).
Proof.
  intros Hcount Hmode. unfold repair_mask.
  destruct (Z.eqb_spec (Np.count array) 0) as [E|_]; [lia|].
  destruct (Forall_Exists_dec (fun s => masked s = false)
              (fun s => bool_dec (masked s) false) array) as [Hvalid|Hsome].
  - rewrite clump_masked_valid by exact Hvalid. exists array. auto.
  - destruct Hmode as [-> | Hvalid].
    2:{ exfalso. apply Exists_exists in Hsome as (s & Hs & Hm).
        rewrite Forall_forall in Hvalid. auto. }
    destruct (repair_sections_length frequency repair_duration extrapolate
                zero_if_masked repair_above (Np.clump_masked array) array
                (len array) eq_refl) as (out & Hout & Hlen).
    + pose proof (clump_from_bounds (map masked array) 0 None 0) as Hb.
      rewrite Forall_forall in Hb |- *. intros c Hc.
      destruct (Hb ltac:(lia) ltac:(discriminate) c Hc)
        as (a & b & -> & H1 & H2 & H3).
      unfold len in H3. rewrite length_map in H3. fold (len array) in H3.
      exists a, b. repeat split; auto; try lia.
      intros [-> ->]. apply whole_clump_no_count in Hc. lia.
    + exists out. repeat split; auto.
      intros Hvalid. exfalso. apply Exists_exists in Hsome as (s & Hs & Hm).
      rewrite Forall_forall in Hvalid. auto.
Qed.

Lemma repair_mask_keeps_length_witness :
  exists out,
    repair_mask 1 (Some 100%Q) false false false None
      [Sample 1 false; Sample 0 true; Sample 0 true; Sample 4 false;
       Sample 7 true] false = Ok out
    /\ len out = 5
    /\ (Forall (fun s => masked s = false)
          [Sample 1 false; Sample 0 true; Sample 0 true; Sample 4 false;
           Sample 7 true] ->
        out = [Sample 1 false; Sample 0 true; Sample 0 true; Sample 4 false;
               Sample 7 true]).
Proof.
  apply (repair_mask_keeps_length 1 (Some 100%Q) false false false None
           [Sample 1 false; Sample 0 true; Sample 0 true; Sample 4 false;
            Sample 7 true] false).
  - vm_compute. reflexivity.
  - left. reflexivity.
Defined.

(** ** Threshold crossing *)

(** C6: on the array [[0, 1, ..., 9]], with threshold 4.5, [slice(0, None)]
    and the default ['exact'] endpoint, [index_at_value] returns exactly
    4.5: the crossing lies between the samples 4 and 5 and is placed by
    linear interpolation. *)
Theorem index_at_value_ramp_midpoint :
  index_at_value
    (map (fun v => Sample (inject_Z v) false) [0; 1; 2; 3; 4; 5; 6; 7; 8; 9])
    (9 # 2) (QSlice (Some 0%Q) None None) "exact"
  = Ok (Some (9 # 2)).
Proof. vm_compute. reflexivity. Qed.









(** The whole function on a plateau at the threshold: the first crossing
    found is between two equal samples, and the midpoint comes back. *)
Example index_at_value_plateau :
  index_at_value [Sample 2 false; Sample 2 false; Sample 9 false] 2
    (QSlice None None None) "exact" = Ok (Some (1 # 2)).
Proof. vm_compute. reflexivity. Qed.



(** ** First-order filters *)

Lemma lfilter_length (b0 b1 a1 : Q) (x : list Q) (z : Q) :
  length (lfilter b0 b1 a1 z x) = length x.
Proof. revert z. induction x; intros z; simpl; auto. Qed.

Lemma fold_mapi_length {A B} (f : B -> Z -> A -> A) (l : list B) (arr : list A) :
  length (fold_left (fun a iv => mapi (f iv) a) l arr) = length arr.
Proof.
  revert arr. induction l as [|x l IH]; intros arr; simpl; [reflexivity|].
  rewrite IH. unfold mapi. apply mapi_from_length.
Qed.

Lemma getitem_slice_inside {A} (d : A) (arr : list A) (s t : Z) :
  0 <= s -> s <= t -> t <= len arr ->
  exists xs, Np.getitem_slice d arr (slice2 s t) = Ok xs
             /\ length xs = Z.to_nat (t - s).
Proof.
  intros H1 H2 H3. unfold Np.getitem_slice, slice2.
  rewrite positions_inside by (auto; lia). cbn [bind].
  eexists. split; [reflexivity|]. now rewrite length_map, zseq_length.
Qed.

Lemma setitem_slice_values_inside (arr vals : marray) (s t : Z) :
  0 <= s -> s <= t -> t <= len arr -> length vals = Z.to_nat (t - s) ->
  exists out, setitem_slice_values arr (slice2 s t) vals = Ok out
              /\ len out = len arr.
Proof.
  intros H1 H2 H3 Hv. unfold setitem_slice_values, slice2.
  rewrite positions_inside by (auto; lia). cbn [bind].
  unfold len at 1 2. rewrite zseq_length, Hv, Z.eqb_refl.
  eexists. split; [reflexivity|]. unfold len.
  now rewrite (fold_mapi_length
                 (fun iv j x => if j =? fst iv then snd iv else x)).
Qed.

Section FilterTotal.

Variables b0 b1 a1 z_initial : Q.
Variable param : marray.

Lemma filter_good_parts_total (good_parts : list slice) (result : marray)
    (initial_value : option Q) :
  len result = len param ->
  Forall (fun c => exists s t, c = slice2 s t
                               /\ 0 <= s /\ s < t /\ t <= 0 + len param)
         good_parts ->
  exists out,
    filter_good_parts b0 b1 a1 z_initial param result initial_value good_parts
    = Ok out
    /\ len out = len param.
Proof.
  revert result initial_value.
  induction good_parts as [|c parts IH]; intros result initial_value Hlen Hp.
  - exists result. auto.
  - inversion Hp as [|? ? (s & t & -> & H1 & H2 & H3) Hp']; subst.
    cbn [filter_good_parts].
    assert (Hinit : exists init,
               match initial_value with
               | Some v => Ok v
               | None => i <- Py.add (start (slice2 s t)) (Some 0) ;;
                         x <- Np.getitem param i ;; Ok (value x)
               end = Ok init).
    { destruct initial_value as [v|]; [eauto|]. cbn [slice2 start Py.add bind].
      destruct (getitem_in_range param (s + 0)) as (x & ->); [lia|].
      cbn. eauto. }
    destruct Hinit as (init & ->). cbn [bind].
    destruct (getitem_slice_inside masked_default param s t) as (xs & -> & Hxs);
      try lia.
    cbn [bind].
    destruct (setitem_slice_values_inside result
                (map (fun y => Sample y false)
                     (lfilter b0 b1 a1 (z_initial * init) (map value xs))) s t)
      as (out & -> & Hout); try lia.
    { now rewrite !length_map, lfilter_length, length_map. }
    cbn [bind]. apply IH; [congruence|exact Hp'].
Qed.

End FilterTotal.

Lemma mask_bad_parts_total (bad_parts : list slice) (result : marray) :
  Forall (fun c => exists s t, c = slice2 s t) bad_parts ->
  exists out, mask_bad_parts result bad_parts = Ok out.
Proof.
  revert result. induction bad_parts as [|c parts IH]; intros result Hp.
  - exists result. reflexivity.
  - inversion Hp as [|? ? (s & t & ->) Hp']; subst. cbn [mask_bad_parts].
    unfold Np.positions at 1, Np.slice_bounds. cbn [slice2 step start stop Z.eqb bind].
    apply IH. exact Hp'.
Qed.

(** Once the filter coefficients exist the filter itself returns, but
    for one input: an empty [param] has the one good part [slice(0, 0)],
    and with no [initial_value] given the loop reads [param[0]]. *)
Lemma masked_first_order_filter_total (a1 b0 b1 : Q) (param : marray)
    (initial_value : option Q) :
  ~ (1 + a1 == 0)%Q ->
  match param, initial_value with
  | [], None =>
      masked_first_order_filter a1 b0 b1 param initial_value = Raise IndexError
  | _, _ =>
      exists out, masked_first_order_filter a1 b0 b1 param initial_value = Ok out
  end.
Proof.
  intros Ha.
  assert (E : Qeq_bool (1 + a1) 0 = false).
  { destruct (Qeq_bool (1 + a1) 0) eqn:E; [|reflexivity].
    apply Qeq_bool_iff in E. contradiction. }
  destruct param as [|x param'].
  - unfold masked_first_order_filter, lfilter_zi. rewrite E.
    destruct initial_value as [v|]; [eexists|]; reflexivity.
  - set (param := x :: param').
    assert (Hsome : exists out,
               masked_first_order_filter a1 b0 b1 param initial_value = Ok out).
    { unfold masked_first_order_filter, lfilter_zi. rewrite E.
      cbn [bind]. rewrite zeros_Some by (unfold len; lia). cbn [bind].
      rewrite clump_unmasked_nonempty by discriminate.
      destruct (filter_good_parts_total b0 b1 a1 ((b1 - a1 * b0) / (1 + a1))
                  param
                  (Np.clump_from 0 None (map (fun s => negb (masked s)) param))
                  (repeat (Sample 0 false) (Z.to_nat (len param)))
                  initial_value)
        as (out & -> & Hout).
      - unfold len. rewrite repeat_length. lia.
      - pose proof (clump_from_bounds
                      (map (fun s => negb (masked s)) param) 0 None 0) as Hb.
        unfold len in Hb. rewrite length_map in Hb.
        apply Hb; [lia|discriminate].
      - cbn [bind]. apply mask_bad_parts_total.
        eapply Forall_impl;
          [|apply (clump_from_bounds (map masked param) 0 None 0);
            [lia|discriminate]].
        intros c (s & t & -> & _). eauto. }
    destruct initial_value; exact Hsome.
Qed.

Lemma lag_coefficients (tc : Q) :
  (1 # 2 <= tc)%Q ->
  ~ (1 + 2 * tc == 0)%Q /\ ~ (1 + (1 - 2 * tc) / (1 + 2 * tc) == 0)%Q.
Proof.
  intros H.
  assert (Hd : (0 < 1 + 2 * tc)%Q) by lra.
  assert (Hn : ~ (1 + 2 * tc == 0)%Q) by lra.
  split; [exact Hn|]. intros E.
  assert (E2 : ((1 + (1 - 2 * tc) / (1 + 2 * tc)) * (1 + 2 * tc) == 2)%Q)
    by (field; exact Hn).
  rewrite E in E2. lra.
Qed.

(** C7: [first_order_lag] and [first_order_washout] raise the error
    ['Lag timeconstant too small'] exactly when [time_constant * hz] is
    below one half: below it they raise and return nothing; at or above it
    they return an array, so they do not raise for this reason. (One input
    has no array to return: on an empty [param] with no [initial_value]
    the filter loop reads [param[0]] and raises [IndexError], which is not
    the error of the guard.) *)
Theorem first_order_filters_guard (param : marray) (time_constant hz gain : Q)
    (initial_value : option Q) :
  ((time_constant * hz < 1 # 2)%Q ->
     first_order_lag param time_constant hz gain initial_value
     = Raise (ValueError "Lag timeconstant too small")
     /\ first_order_washout param time_constant hz gain initial_value
        = Raise (ValueError "Lag timeconstant too small"))
  /\ (~ (time_constant * hz < 1 # 2)%Q ->
      match param, initial_value with
      | [], None =>
          first_order_lag param time_constant hz gain initial_value
          = Raise IndexError
          /\ first_order_washout param time_constant hz gain initial_value
             = Raise IndexError
      | _, _ =>
          (exists out,
             first_order_lag param time_constant hz gain initial_value = Ok out)
          /\ (exists out,
                first_order_washout param time_constant hz gain initial_value
                = Ok out)
      end).
Proof.
  unfold first_order_lag, first_order_washout. split.
  - intros H. apply Qltb_lt in H. rewrite H. split; reflexivity.
  - intros H.
    assert (Hge : (1 # 2 <= time_constant * hz)%Q) by (apply Qnot_lt_le; exact H).
    pose proof Hge as Hb. apply Qltb_ge in Hb. rewrite Hb.
    destruct (lag_coefficients _ Hge) as [Hd Ha].
    unfold Qdiv_checked.
    destruct (Qeq_bool (1 + 2 * (time_constant * hz)) 0) eqn:E;
      [apply Qeq_bool_iff in E; contradiction|].
    cbn [bind].
    destruct param as [|x p]; [destruct initial_value as [v|]|]; split;
      first [ exact (masked_first_order_filter_total _ _ _ [] None Ha)
            | exact (masked_first_order_filter_total _ _ _ [] (Some v) Ha)
            | exact (masked_first_order_filter_total _ _ _ (x :: p)
                       initial_value Ha) ].
Qed.

Lemma first_order_filters_guard_witness :
  first_order_lag [Sample 1 false; Sample 1 false] (1 # 4) 1 1 None
  = Raise (ValueError "Lag timeconstant too small")
  /\ first_order_washout [Sample 1 false; Sample 1 false] (1 # 4) 1 1 None
     = Raise (ValueError "Lag timeconstant too small").
Proof.
  apply (proj1 (first_order_filters_guard
                  [Sample 1 false; Sample 1 false] (1 # 4) 1 1 None)).
  reflexivity.
Defined.

(** ** ILS beam scan *)

(** C3 on a concrete input: the localizer deviation is 10 dots at every
    sample of the scan window [[1, 13)] and 0 at the two samples next to
    it (indices 0 and 13). The backward search for the loss of the beam
    starts at index 13, one past the window, and the search for the
    capture ends at index 0, one before it; [scan_ils] finds a crossing of
    2.5 dots at each end and returns [slice(0.1, 12.75)] instead of
    [None]. *)
Theorem scan_ils_reads_outside_window :
  let ils_dots := map (fun v => Sample (inject_Z v) false)
                      [0; 10; 10; 10; 10; 10; 10; 10; 10; 10; 10; 10; 10; 0] in
  let height := repeat (Sample 0 false) 14 in
  let scan_slice := slice2 1 13 in
  (exists window,
     Np.getitem_slice masked_default ils_dots scan_slice = Ok window
     /\ Forall (fun s => masked s = false /\ (25 # 10 < Qabs (value s))%Q)
               window)
  /\ index_at_value (Np.abs ils_dots) (25 # 10)
       (QSlice (Some 13%Q) (Some 1%Q) (Some (-1))) "exact"
     = Ok (Some (1275 # 100))
  /\ exists capture lost,
       scan_ils "localizer" ils_dots height scan_slice 1 10
       = Ok (Some (QSlice (Some capture) (Some lost) None))
       /\ (capture == 1 # 10)%Q /\ (lost == 1275 # 100)%Q.
Proof.
  cbv zeta. split; [|split].
  - eexists. split; [vm_compute; reflexivity|].
    repeat constructor.
  - vm_compute. reflexivity.
  - eexists. eexists. split; [vm_compute; reflexivity|].
    split; reflexivity.
Qed.

(** *** A series that stays above the threshold *)

Lemma py_int_inject_Z (z : Z) : py_int (inject_Z z) = z.
Proof.
  unfold py_int. destruct (Qle_bool 0 (inject_Z z));
    [apply Qfloor_Z|apply Qceiling_Z].
Qed.

Lemma py_round_inject_Z (z : Z) : py_round (inject_Z z) = z.
Proof.
  unfold py_round. destruct (Qle_bool 0 (inject_Z z)).
  - unfold Qfloor, Qplus, inject_Z. cbn [Qnum Qden].
    change (Z.pos (1 * 2)) with 2.
    replace (z * 2 + 1 * 1) with (1 + z * 2) by lia.
    rewrite Z.div_add by lia. reflexivity.
  - unfold Qceiling, Qfloor, Qminus, Qplus, Qopp, inject_Z. cbn [Qnum Qden].
    change (Z.pos (1 * 2)) with 2.
    replace (- (z * 2 + - (1) * 1)) with (1 + (- z) * 2) by lia.
    rewrite Z.div_add by lia. cbn. lia.
Qed.

Lemma Q_or_else_inject_Z (z : Z) (d : Q) :
  z <> 0 -> Q_or_else (Some (inject_Z z)) d = inject_Z z.
Proof.
  intros H. unfold Q_or_else.
  destruct (Qeq_bool (inject_Z z) 0) eqn:E; [|reflexivity].
  apply Qeq_bool_iff in E. unfold Qeq in E. cbn in E. lia.
Qed.

(** Every element read through a slice is an element of the array or the
    default. *)
Lemma getitem_slice_elements {A} (P : A -> Prop) (d : A) (arr : list A)
    (s : slice) (xs : list A) :
  P d -> Forall P arr -> Np.getitem_slice d arr s = Ok xs -> Forall P xs.
Proof.
  intros Hd Harr. unfold Np.getitem_slice.
  destruct (Np.positions (len arr) s) as [idx|]; [|discriminate].
  cbn [bind]. intros [= <-]. apply Forall_forall. intros x Hx.
  apply in_map_iff in Hx as (i & <- & _).
  destruct (nth_in_or_default (Z.to_nat i) arr d) as [Hin | ->]; [|exact Hd].
  rewrite Forall_forall in Harr. auto.
Qed.

Lemma getitem_slice_length {A} (d : A) (arr : list A) (s : slice)
    (a b k : Z) :
  Np.slice_bounds (len arr) s = Ok (a, b, k) ->
  exists xs, Np.getitem_slice d arr s = Ok xs
             /\ len xs = Np.range_len a b k.
Proof.
  intros H. unfold Np.getitem_slice, Np.positions. rewrite H. cbn [bind].
  eexists. split; [reflexivity|]. unfold len, Np.range.
  rewrite !length_map, length_seq.
  assert (0 <= Np.range_len a b k).
  { unfold Np.range_len.
    destruct (0 <? k) eqn:Ek; [apply Z.ltb_lt in Ek|apply Z.ltb_ge in Ek].
    - destruct (a <? b) eqn:E; [apply Z.ltb_lt in E|lia].
      assert (0 <= (b - a - 1) / k) by (apply Z.div_pos; lia). lia.
    - destruct (b <? a) eqn:E; [apply Z.ltb_lt in E|lia].
      destruct (Z.eq_dec k 0) as [->|Hk]; [cbn; rewrite Z.div_0_r; lia|].
      assert (0 <= (a - b - 1) / - k) by (apply Z.div_pos; lia). lia. }
  lia.
Qed.

Lemma count_all_masked (a : marray) :
  Forall (fun s => masked s = true) a -> Np.count a = 0.
Proof.
  unfold Np.count, len. induction 1 as [|s a Hs _ IH]; [reflexivity|].
  cbn [filter]. rewrite Hs. exact IH.
Qed.

Lemma count_all_valid (a : marray) :
  Forall (fun s => masked s = false) a -> Np.count a = len a.
Proof.
  unfold Np.count, len. induction 1 as [|s a Hs _ IH]; [reflexivity|].
  cbn [filter length]. rewrite Hs. cbn [negb length]. lia.
Qed.

Lemma zip_with_Forall {A B C} (f : A -> B -> C) (P : A -> Prop) (Q : B -> Prop)
    (R : C -> Prop) (x : list A) (y : list B) :
  (forall a b, P a -> Q b -> R (f a b)) ->
  Forall P x -> Forall Q y -> Forall R (Np.zip_with f x y).
Proof.
  intros Hf Hx. revert y. induction Hx as [|a x Ha _ IH]; intros y Hy.
  - constructor.
  - destruct Hy as [|b y Hb Hy]; cbn; constructor; auto.
Qed.

Lemma zip_with_length {A B C} (f : A -> B -> C) (x : list A) (y : list B) :
  length x = length y -> length (Np.zip_with f x y) = length x.
Proof.
  revert y. induction x as [|a x IH]; intros [|b y] H; cbn in *;
    auto; try discriminate.
Qed.

Section NoCrossing.

Variable threshold : Q.

(** A sample that cannot take part in a crossing: masked, or above the
    threshold. *)
Let above (s : sample) : Prop := masked s = true \/ (threshold < value s)%Q.

(** Backward scan from [b] down to [a] over samples that are all above the
    threshold: no crossing, so the ['exact'] search gives [None]. *)
Lemma index_at_value_backward_no_crossing (array : marray) (a b : Z) :
  Forall above array ->
  0 <= a -> a + 1 <= b -> b <= len array ->
  index_at_value array threshold
    (QSlice (Some (inject_Z b)) (Some (inject_Z a)) (Some (-1))) "exact"
  = Ok None.
Proof.
  intros Harr Ha Hab Hb. unfold index_at_value.
  cbn [qstep qstart qstop Py.or_else Z.eqb Pos.eqb bind].
  rewrite Q_or_else_inject_Z, py_round_inject_Z by lia.
  assert (Hend : py_int (Q_or_else (Some (inject_Z a)) 0) = a).
  { destruct (Z.eq_dec a 0) as [->|Hne]; [reflexivity|].
    now rewrite Q_or_else_inject_Z, py_int_inject_Z. }
  rewrite Hend. rewrite (Z.max_l a 0) by lia.
  set (beg := Z.min b (len array - 1)).
  assert (Hbeg : a <= beg < len array) by (unfold beg; lia).
  destruct (Z.eqb_spec beg a) as [E|E]; [reflexivity|].
  destruct (Z.ltb_spec (Z.abs (beg - a)) 2) as [E2|E2]; [reflexivity|].
  assert (Hadj : forall x, 0 <= x < len array ->
                           Np.adjust (len array) true x = x).
  { intros x Hx. unfold Np.adjust.
    destruct (Z.ltb_spec x 0); [lia|].
    destruct (Z.leb_spec (len array) x); [lia|reflexivity]. }
  destruct (getitem_slice_length masked_default array
              (Slice (Some beg) (Some a) (Some (-1))) beg a (-1))
    as (l & El & Hl).
  { unfold Np.slice_bounds. cbn [step start stop Z.eqb Z.ltb Z.compare].
    now rewrite !Hadj by lia. }
  destruct (getitem_slice_length masked_default array
              (Slice (Some (beg - 1)) (if 0 <? a then Some (a - 1) else None)
                     (Some (-1))) (beg - 1) (a - 1) (-1))
    as (r & Er & Hr).
  { unfold Np.slice_bounds. cbn [step start stop Z.eqb Z.ltb Z.compare].
    rewrite Hadj by lia.
    destruct (Z.ltb_spec 0 a); [rewrite Hadj by lia; reflexivity|].
    replace a with 0 by lia. reflexivity. }
  rewrite El, Er. cbn [bind].
  assert (Hlen : len l = len r).
  { rewrite Hl, Hr. unfold Np.range_len. cbn [Z.ltb Z.compare Z.opp].
    destruct (Z.ltb_spec a beg); [|lia].
    destruct (Z.ltb_spec (a - 1) (beg - 1)); [|lia].
    rewrite !Z.div_1_r. lia. }
  assert (Hlpos : 0 < len l).
  { rewrite Hl. unfold Np.range_len. cbn [Z.ltb Z.compare Z.opp].
    destruct (Z.ltb_spec a beg); [|lia]. rewrite Z.div_1_r. lia. }
  assert (Hla : Forall above l).
  { eapply getitem_slice_elements; [|exact Harr|exact El]. left. reflexivity. }
  assert (Hra : Forall above r).
  { eapply getitem_slice_elements; [|exact Harr|exact Er]. left. reflexivity. }
  unfold Np.multiply, Np.broadcast.
  unfold Np.sub_scalar at 1 2. unfold len at 1 2. rewrite !length_map.
  fold (len l) (len r). rewrite Hlen, Z.eqb_refl. cbn [bind].
  set (test := Np.masked_greater _ 0).
  assert (Htest : Forall (fun s => masked s = true) test).
  { unfold test, Np.masked_greater. apply Forall_map.
    apply (zip_with_Forall _
             (fun s => masked s = true \/ (0 < value s)%Q)
             (fun s => masked s = true \/ (0 < value s)%Q)).
    - intros x y [Hx|Hx] [Hy|Hy]; cbn [masked value]; rewrite ?Hx, ?Hy;
        rewrite ?orb_true_r; try reflexivity.
      apply orb_true_iff. right. apply Qltb_lt. now apply Qmult_lt_0_compat.
    - unfold Np.sub_scalar. apply Forall_map.
      eapply Forall_impl; [|exact Hla]. intros s [H|H]; cbn; [now left|right].
      lra.
    - unfold Np.sub_scalar. apply Forall_map.
      eapply Forall_impl; [|exact Hra]. intros s [H|H]; cbn; [now left|right].
      lra. }
  assert (Htl : len test = len l).
  { unfold test, Np.masked_greater, Np.sub_scalar, len.
    rewrite length_map, zip_with_length; rewrite !length_map; auto.
    unfold len in Hlen. lia. }
  rewrite Htl. destruct (Z.eqb_spec (len l) 0) as [E0|_]; [lia|].
  assert (Hne : opt_Qeq (Some (inject_Z a)) (Some (inject_Z b)) = false).
  { cbn. apply not_true_is_false. intros H. apply Qeq_bool_iff in H.
    unfold Qeq in H. cbn in H. lia. }
  rewrite Hne. cbn [andb].
  rewrite (count_all_masked _ Htest). reflexivity.
Qed.

End NoCrossing.

Lemma map_nth_zseq_app {A} (d : A) (arr pre : list A) :
  map (fun i => nth (Z.to_nat i) (pre ++ arr) d)
      (zseq (Z.of_nat (length pre)) (length arr))
  = arr.
Proof.
  revert pre. induction arr as [|x arr IH]; intros pre; [reflexivity|].
  cbn [length zseq map]. f_equal.
  - rewrite Nat2Z.id, app_nth2, Nat.sub_diag by lia. reflexivity.
  - specialize (IH (pre ++ [x])).
    rewrite <- app_assoc, length_app in IH. cbn [length app] in IH.
    replace (Z.of_nat (length pre + 1)) with (Z.of_nat (length pre) + 1) in IH
      by lia.
    exact IH.
Qed.

Lemma map_nth_zseq {A} (d : A) (arr : list A) :
  map (fun i => nth (Z.to_nat i) arr d) (zseq 0 (length arr)) = arr.
Proof. exact (map_nth_zseq_app d arr []). Qed.

Lemma flatnotmasked_edges_valid (a : marray) :
  Forall (fun s => masked s = false) a ->
  Np.flatnotmasked_edges a = Some (0, len a - 1).
Proof.
  intros H. unfold Np.flatnotmasked_edges.
  assert (E : existsb masked a = false).
  { induction H as [|s a Hs _ IH]; [reflexivity|]. simpl. rewrite Hs, IH. reflexivity. }
  now rewrite E.
Qed.

Lemma clump_unmasked_valid (a : marray) :
  Forall (fun s => masked s = false) a -> a <> [] ->
  Np.clump_unmasked a = [slice2 0 (len a)].
Proof.
  intros H _. unfold Np.clump_unmasked.
  assert (E : existsb masked a = false).
  { induction H as [|s a Hs _ IH]; [reflexivity|].
    simpl. rewrite Hs, IH. reflexivity. }
  now rewrite E.
Qed.

(** On a fully valid array the last valid sample is the last sample. *)
Lemma last_valid_sample_valid (P : Q -> Prop) (arr : marray) :
  Forall (fun s => masked s = false /\ P (value s)) arr -> arr <> [] ->
  exists i v, last_valid_sample arr None = Ok (Some i, Some v) /\ P v.
Proof.
  intros H Hne. unfold last_valid_sample. cbn [is_none negb andb].
  assert (Hlen : 0 < len arr).
  { unfold len. destruct arr; [contradiction|]. cbn [length]. lia. }
  assert (Hhead : Np.getitem_slice masked_default arr
                    (Slice None (Some (len arr + 1)) None) = Ok arr).
  { unfold Np.getitem_slice, Np.positions, Np.slice_bounds, Np.adjust.
    cbn [step start stop Z.eqb Z.ltb Z.compare bind].
    destruct (Z.ltb_spec (len arr + 1) 0); [lia|].
    destruct (Z.leb_spec (len arr) (len arr + 1)); [|lia].
    rewrite range_forward, Z.sub_0_r. unfold len. rewrite Nat2Z.id.
    now rewrite map_nth_zseq. }
  rewrite Hhead. cbn [bind].
  rewrite clump_unmasked_valid;
    [|eapply Forall_impl; [|exact H]; intros s [Hs _]; exact Hs|exact Hne].
  cbn [rev app slice2 stop Py.sub bind].
  destruct (getitem_in_range arr (len arr - 1)) as (s & Es); [lia|].
  rewrite Es. cbn [bind]. exists (len arr - 1), (value s).
  split; [reflexivity|].
  unfold Np.getitem in Es.
  destruct (Z.ltb_spec (len arr - 1) 0); [lia|].
  destruct ((0 <=? len arr - 1) && (len arr - 1 <? len arr)); [|discriminate].
  destruct (nth_error arr (Z.to_nat (len arr - 1))) as [x|] eqn:En;
    [|discriminate].
  injection Es as ->. apply nth_error_In in En.
  rewrite Forall_forall in H. now apply H.
Qed.

Lemma getitem_slice_inside_Forall {A} (P : A -> Prop) (d : A) (arr : list A)
    (s t : Z) :
  0 <= s -> s <= t -> t <= len arr -> Forall P arr ->
  exists xs, Np.getitem_slice d arr (slice2 s t) = Ok xs
             /\ length xs = Z.to_nat (t - s)
             /\ Forall P xs.
Proof.
  intros H1 H2 H3 HP. unfold Np.getitem_slice, slice2.
  rewrite positions_inside by (auto; lia). cbn [bind].
  eexists. split; [reflexivity|]. split; [now rewrite length_map, zseq_length|].
  apply Forall_map, Forall_forall. intros i Hi. apply zseq_In in Hi.
  rewrite Forall_forall in HP. apply HP, nth_In. unfold len in H3. lia.
Qed.

Lemma repair_mask_valid (frequency : Q) (repair_duration : option Q)
    (r e z : bool) (repair_above : option Q) (array : marray) (copy : bool) :
  Forall (fun s => masked s = false) array -> array <> [] ->
  repair_mask frequency repair_duration r e z repair_above array copy
  = Ok array.
Proof.
  intros H Hne. unfold repair_mask.
  rewrite (count_all_valid _ H), (clump_masked_valid _ H).
  destruct (Z.eqb_spec (len array) 0) as [E|_]; [|reflexivity].
  destruct array; [contradiction|]. unfold len in E. cbn [length] in E. lia.
Qed.

(** The reading that the off-by-one does not touch: when the whole
    deviation series is valid and stays above 2.5 dots (so do the samples
    next to the window), a window of at least two samples is never
    established and [scan_ils] returns [None]. *)
Lemma scan_ils_series_above_25 (beam : string) (ils_dots height : marray)
    (a b : Z) (frequency duration : Q) :
  beam = "localizer"%string \/ beam = "glideslope"%string ->
  Forall (fun s => masked s = false /\ (25 # 10 < Qabs (value s))%Q) ils_dots ->
  0 <= a -> a + 2 <= b -> b <= len ils_dots ->
  scan_ils beam ils_dots height (slice2 a b) frequency duration = Ok None.
Proof.
  intros Hbeam Hdots Ha Hab Hb. unfold scan_ils.
  assert (Hb' : negb (String.eqb beam "localizer" || String.eqb beam "glideslope")
                = false).
  { destruct Hbeam as [-> | ->]; reflexivity. }
  rewrite Hb'.
  assert (Hvalid : Forall (fun s => masked s = false) ils_dots).
  { eapply Forall_impl; [|exact Hdots]. now intros s [Hs _]. }
  destruct (getitem_slice_inside_Forall (fun s => masked s = false)
              masked_default ils_dots a b) as (window & Ew & Hw & Hwv);
    auto; try lia.
  rewrite Ew. cbn [bind].
  destruct (Qltb (inject_Z (Np.count window)) (duration * frequency));
    [reflexivity|].
  rewrite (flatnotmasked_edges_valid _ Hwv).
  cbn [Py.add slice2 start bind].
  assert (Hlw : len window = b - a) by (unfold len; lia).
  rewrite Hlw.
  destruct (getitem_slice_inside_Forall (fun s => masked s = false)
              masked_default ils_dots (0 + a) (b - a - 1 + a))
    as (valid & Ev & Hv & Hvv); auto; try lia.
  rewrite Ev. cbn [bind].
  rewrite (count_all_valid _ Hvv).
  assert (Hlv : 0 < len valid) by (unfold len; lia).
  unfold Qdiv_checked.
  assert (Hnz : Qeq_bool (inject_Z (len valid)) 0 = false).
  { apply not_true_is_false. intros E. apply Qeq_bool_iff in E.
    unfold Qeq in E. cbn in E. lia. }
  rewrite Hnz. cbn [bind].
  assert (Hratio : Qltb (inject_Z (len valid) / inject_Z (len valid)) (4 # 10)
                   = false).
  { apply Qltb_ge.
    assert (Hone : (inject_Z (len valid) / inject_Z (len valid) == 1)%Q).
    { field. intros E. unfold Qeq in E. cbn in E. lia. }
    rewrite Hone. discriminate. }
  rewrite Hratio.
  assert (Habs : Forall (fun s => masked s = false /\ (25 # 10 < value s)%Q)
                        (Np.abs ils_dots)).
  { unfold Np.abs. apply Forall_map. eapply Forall_impl; [|exact Hdots].
    intros s [Hs Hv']. cbn. auto. }
  assert (Habsv : Forall (fun s => masked s = false) (Np.abs ils_dots)).
  { eapply Forall_impl; [|exact Habs]. now intros s [Hs _]. }
  assert (Hlen_abs : len (Np.abs ils_dots) = len ils_dots).
  { unfold Np.abs, len. now rewrite length_map. }
  rewrite repair_mask_valid; auto.
  2:{ intros E. rewrite E in Hlen_abs. unfold len in Hlen_abs, Hb.
      cbn [length] in Hlen_abs. lia. }
  cbn [bind].
  destruct (getitem_slice_inside_Forall
              (fun s => masked s = false /\ (25 # 10 < value s)%Q)
              masked_default (Np.abs ils_dots) a b)
    as (abs_window & Eaw & Haw & Hawv); auto; try lia.
  rewrite Eaw. cbn [bind].
  destruct (last_valid_sample_valid (fun v => (25 # 10 < v)%Q) abs_window Hawv)
    as (i & v & -> & Hv25).
  { intros E. rewrite E in Haw. cbn [length] in Haw. lia. }
  cbn [bind opt_Qlt].
  assert (Hge : Qltb v (25 # 10) = false) by (apply Qltb_ge; lra).
  rewrite Hge. cbn [option_map slice2 start stop].
  rewrite (index_at_value_backward_no_crossing (25 # 10) (Np.abs ils_dots) a b);
    auto; try lia.
  eapply Forall_impl; [|exact Habs]. intros s [_ Hs]. now right.
Qed.

(** ** Interval algebra: membership, filtering, intersection *)

Lemma is_index_within_slices_existsb (index : option Z) (slices : list slice) :
  is_index_within_slices index slices
  = existsb (is_index_within_slice index) slices.
Proof.
  induction slices as [|s l IH]; simpl; [reflexivity|].
  rewrite IH. now destruct (is_index_within_slice index s).
Qed.

(** X1. The two membership searches agree: [find_slices_containing_index]
    returns a non-empty list exactly when [is_index_within_slices] is
    [True], and what it returns are the slices of the input that hold
    the index. *)
Theorem find_slices_containing_index_agrees (index : option Z)
    (slices : list slice) :
  (is_index_within_slices index slices = true
   <-> find_slices_containing_index index slices <> [])
  /\ (forall s, In s (find_slices_containing_index index slices)
                <-> In s slices /\ is_index_within_slice index s = true).
Proof.
  split.
  - rewrite is_index_within_slices_existsb.
    unfold find_slices_containing_index. split.
    + intros H E. apply existsb_exists in H as (s & Hs & Hi).
      assert (Hin : In s (filter (is_index_within_slice index) slices))
        by (apply filter_In; auto).
      rewrite E in Hin. destruct Hin.
    + intros H.
      destruct (filter (is_index_within_slice index) slices) as [|s l] eqn:E;
        [congruence|].
      assert (Hin : In s (filter (is_index_within_slice index) slices))
        by (rewrite E; now left).
      apply filter_In in Hin. apply existsb_exists. exists s. exact Hin.
  - intros s. apply filter_In.
Qed.

Lemma bounded_width (s : slice) :
  bounded s -> exists w, width s = Some w
                         /\ Py.sub (stop s) (start s) = Ok w.
Proof.
  intros (a & b & Ha & Hb & _). unfold width. rewrite Ha, Hb.
  exists (b - a). auto.
Qed.

(** X2. On slices with both bounds given [filter_slices_duration] never
    raises, keeps exactly the slices at least [duration * frequency]
    samples wide, and filtering its result again changes nothing. *)
Theorem filter_slices_duration_keeps_long (slices : list slice)
    (duration frequency : Q) :
  Forall bounded slices ->
  exists kept,
    filter_slices_duration slices duration frequency = Ok kept
    /\ (forall s, In s kept
                  <-> In s slices
                      /\ exists w, width s = Some w
                                   /\ (duration * frequency <= inject_Z w)%Q)
    /\ filter_slices_duration kept duration frequency = Ok kept.
Proof.
  induction 1 as [|s l Hs _ (kept & E & Hin & Hidem)].
  - exists []. simpl. repeat split; tauto.
  - destruct (bounded_width s Hs) as (w & Hw & Hsub).
    cbn [filter_slices_duration]. rewrite Hsub, E. cbn [bind].
    destruct (Qle_bool (duration * frequency) (inject_Z w)) eqn:Ew.
    + exists (s :: kept). split; [reflexivity|]. split.
      * intros t. cbn [In]. rewrite Hin. split.
        -- intros [<- | [Ht Hwt]]; [|tauto].
           split; [now left|]. exists w. split; [exact Hw|].
           now apply Qle_bool_iff.
        -- intros [[<- | Ht] Hwt]; [now left|right; tauto].
      * cbn [filter_slices_duration]. rewrite Hsub, Hidem. cbn [bind].
        now rewrite Ew.
    + exists kept. split; [reflexivity|]. split; [|exact Hidem].
      intros t. cbn [In]. rewrite Hin. split; [tauto|].
      intros [[<- | Ht] Hwt]; [|tauto].
      destruct Hwt as (w' & Hw' & Hle). rewrite Hw in Hw'.
      injection Hw' as <-. apply Qle_bool_iff in Hle. congruence.
Qed.

Lemma filter_slices_duration_keeps_long_witness :
  Forall bounded [slice2 0 3; slice2 5 20]
  /\ exists kept,
       filter_slices_duration [slice2 0 3; slice2 5 20] 4 1 = Ok kept
       /\ (forall s, In s kept
                     <-> In s [slice2 0 3; slice2 5 20]
                         /\ exists w, width s = Some w
                                      /\ (4 * 1 <= inject_Z w)%Q)
       /\ filter_slices_duration kept 4 1 = Ok kept.
Proof.
  assert (H : Forall bounded [slice2 0 3; slice2 5 20]).
  { repeat constructor; eexists; eexists; cbn; eauto. }
  split; [exact H|].
  exact (filter_slices_duration_keeps_long [slice2 0 3; slice2 5 20] 4 1 H).
Defined.

(** X3. For two non-empty slices with both bounds given, [slices_overlap]
    is [True] exactly when some index lies in both. *)
Theorem slices_overlap_common_index (a b c d : Z) :
  a < b -> c < d ->
  (slices_overlap (slice2 a b) (slice2 c d) = Ok true
   <-> exists i, in_slice (slice2 a b) i = true
                 /\ in_slice (slice2 c d) i = true).
Proof.
  intros Hab Hcd. unfold slices_overlap, in_slice. cbn.
  rewrite !orb_false_r. split.
  - intros [= H]. apply andb_true_iff in H as [H1 H2].
    apply Z.ltb_lt in H1, H2. exists (Z.max a c).
    rewrite !andb_true_iff, !Z.leb_le, !Z.ltb_lt. lia.
  - intros (i & H1 & H2).
    rewrite !andb_true_iff, !Z.leb_le, !Z.ltb_lt in H1, H2.
    f_equal. apply andb_true_iff. rewrite !Z.ltb_lt. lia.
Qed.

Lemma slices_overlap_common_index_witness :
  slices_overlap (slice2 0 10) (slice2 5 15) = Ok true
  <-> exists i, in_slice (slice2 0 10) i = true
                /\ in_slice (slice2 5 15) i = true.
Proof. apply (slices_overlap_common_index 0 10 5 15); lia. Defined.

(** *** Intersection *)

Lemma covers_snoc (A : list slice) (s : slice) (i : Z) :
  covers (A ++ [s]) i = covers A i || in_slice s i.
Proof. rewrite covers_app. cbn. now rewrite orb_false_r. Qed.

Lemma fwd_bounded (s : slice) : bounded s -> fwd s = Ok s.
Proof.
  intros (a & b & _ & _ & [Hk | Hk]); unfold fwd; rewrite Hk; reflexivity.
Qed.

Lemma and_pair_bounded (result_list : list slice) (s t : slice) :
  bounded s -> bounded t ->
  exists r, and_pair result_list s t = Ok r
            /\ (Forall bounded result_list -> Forall bounded r)
            /\ forall i, covers r i
                         = covers result_list i || in_slice s i && in_slice t i.
Proof.
  intros Hs Ht. unfold and_pair. rewrite (fwd_bounded s Hs), (fwd_bounded t Ht).
  cbn [bind].
  destruct Hs as (a & b & Ha & Hb & Hk), Ht as (c & d & Hc & Hd & Hk').
  unfold slices_overlap, step_below_one, in_slice.
  assert (E : (match step s with Some k => k <? 1 | None => false end
               || match step t with Some k => k <? 1 | None => false end)
              = false).
  { destruct Hk as [-> | ->], Hk' as [-> | ->]; reflexivity. }
  rewrite E, Ha, Hb, Hc, Hd. cbn [bind Py.lt is_none orb].
  rewrite !orb_false_r.
  destruct ((a <? d) && (c <? b)) eqn:Eo.
  - eexists. split; [reflexivity|]. split.
    + intros HF. apply Forall_app. split; [exact HF|].
      constructor; [|constructor].
      unfold Py.max, Py.min, Py.lt.
      destruct (a <? c), (d <? b); eexists; eexists; cbn; eauto.
    + intros i. rewrite covers_snoc. f_equal.
      unfold in_slice, Py.max, Py.min, Py.lt.
      destruct (Z.ltb_spec a c), (Z.ltb_spec d b);
        cbn [start stop]; zbool; lia.
  - exists result_list. split; [reflexivity|]. split; [auto|].
    intros i. apply andb_false_iff in Eo.
    assert (Hno : (a <=? i) && (i <? b) && ((c <=? i) && (i <? d)) = false).
    { destruct Eo as [Eo | Eo]; apply Z.ltb_ge in Eo; zbool; lia. }
    rewrite Hno. now rewrite orb_false_r.
Qed.

Lemma and_inner_bounded (second_list : list slice) (result_list : list slice)
    (s : slice) :
  bounded s -> Forall bounded second_list ->
  exists r, and_inner result_list s second_list = Ok r
            /\ (Forall bounded result_list -> Forall bounded r)
            /\ forall i, covers r i
                         = covers result_list i
                           || in_slice s i && covers second_list i.
Proof.
  intros Hs HB. revert result_list.
  induction HB as [|t l Ht _ IH]; intros result_list.
  - exists result_list. split; [reflexivity|]. split; [auto|].
    intros i. cbn. now rewrite andb_false_r, orb_false_r.
  - destruct (and_pair_bounded result_list s t Hs Ht) as (r1 & E1 & F1 & C1).
    destruct (IH r1) as (r & E & F & C).
    exists r. cbn [and_inner]. rewrite E1. cbn [bind]. split; [exact E|].
    split; [auto|].
    intros i. rewrite C, C1. cbn [covers existsb].
    fold (covers l i). rewrite andb_orb_distrib_r. now rewrite orb_assoc.
Qed.

Lemma and_outer_bounded (first_list second_list result_list : list slice) :
  Forall bounded first_list -> Forall bounded second_list ->
  exists r, and_outer result_list first_list second_list = Ok r
            /\ (Forall bounded result_list -> Forall bounded r)
            /\ forall i, covers r i
                         = covers result_list i
                           || covers first_list i && covers second_list i.
Proof.
  intros HA HB. revert result_list.
  induction HA as [|s l Hs _ IH]; intros result_list.
  - exists result_list. split; [reflexivity|]. split; [auto|].
    intros i. cbn. now rewrite orb_false_r.
  - destruct (and_inner_bounded second_list result_list s Hs HB)
      as (r1 & E1 & F1 & C1).
    destruct (IH r1) as (r & E & F & C).
    exists r. cbn [and_outer]. rewrite E1. cbn [bind]. split; [exact E|].
    split; [auto|].
    intros i. rewrite C, C1. cbn [covers existsb].
    fold (covers l i). rewrite andb_orb_distrib_l. now rewrite orb_assoc.
Qed.

(** The intersection of two lists of bounded slices. *)
Lemma slices_and_bounded (first_list second_list : list slice) :
  Forall bounded first_list -> Forall bounded second_list ->
  exists r, slices_and first_list second_list = Ok r
            /\ Forall bounded r
            /\ forall i, covers r i
                         = covers first_list i && covers second_list i.
Proof.
  intros HA HB.
  destruct (and_outer_bounded first_list second_list [] HA HB)
    as (r & E & F & C).
  exists r. split; [exact E|]. split; [apply F; constructor|].
  intros i. now rewrite C.
Qed.

(** X4. [slices_and] of two lists of slices with both bounds given (and no
    step, or step 1) never raises, and an index lies in one of the slices
    returned exactly when it lies in a slice of each list. *)
Theorem slices_and_covers (first_list second_list : list slice) :
  Forall bounded first_list -> Forall bounded second_list ->
  exists r, slices_and first_list second_list = Ok r
            /\ forall i, covers r i
                         = covers first_list i && covers second_list i.
Proof.
  intros HA HB.
  destruct (slices_and_bounded first_list second_list HA HB) as (r & E & _ & C).
  eauto.
Qed.

Lemma slices_and_covers_witness :
  Forall bounded [slice2 0 10] /\ Forall bounded [slice2 5 15]
  /\ exists r, slices_and [slice2 0 10] [slice2 5 15] = Ok r
               /\ forall i, covers r i
                            = covers [slice2 0 10] i && covers [slice2 5 15] i.
Proof.
  assert (H1 : Forall bounded [slice2 0 10])
    by (repeat constructor; eexists; eexists; cbn; eauto).
  assert (H2 : Forall bounded [slice2 5 15])
    by (repeat constructor; eexists; eexists; cbn; eauto).
  split; [exact H1|]. split; [exact H2|].
  exact (slices_and_covers [slice2 0 10] [slice2 5 15] H1 H2).
Defined.

(** *** Complement, and difference *)

Lemma min_list_bound (lo hi : Z) (l : list (option Z)) (x : option Z) :
  Forall (fun o => exists v, o = Some v /\ lo <= v <= hi) (x :: l) ->
  exists v, Py.min_list x l = Some v /\ lo <= v <= hi
            /\ Forall (fun o => exists w, o = Some w /\ v <= w) (x :: l).
Proof.
  revert x. induction l as [|y l IH]; intros x H.
  - inversion H as [|? ? (v & -> & Hv) _]; subst. exists v.
    repeat split; try lia. constructor; [|constructor]. exists v. split; [auto|lia].
  - inversion H as [|? ? (vx & -> & Hvx) Hl]; subst.
    inversion Hl as [|? ? (vy & -> & Hvy) Hl']; subst.
    unfold Py.min_list. cbn [fold_left].
    assert (Hm : exists m, Py.min (Some vx) (Some vy) = Some m
                           /\ lo <= m <= hi /\ m <= vx /\ m <= vy).
    { unfold Py.min, Py.lt. destruct (Z.ltb_spec vy vx); eexists;
        (split; [reflexivity|lia]). }
    destruct Hm as (m & -> & Hm & Hmx & Hmy).
    destruct (IH (Some m)) as (v & E & Hv & HF).
    { constructor; [exists m; auto|exact Hl']. }
    exists v. split; [exact E|]. split; [exact Hv|].
    inversion HF as [|? ? (w & Ew & Hw) HF']; subst.
    injection Ew as <-.
    constructor; [exists vx; split; [auto|lia]|].
    constructor; [exists vy; split; [auto|lia]|exact HF'].
Qed.

Lemma max_list_bound (lo hi : Z) (l : list (option Z)) (x : option Z) :
  Forall (fun o => exists v, o = Some v /\ lo <= v <= hi) (x :: l) ->
  exists v, Py.max_list x l = Some v /\ lo <= v <= hi
            /\ Forall (fun o => exists w, o = Some w /\ w <= v) (x :: l).
Proof.
  revert x. induction l as [|y l IH]; intros x H.
  - inversion H as [|? ? (v & -> & Hv) _]; subst. exists v.
    repeat split; try lia. constructor; [|constructor]. exists v. split; [auto|lia].
  - inversion H as [|? ? (vx & -> & Hvx) Hl]; subst.
    inversion Hl as [|? ? (vy & -> & Hvy) Hl']; subst.
    unfold Py.max_list. cbn [fold_left].
    assert (Hm : exists m, Py.max (Some vx) (Some vy) = Some m
                           /\ lo <= m <= hi /\ vx <= m /\ vy <= m).
    { unfold Py.max, Py.lt. destruct (Z.ltb_spec vx vy); eexists;
        (split; [reflexivity|lia]). }
    destruct Hm as (m & -> & Hm & Hmx & Hmy).
    destruct (IH (Some m)) as (v & E & Hv & HF).
    { constructor; [exists m; auto|exact Hl']. }
    exists v. split; [exact E|]. split; [exact Hv|].
    inversion HF as [|? ? (w & Ew & Hw) HF']; subst.
    injection Ew as <-.
    constructor; [exists vx; split; [auto|lia]|].
    constructor; [exists vy; split; [auto|lia]|exact HF'].
Qed.

Lemma clump_from_bounded (m : list bool) (i : Z) :
  Forall bounded (Np.clump_from i None m).
Proof.
  eapply Forall_impl; [|apply (clump_from_bounds m i None i); [lia|discriminate]].
  intros c (s & t & -> & _). exists s, t. cbn. auto.
Qed.

Lemma clump_unmasked_bounded (a : marray) : Forall bounded (Np.clump_unmasked a).
Proof.
  destruct a as [|x a].
  - rewrite clump_unmasked_nil. repeat constructor. exists 0, 0. cbn. auto.
  - rewrite clump_unmasked_nonempty by discriminate. apply clump_from_bounded.
Qed.

Lemma shift_clump_unmasked_bounded (sub : marray) (offset : Z) :
  Forall bounded (shift_slices (Np.clump_unmasked sub) offset).
Proof.
  destruct sub as [|x sub].
  - rewrite clump_unmasked_nil, shift_slices_cons, shift_slices_nil.
    unfold shift_slice. destruct (offset =? 0).
    + repeat constructor. exists 0, 0. cbn. auto.
    + cbn [slice2 start stop step option_map].
      destruct (1 <=? 0 + offset - (0 + offset)); repeat constructor.
      eexists. eexists. cbn. auto.
  - rewrite shift_clump_unmasked by discriminate. apply clump_from_bounded.
Qed.

(** [slices_not] of a non-empty list of forward slices at non-negative
    positions: the range complemented runs from the least of [begin_at]
    and the starts to the greatest of [end_at] and the stops. *)
Lemma slices_not_covers (A : list slice) (M : Z) (begin_at end_at : option Z) :
  A <> [] -> Forall (inside 0 M) A ->
  (forall b, begin_at = Some b -> 0 <= b) ->
  exists r lo hi,
    slices_not A begin_at end_at = Ok r
    /\ Forall bounded r
    /\ (forall b, begin_at = Some b -> lo <= b)
    /\ (forall e, end_at = Some e -> e <= hi)
    /\ (forall i, covers A i = true -> lo <= i < hi)
    /\ forall i, covers r i = (lo <=? i) && (i <? hi) && negb (covers A i).
Proof.
  intros Hne HA Hb. destruct A as [|s0 rest]; [congruence|]. clear Hne.
  unfold slices_not.
  pose proof (inside_starts _ _ _ HA) as Hst.
  pose proof (inside_stops _ _ _ HA) as Hsp.
  pose proof (inside_steps _ _ _ HA) as Hsk. cbn [map] in Hst, Hsp, Hsk.
  destruct (min_list_bound _ _ _ _ Hst) as (va & -> & Hva & Fva).
  destruct (min_list_bound _ _ _ _ Hsp) as (vb & -> & Hvb & Fvb).
  destruct (max_list_bound _ _ _ _ Hst) as (vc & -> & Hvc & Fvc).
  destruct (max_list_bound _ _ _ _ Hsp) as (vd & -> & Hvd & Fvd).
  rewrite (max_list_unit_steps _ _ Hsk). cbn [is_none negb andb].
  (* the first slice runs forward, which orders the four bounds *)
  inversion HA as [|? ? (x0 & y0 & Hx0 & Hy0 & H0x & Hxy & HyM & _) HA']; subst.
  inversion Fva as [|? ? (w1 & E1 & L1) _]; subst.
  inversion Fvd as [|? ? (w2 & E2 & L2) _]; subst.
  rewrite Hx0 in E1. injection E1 as <-.
  rewrite Hy0 in E2. injection E2 as <-.
  set (lo := match begin_at with
             | Some b => Z.min b (Z.min va vb)
             | None => Z.min va vb
             end).
  set (hi := match end_at with
             | Some e => Z.max e (Z.max vc vd)
             | None => Z.max vc vd
             end).
  assert (Hlo : match (if negb (is_none begin_at)
                          && Py.lt begin_at (Py.min (Some va) (Some vb))
                       then begin_at else Py.min (Some va) (Some vb)) with
                | Some v => v | None => 0 end = lo).
  { unfold lo, Py.min, Py.lt. destruct begin_at as [b|]; cbn [is_none negb andb].
    - destruct (Z.ltb_spec vb va); destruct (Z.ltb_spec b vb);
        destruct (Z.ltb_spec b va); cbn; lia.
    - destruct (Z.ltb_spec vb va); lia. }
  assert (Hhi : (if negb (is_none end_at)
                    && Py.gt end_at (Py.max (Some vc) (Some vd))
                 then end_at else Py.max (Some vc) (Some vd)) = Some hi).
  { unfold hi, Py.gt, Py.max, Py.lt. destruct end_at as [e|]; cbn [is_none negb andb].
    - destruct (Z.ltb_spec vc vd); destruct (Z.ltb_spec vd e);
        destruct (Z.ltb_spec vc e); cbn; f_equal; lia.
    - destruct (Z.ltb_spec vc vd); f_equal; lia. }
  rewrite Hlo, Hhi.
  assert (Hlo0 : 0 <= lo).
  { unfold lo. destruct begin_at as [b|]; [specialize (Hb b eq_refl)|]; lia. }
  assert (Hlohi : lo <= hi).
  { unfold lo, hi. destruct begin_at, end_at; lia. }
  assert (Hin : Forall (inside lo hi) (s0 :: rest)).
  { apply Forall_forall. intros s Hs.
    rewrite Forall_forall in HA. destruct (HA s Hs) as (x & y & Hx & Hy & H1 & H2 & H3 & Hk).
    assert (Hxa : va <= x).
    { rewrite Forall_forall in Fva.
      destruct (Fva (start s)) as (w & Ew & Lw); [apply (in_map start _ s Hs)|].
      rewrite Hx in Ew. injection Ew as <-. exact Lw. }
    assert (Hyd : y <= vd).
    { rewrite Forall_forall in Fvd.
      destruct (Fvd (stop s)) as (w & Ew & Lw); [apply (in_map stop _ s Hs)|].
      rewrite Hy in Ew. injection Ew as <-. exact Lw. }
    assert (Hyb : vb <= y).
    { rewrite Forall_forall in Fvb.
      destruct (Fvb (stop s)) as (w & Ew & Lw); [apply (in_map stop _ s Hs)|].
      rewrite Hy in Ew. injection Ew as <-. exact Lw. }
    exists x, y. repeat split; auto; unfold lo, hi;
      destruct begin_at, end_at; lia. }
  rewrite zeros_Some by lia. cbn [bind].
  destruct (paint_raster (s0 :: rest) (Z.to_nat hi)) as (w & -> & Hw).
  { eapply Forall_impl; [|exact Hin]. intros s. apply inside_weaken; lia. }
  cbn [bind]. rewrite Hw, getitem_slice_raster by lia. cbn [bind].
  eexists. exists lo, hi. split; [reflexivity|].
  split; [apply shift_clump_unmasked_bounded|].
  split; [intros b ->; unfold lo; lia|].
  split; [intros e ->; unfold hi; lia|].
  split; [intros i Hi; apply (covers_inside _ _ _ _ Hin Hi)|].
  intros i. rewrite covers_shift_clump_unmasked, map_map.
  assert (Hmap : map (fun x : Z => negb (masked (cell (covers (s0 :: rest) x))))
                     (zseq lo (Z.to_nat (hi - lo)))
                 = map (fun j => negb (covers (s0 :: rest) j))
                       (zseq lo (Z.to_nat (hi - lo)))).
  { apply map_ext. intros j. unfold cell. now destruct (covers (s0 :: rest) j). }
  rewrite Hmap, covers_complement.
  replace (lo + Z.of_nat (Z.to_nat (hi - lo))) with hi by lia. reflexivity.
Qed.

(** X5. [slices_not] of forward slices lying inside [[b, e)], with
    [begin_at=b] and [end_at=e]: an index lies in one of the slices
    returned exactly when it lies in the range and in none of the slices
    given. *)
Theorem slices_not_covers_complement (A : list slice) (b e : Z) :
  0 <= b < e -> Forall (inside b e) A ->
  exists r, slices_not A (Some b) (Some e) = Ok r
            /\ forall i, covers r i
                         = (b <=? i) && (i <? e) && negb (covers A i).
Proof.
  intros Hbe HA. rewrite (slices_not_inside A b e Hbe HA).
  eexists. split; [reflexivity|]. intros i.
  rewrite covers_complement.
  replace (b + Z.of_nat (Z.to_nat (e - b))) with e by lia. reflexivity.
Qed.

Lemma slices_not_covers_complement_witness :
  0 <= 0 < 20 /\ Forall (inside 0 20) [slice2 5 10]
  /\ exists r, slices_not [slice2 5 10] (Some 0) (Some 20) = Ok r
               /\ forall i, covers r i
                            = (0 <=? i) && (i <? 20)
                              && negb (covers [slice2 5 10] i).
Proof.
  assert (H1 : 0 <= 0 < 20) by lia.
  assert (H2 : Forall (inside 0 20) [slice2 5 10]).
  { repeat constructor. exists 5, 10. cbn. repeat split; auto; lia. }
  split; [exact H1|]. split; [exact H2|].
  exact (slices_not_covers_complement [slice2 5 10] 0 20 H1 H2).
Defined.

Lemma inside_bounded (b e : Z) (s : slice) : inside b e s -> bounded s.
Proof. intros (x & y & Hx & Hy & _ & _ & _ & Hk). exists x, y. auto. Qed.

(** First but not second, for a non-empty first list. *)
Lemma and_not_covers (first second : list slice) (M : Z) (s0 : slice)
    (rest : list slice) :
  first = s0 :: rest ->
  Forall (inside 0 M) first -> Forall (inside 0 M) second ->
  exists r,
    (inverse <- slices_not second
                  (Py.min_list (start s0) (map start rest))
                  (Py.max_list (stop s0) (map stop rest)) ;;
     slices_and first inverse) = Ok r
    /\ forall i, covers r i = covers first i && negb (covers second i).
Proof.
  intros -> HA HB.
  pose proof (inside_starts _ _ _ HA) as Hst.
  pose proof (inside_stops _ _ _ HA) as Hsp. cbn [map] in Hst, Hsp.
  destruct (min_list_bound _ _ _ _ Hst) as (b & Eb & Hb & Fb).
  destruct (max_list_bound _ _ _ _ Hsp) as (e & Ee & He & Fe).
  rewrite Eb, Ee.
  assert (Hrange : forall i, covers (s0 :: rest) i = true -> b <= i < e).
  { intros i Hi. apply existsb_exists in Hi as (s & Hs & Hi).
    rewrite Forall_forall in HA.
    destruct (HA s Hs) as (x & y & Hx & Hy & _).
    unfold in_slice in Hi. rewrite Hx, Hy in Hi.
    apply andb_true_iff in Hi as [H1 H2].
    apply Z.leb_le in H1. apply Z.ltb_lt in H2.
    rewrite Forall_forall in Fb, Fe.
    destruct (Fb (start s)) as (w & Ew & Lw); [apply (in_map start _ s Hs)|].
    destruct (Fe (stop s)) as (w' & Ew' & Lw'); [apply (in_map stop _ s Hs)|].
    rewrite Hx in Ew. injection Ew as <-.
    rewrite Hy in Ew'. injection Ew' as <-. lia. }
  assert (HAb : Forall bounded (s0 :: rest)).
  { eapply Forall_impl; [|exact HA]. intros s. apply inside_bounded. }
  destruct second as [|t0 second'].
  - cbn [slices_not bind].
    destruct (slices_and_bounded (s0 :: rest) [Slice (Some b) (Some e) None] HAb)
      as (r & E & _ & C).
    { constructor; [|constructor]. exists b, e. cbn. auto. }
    exists r. split; [exact E|]. intros i. rewrite C.
    assert (Hc : covers [Slice (Some b) (Some e) None] i
                 = (b <=? i) && (i <? e)).
    { cbn. now rewrite orb_false_r. }
    rewrite Hc. change (covers [] i) with false. cbn [negb].
    rewrite andb_true_r.
    destruct (covers (s0 :: rest) i) eqn:Ei; [|reflexivity].
    specialize (Hrange i Ei). cbn [andb]. apply andb_true_iff.
    split; [apply Z.leb_le|apply Z.ltb_lt]; lia.
  - destruct (slices_not_covers (t0 :: second') M (Some b) (Some e))
      as (n & lo & hi & -> & Fn & Hlo & Hhi & _ & Cn); auto.
    { discriminate. }
    { intros ? [= <-]. lia. }
    cbn [bind].
    destruct (slices_and_bounded (s0 :: rest) n HAb Fn) as (r & E & _ & C).
    exists r. split; [exact E|]. intros i. rewrite C, Cn.
    destruct (covers (s0 :: rest) i) eqn:Ei; [|reflexivity].
    specialize (Hrange i Ei). specialize (Hlo b eq_refl).
    specialize (Hhi e eq_refl). cbn [andb].
    destruct (Z.leb_spec lo i); [|lia]. destruct (Z.ltb_spec i hi); [|lia].
    reflexivity.
Qed.

(** X6. [slices_and_not] of two lists of forward slices at non-negative
    positions, the first list not empty: an index lies in one of the
    slices returned exactly when it lies in a slice of the first list and
    in no slice of the second. An empty first list is a [ValueError]. *)
Theorem slices_and_not_covers (first second : list slice) (M : Z) :
  Forall (inside 0 M) first -> Forall (inside 0 M) second ->
  match first with
  | [] => exists msg, slices_and_not first second = Raise (ValueError msg)
  | _ => exists r,
           slices_and_not first second = Ok r
           /\ forall i, covers r i = covers first i && negb (covers second i)
  end.
Proof.
  intros HA HB. destruct first as [|s0 rest] eqn:E.
  - eexists. reflexivity.
  - unfold slices_and_not.
    apply (and_not_covers (s0 :: rest) second M s0 rest eq_refl HA HB).
Qed.

Lemma slices_and_not_covers_witness :
  Forall (inside 0 20) [slice2 2 12] /\ Forall (inside 0 20) [slice2 5 8]
  /\ exists r,
       slices_and_not [slice2 2 12] [slice2 5 8] = Ok r
       /\ forall i, covers r i
                    = covers [slice2 2 12] i && negb (covers [slice2 5 8] i).
Proof.
  assert (H1 : Forall (inside 0 20) [slice2 2 12]).
  { repeat constructor. exists 2, 12. cbn. repeat split; auto; lia. }
  assert (H2 : Forall (inside 0 20) [slice2 5 8]).
  { repeat constructor. exists 5, 8. cbn. repeat split; auto; lia. }
  split; [exact H1|]. split; [exact H2|].
  exact (slices_and_not_covers [slice2 2 12] [slice2 5 8] 20 H1 H2).
Defined.

(** *** Approach *)

Lemma approach_bounds_inside (M : Z) (rest : list slice) (b e : Z) :
  Forall (inside 0 M) rest ->
  approach_bounds (Some b) (Some e) rest
  = (Py.min_list (Some b) (map start rest),
     Py.max_list (Some e) (map stop rest)).
Proof.
  intros H. revert b e. induction H as [|s l (x & y & Hx & Hy & _) _ IH];
    intros b e; [reflexivity|].
  cbn [approach_bounds is_none map]. unfold Py.min_list, Py.max_list.
  cbn [fold_left]. rewrite Hx, Hy.
  assert (Hm : exists m, Py.min (Some b) (Some x) = Some m).
  { unfold Py.min, Py.lt. destruct (x <? b); eauto. }
  assert (Hn : exists n, Py.max (Some e) (Some y) = Some n).
  { unfold Py.max, Py.lt. destruct (e <? y); eauto. }
  destruct Hm as (m & ->), Hn as (n & ->). apply IH.
Qed.

(** X7. [Approach.derive] on forward sections at non-negative positions:
    an index lies in one of the phases handed to [create_phases] exactly
    when it lies in an Approach And Landing section and in no Landing
    section. *)
Theorem Approach_derive_covers (apps lands : list slice) (M : Z) :
  Forall (inside 0 M) apps -> Forall (inside 0 M) lands ->
  exists r, Approach_derive apps lands = Ok r
            /\ forall i, covers r i = covers apps i && negb (covers lands i).
Proof.
  intros HA HB. unfold Approach_derive. destruct apps as [|s0 rest].
  - cbn [approach_bounds]. destruct lands as [|t0 lands'].
    + cbn. eexists. split; [reflexivity|]. reflexivity.
    + destruct (slices_not_covers (t0 :: lands') M None None)
        as (n & lo & hi & -> & _); auto; try discriminate.
      cbn. eexists. split; [reflexivity|]. reflexivity.
  - inversion HA as [|? ? (x & y & Hx & Hy & Hrest) HA']; subst.
    cbn [approach_bounds is_none]. rewrite Hx, Hy.
    rewrite (approach_bounds_inside M rest x y HA').
    rewrite <- Hx, <- Hy.
    apply (and_not_covers (s0 :: rest) lands M s0 rest eq_refl HA HB).
Qed.

Lemma Approach_derive_covers_witness :
  Forall (inside 0 100) [slice2 10 60] /\ Forall (inside 0 100) [slice2 50 70]
  /\ exists r, Approach_derive [slice2 10 60] [slice2 50 70] = Ok r
               /\ forall i, covers r i
                            = covers [slice2 10 60] i
                              && negb (covers [slice2 50 70] i).
Proof.
  assert (H1 : Forall (inside 0 100) [slice2 10 60]).
  { repeat constructor. exists 10, 60. cbn. repeat split; auto; lia. }
  assert (H2 : Forall (inside 0 100) [slice2 50 70]).
  { repeat constructor. exists 50, 70. cbn. repeat split; auto; lia. }
  split; [exact H1|]. split; [exact H2|].
  exact (Approach_derive_covers [slice2 10 60] [slice2 50 70] 100 H1 H2).
Defined.

(** ** Interval algebra: truncation, midpoint, sample count *)

Lemma or_else_Some_0 (x : Z) : Py.or_else (Some x) 0 = x.
Proof. destruct x; reflexivity. Qed.

(** X8. [slices_after] and [slices_before] on forward slices with both
    bounds given never raise, and they split what the slices cover at
    [index]: an index lies in a slice of [slices_after] exactly when it
    is covered and at or after [index], in a slice of [slices_before]
    exactly when it is covered and before [index]. *)
Theorem slices_after_before_split (slices : list slice) (lo hi index : Z) :
  Forall (inside lo hi) slices ->
  exists after before,
    slices_after slices index = Ok after
    /\ slices_before slices index = Ok before
    /\ forall i, covers after i = covers slices i && (index <=? i)
                 /\ covers before i = covers slices i && (i <? index).
Proof.
  induction 1 as [|s l (x & y & Hx & Hy & _ & Hxy & _ & _) _
                    (after & before & Ea & Eb & IH)].
  - exists [], []. repeat split.
  - cbn [slices_after slices_before]. rewrite Hy, Hx, Ea, Eb.
    cbn [Py.gt Py.lt bind]. rewrite or_else_Some_0.
    destruct (Z.ltb_spec y x) as [|_]; [lia|].
    assert (Hs : forall i, in_slice s i = (x <=? i) && (i <? y)).
    { intros i. unfold in_slice. now rewrite Hx, Hy. }
    destruct (Z.ltb_spec y index) as [Hyi|Hyi];
      destruct (Z.ltb_spec index x) as [Hix|Hix];
      destruct (Z.ltb_spec x index) as [Hxi|Hxi];
      destruct (Z.ltb_spec index y) as [Hiy|Hiy]; try lia;
      eexists; eexists; (split; [reflexivity|]); (split; [reflexivity|]);
      intros i; destruct (IH i) as [IHa IHb];
      cbn [covers existsb]; fold (covers after i) (covers before i)
                              (covers l i);
      rewrite ?IHa, ?IHb, ?Hs; unfold in_slice; cbn [start stop];
      rewrite ?Hx, ?Hy;
      (split; destruct (covers l i); zbool; lia).
Qed.

Lemma slices_after_before_split_witness :
  Forall (inside 0 100) [slice2 0 10; slice2 20 30]
  /\ exists after before,
       slices_after [slice2 0 10; slice2 20 30] 5 = Ok after
       /\ slices_before [slice2 0 10; slice2 20 30] 5 = Ok before
       /\ forall i,
            covers after i
            = covers [slice2 0 10; slice2 20 30] i && (5 <=? i)
            /\ covers before i
               = covers [slice2 0 10; slice2 20 30] i && (i <? 5).
Proof.
  assert (H : Forall (inside 0 100) [slice2 0 10; slice2 20 30]).
  { repeat constructor; [exists 0, 10|exists 20, 30];
      cbn; repeat split; auto; lia. }
  split; [exact H|].
  exact (slices_after_before_split [slice2 0 10; slice2 20 30] 0 100 5 H).
Defined.

(** X9. [slice_midpoint] on integer bounds rounds the midpoint up: twice
    the value returned exceeds [start + stop] by 0 or 1 (an open start
    counting as 0). So the midpoint of [slice(4, 5)] is 5. *)
Theorem slice_midpoint_rounds_up (s : slice) (b : Z) :
  stop s = Some b ->
  exists m, slice_midpoint s = Ok m
            /\ 0 <= 2 * m - (Py.or_else (start s) 0 + b) <= 1.
Proof.
  intros Hb. unfold slice_midpoint. rewrite Hb. cbn [Py.sub bind].
  eexists. split; [reflexivity|].
  set (a := Py.or_else (start s) 0).
  pose proof (Z.div_mod (b - a) 2 ltac:(lia)) as Hd.
  pose proof (Z.mod_pos_bound (b - a) 2 ltac:(lia)) as Hm. lia.
Qed.

Lemma slice_midpoint_rounds_up_witness :
  exists m, slice_midpoint (slice2 4 5) = Ok m
            /\ 0 <= 2 * m - (Py.or_else (start (slice2 4 5)) 0 + 5) <= 1.
Proof. apply (slice_midpoint_rounds_up (slice2 4 5) 5). reflexivity. Defined.

Lemma div_minus_one (k : Z) : 0 < k -> (-1) / k = -1.
Proof.
  intros H. symmetry. apply (Z.div_unique (-1) k (-1) (k - 1)); lia.
Qed.

(** X10. For a forward slice inside the array, with a positive step (or
    none), [slice_samples] is the number of elements the slice selects;
    a zero step is a [ZeroDivisionError]. *)
Theorem slice_samples_counts_positions {A} (d : A) (arr : list A) (a b : Z)
    (k : option Z) :
  0 <= a <= b -> b <= len arr -> (forall v, k = Some v -> 0 < v) ->
  (exists xs, Np.getitem_slice d arr (Slice (Some a) (Some b) k) = Ok xs
              /\ slice_samples (Slice (Some a) (Some b) k) = Ok (len xs))
  /\ slice_samples (Slice (Some a) (Some b) (Some 0)) = Raise ZeroDivisionError.
Proof.
  intros Hab Hb Hk. split; [|reflexivity].
  set (kk := match k with None => 1 | Some v => v end).
  assert (Hkk : 0 < kk).
  { unfold kk. destruct k as [v|]; [apply Hk; reflexivity|lia]. }
  destruct (getitem_slice_length d arr (Slice (Some a) (Some b) k) a b kk)
    as (xs & E & Hl).
  { unfold Np.slice_bounds. cbn [step start stop]. fold kk.
    destruct (Z.eqb_spec kk 0); [lia|].
    destruct (Z.ltb_spec kk 0); [lia|].
    now rewrite !adjust_inside by lia. }
  exists xs. split; [exact E|].
  unfold slice_samples. cbn [step start stop]. fold kk.
  rewrite Hl, (Z.abs_eq kk), (Z.abs_eq (b - a)) by lia.
  destruct (Z.eqb_spec kk 0); [lia|]. f_equal.
  unfold Np.range_len. destruct (Z.ltb_spec 0 kk); [|lia].
  destruct (Z.ltb_spec a b); [reflexivity|].
  replace (b - a - 1) with (-1) by lia. rewrite div_minus_one by lia. lia.
Qed.

Lemma slice_samples_counts_positions_witness :
  (exists xs, Np.getitem_slice 0 [10; 11; 12; 13; 14; 15; 16]
                (Slice (Some 1) (Some 6) (Some 2)) = Ok xs
              /\ slice_samples (Slice (Some 1) (Some 6) (Some 2)) = Ok (len xs))
  /\ slice_samples (Slice (Some 1) (Some 6) (Some 0)) = Raise ZeroDivisionError.
Proof.
  apply (slice_samples_counts_positions 0 [10; 11; 12; 13; 14; 15; 16] 1 6
           (Some 2)).
  - lia.
  - vm_compute. discriminate.
  - intros v [= <-]. lia.
Defined.

(** ** Trimming *)

Lemma Q_or_else_Some_eq (v : Q) : (Q_or_else (Some v) 0 == v)%Q.
Proof.
  unfold Q_or_else. destruct (Qeq_bool v 0) eqn:E; [|reflexivity].
  apply Qeq_bool_iff in E. now rewrite E.
Qed.

(** X11. With a positive frequency [trim_slices] never raises, returns no
    more slices than it was given, and every slice it returns has both
    bounds given and is not empty (its start is below its stop). *)
Theorem trim_slices_positive (slices : list qslice)
    (seconds frequency hdf_duration : Q) :
  (0 < frequency)%Q ->
  exists r,
    trim_slices slices seconds frequency hdf_duration = Ok r
    /\ (length r <= length slices)%nat
    /\ Forall (fun t => exists a b, qstart t = Some a /\ qstop t = Some b
                                    /\ (a < b)%Q) r.
Proof.
  intros Hf.
  assert (Hnz : Qeq_bool frequency 0 = false).
  { apply not_true_is_false. intros E. apply Qeq_bool_iff in E.
    rewrite E in Hf. now apply (Qlt_irrefl 0). }
  induction slices as [|s l (r & E & Hlen & HF)].
  - exists []. repeat split; auto.
  - cbn [trim_slices]. unfold slice_duration. cbn [qstop qstart].
    unfold Qdiv_checked. rewrite Hnz, E. cbn [bind].
    set (a := (Q_or_else (qstart s) 0 + seconds * frequency)%Q).
    set (b := (Q_or_else (qstop s) hdf_duration - seconds * frequency)%Q).
    destruct (Qle_bool ((b - Q_or_else (Some a) 0) / frequency) 0) eqn:Ed.
    + exists r. split; [reflexivity|]. split; [cbn; lia|exact HF].
    + eexists. split; [reflexivity|]. split; [cbn; lia|].
      constructor; [|exact HF]. exists a, b. cbn. repeat split.
      assert (Hd : (0 < (b - Q_or_else (Some a) 0) / frequency)%Q).
      { apply Qnot_le_lt. intros Hle. apply Qle_bool_iff in Hle. congruence. }
      rewrite Q_or_else_Some_eq in Hd.
      assert (Hm : (0 < (b - a) / frequency * frequency)%Q)
        by (apply Qmult_lt_0_compat; assumption).
      rewrite Qmult_comm, Qmult_div_r in Hm
        by (intros E0; rewrite E0 in Hf; now apply (Qlt_irrefl 0)).
      lra.
Qed.

Lemma trim_slices_positive_witness :
  (0 < 2)%Q
  /\ exists r,
       trim_slices [QSlice (Some 0%Q) (Some 10%Q) None;
                    QSlice (Some 20%Q) (Some 23%Q) None] 1 2 100 = Ok r
       /\ (length r <= 2)%nat
       /\ Forall (fun t => exists a b, qstart t = Some a /\ qstop t = Some b
                                       /\ (a < b)%Q) r.
Proof.
  assert (H : (0 < 2)%Q) by reflexivity.
  split; [exact H|].
  exact (trim_slices_positive [QSlice (Some 0%Q) (Some 10%Q) None;
                               QSlice (Some 20%Q) (Some 23%Q) None] 1 2 100 H).
Defined.

(** ** Runs of ones *)

Lemma nth_map_nth_error {A} (f : A -> bool) (l : list A) (n : nat) :
  nth n (map f l) false
  = match nth_error l n with
    | Some x => f x
    | None => false
    end.
Proof.
  revert n. induction l as [|x l IH]; intros [|n]; cbn; auto.
Qed.

Lemma clump_from_apart (m : list bool) (i : Z) (open : option Z) (lo : Z) :
  lo <= i ->
  (forall s, open = Some s -> lo <= s < i) ->
  apart lo (Np.clump_from i open m).
Proof.
  revert i open lo. induction m as [|b m IH]; intros i open lo Hlo Ho.
  - destruct open as [s|]; cbn; [|exact I].
    exists s, i. specialize (Ho s eq_refl). repeat split; auto; lia.
  - destruct b; cbn [Np.clump_from].
    + apply IH; [lia|]. intros s [= <-].
      destruct open as [s'|]; [specialize (Ho s' eq_refl)|]; lia.
    + destruct open as [s|].
      * specialize (Ho s eq_refl). exists s, i. repeat split; try lia.
        apply IH; [lia|discriminate].
      * apply IH; [lia|discriminate].
Qed.

(** X12. [runs_of_ones]: on an array that is not empty the slices
    returned are non-empty, in ascending order and apart from each other;
    on an empty array the one slice returned is the empty [slice(0, 0)].
    On every array an index lies in one of the slices exactly when the
    sample there is not masked and equals 1. *)
Theorem runs_of_ones_covers (bits : marray) :
  match bits with
  | [] => runs_of_ones bits = [slice2 0 0]
  | _ :: _ => apart 0 (runs_of_ones bits)
  end
  /\ forall i, covers (runs_of_ones bits) i
               = (0 <=? i)
                 && match nth_error bits (Z.to_nat i) with
                    | Some s => negb (masked s) && Qeq_bool (value s) 1
                    | None => false
                    end.
Proof.
  unfold runs_of_ones. split.
  - destruct bits as [|s bits]; [reflexivity|].
    rewrite clump_unmasked_nonempty
      by (unfold Np.masked_not_equal; cbn [map]; discriminate).
    apply clump_from_apart; [lia|discriminate].
  - intros i. rewrite covers_clump_unmasked. f_equal.
    unfold Np.masked_not_equal. rewrite map_map, nth_map_nth_error.
    destruct (nth_error bits (Z.to_nat i)) as [s|]; [|reflexivity].
    cbn [masked value]. now rewrite negb_orb, negb_involutive.
Qed.

(** ** Union *)

(** X13. [slices_or] of two lists of forward slices inside [[0, e)], [e]
    being the greatest stop: an index lies in one of the slices returned
    exactly when it lies in a slice of either list. *)
Theorem slices_or_covers_union (A B : list slice) (e : Z) :
  0 < e ->
  Forall (inside 0 e) A -> Forall (inside 0 e) B ->
  (exists s, In s (A ++ B) /\ stop s = Some e) ->
  exists r, slices_or [Some A; Some B] no_kwargs = Ok (Some r)
            /\ forall i, covers r i = covers A i || covers B i.
Proof.
  intros He HA HB Hmax. rewrite (slices_or_inside A B e He HA HB Hmax).
  eexists. split; [reflexivity|]. intros i.
  rewrite covers_clump_from by discriminate. cbn [orb].
  rewrite Z.sub_0_r, <- covers_app.
  destruct (Z.leb_spec 0 i) as [H0|H0]; cbn [andb].
  - destruct (Z.ltb_spec i e) as [Hie|Hie].
    + rewrite (nth_indep _ false (covers (A ++ B) 0))
        by (rewrite length_map, zseq_length; lia).
      rewrite (map_nth (covers (A ++ B))), zseq_nth by lia.
      f_equal. lia.
    + rewrite nth_overflow by (rewrite length_map, zseq_length; lia).
      destruct (covers (A ++ B) i) eqn:Ec; [|reflexivity].
      assert (HAB : Forall (inside 0 e) (A ++ B)) by (apply Forall_app; auto).
      pose proof (covers_inside _ _ _ _ HAB Ec). lia.
  - destruct (covers (A ++ B) i) eqn:Ec; [|reflexivity].
    assert (HAB : Forall (inside 0 e) (A ++ B)) by (apply Forall_app; auto).
    pose proof (covers_inside _ _ _ _ HAB Ec). lia.
Qed.

Lemma slices_or_covers_union_witness :
  exists r, slices_or [Some [slice2 0 5]; Some [slice2 3 9]] no_kwargs
            = Ok (Some r)
            /\ forall i, covers r i
                         = covers [slice2 0 5] i || covers [slice2 3 9] i.
Proof.
  apply (slices_or_covers_union [slice2 0 5] [slice2 3 9] 9).
  - lia.
  - repeat constructor. exists 0, 5. cbn. repeat split; auto; lia.
  - repeat constructor. exists 3, 9. cbn. repeat split; auto; lia.
  - exists (slice2 3 9). split; [right; left; reflexivity|reflexivity].
Defined.

(** ** Masking by slices *)

Lemma mapi_from_id {A} (l : list A) (i : Z) :
  mapi_from i (fun _ x => x) l = l.
Proof. revert i. induction l; intros i; simpl; [|rewrite IHl]; reflexivity. Qed.

(** Assigning a value through forward slices inside the array sets
    exactly the positions they cover. *)
Lemma setitem_slices_covers {A} (slices : list slice) (arr : list A) (v : A) :
  Forall (inside 0 (len arr)) slices ->
  setitem_slices arr slices v
  = Ok (mapi (fun i x => if covers slices i then v else x) arr).
Proof.
  revert arr. induction slices as [|s l IH]; intros arr HA; simpl.
  - f_equal. unfold mapi. symmetry. apply mapi_from_id.
  - inversion HA as [|? ? Hs HA']; subst.
    destruct Hs as (x & y & Hx & Hy & H0 & Hxy & Hyn & Hk).
    unfold Np.setitem_slice. destruct s as [sa sb sk]. simpl in Hx, Hy, Hk.
    subst sa sb. rewrite positions_inside by (auto; lia). cbn [bind].
    rewrite IH by (now rewrite len_mapi). f_equal.
    unfold mapi. rewrite mapi_from_fuse. apply mapi_from_ext.
    intros j w _. cbn [covers existsb in_slice start stop].
    rewrite existsb_zseq.
    replace (x + Z.of_nat (Z.to_nat (y - x))) with y by lia.
    fold (covers l j).
    destruct ((x <=? j) && (j <? y)), (covers l j); reflexivity.
Qed.

Lemma zip_with_mapi_from {A B C} (f : A -> B -> C) (g : Z -> B -> B) (z : B)
    (l : list A) (i : Z) :
  Np.zip_with f l (mapi_from i g (repeat z (length l)))
  = mapi_from i (fun j s => f s (g j z)) l.
Proof.
  revert i. induction l as [|x l IH]; intros i; simpl; [|rewrite IH];
    reflexivity.
Qed.

Lemma len_repeat {A} (z : A) (n : nat) : len (repeat z n) = Z.of_nat n.
Proof. unfold len. now rewrite repeat_length. Qed.

(** X14. [mask_inside_slices] and [mask_outside_slices] with forward
    slices inside the array keep the length and the data; the first
    masks, besides the samples already masked, exactly the positions the
    slices cover, the second exactly the positions they do not cover. *)
Theorem mask_slices_covers (array : marray) (slices : list slice) :
  Forall (inside 0 (len array)) slices ->
  mask_inside_slices array slices
  = Ok (mapi (fun i s => Sample (value s) (covers slices i || masked s)) array)
  /\ mask_outside_slices array slices
     = Ok (mapi (fun i s => Sample (value s)
                              (negb (covers slices i) || masked s)) array).
Proof.
  intros H. unfold mask_inside_slices, mask_outside_slices.
  rewrite !setitem_slices_covers by (now rewrite len_repeat).
  cbn [bind]. unfold with_mask, mapi. rewrite !zip_with_mapi_from.
  split; f_equal; apply mapi_from_ext; intros j s _;
    destruct (covers slices j); reflexivity.
Qed.

Lemma mask_slices_covers_witness :
  mask_inside_slices [Sample 1 false; Sample 2 true; Sample 3 false]
    [slice2 0 1]
  = Ok (mapi (fun i s => Sample (value s)
                           (covers [slice2 0 1] i || masked s))
          [Sample 1 false; Sample 2 true; Sample 3 false])
  /\ mask_outside_slices [Sample 1 false; Sample 2 true; Sample 3 false]
       [slice2 0 1]
     = Ok (mapi (fun i s => Sample (value s)
                              (negb (covers [slice2 0 1] i) || masked s))
             [Sample 1 false; Sample 2 true; Sample 3 false]).
Proof.
  apply (mask_slices_covers [Sample 1 false; Sample 2 true; Sample 3 false]
           [slice2 0 1]).
  repeat constructor. exists 0, 1. cbn. repeat split; auto; lia.
Defined.

Lemma nth_error_mapi_from {A B} (f : Z -> A -> B) (l : list A) (i : Z)
    (n : nat) :
  nth_error (mapi_from i f l) n
  = option_map (f (i + Z.of_nat n)) (nth_error l n).
Proof.
  revert i n. induction l as [|x l IH]; intros i [|n]; cbn [mapi_from nth_error option_map];
    try reflexivity.
  - now rewrite Z.add_0_r.
  - rewrite IH. do 2 f_equal. lia.
Qed.

Lemma mask_outside_slices_mapi (array : marray) (slices : list slice) :
  Forall (inside 0 (len array)) slices ->
  mask_outside_slices array slices
  = Ok (mapi (fun i s => Sample (value s)
                           (negb (covers slices i) || masked s)) array).
Proof.
  intros H. unfold mask_outside_slices.
  rewrite setitem_slices_covers by (now rewrite len_repeat).
  cbn [bind]. unfold with_mask, mapi. rewrite zip_with_mapi_from.
  f_equal; apply mapi_from_ext; intros j s _;
    destruct (covers slices j); reflexivity.
Qed.

(** X15. [valid_slices_within_array] with forward sections inside the
    array: an index lies in one of the slices returned exactly when it
    lies in a section and the sample there is not masked. *)
Theorem valid_slices_within_array_covers (array : marray)
    (sections : list slice) :
  Forall (inside 0 (len array)) sections ->
  exists r, valid_slices_within_array array sections = Ok r
            /\ forall i, covers r i
                         = covers sections i
                           && match nth_error array (Z.to_nat i) with
                              | Some s => negb (masked s)
                              | None => false
                              end.
Proof.
  intros H. unfold valid_slices_within_array.
  rewrite (mask_outside_slices_mapi array sections H). cbn [bind].
  eexists. split; [reflexivity|]. intros i.
  rewrite covers_clump_unmasked, nth_map_nth_error.
  unfold mapi. rewrite nth_error_mapi_from.
  destruct (Z.leb_spec 0 i) as [H0|H0]; cbn [andb].
  - rewrite Z.add_0_l, Z2Nat.id by lia.
    destruct (nth_error array (Z.to_nat i)) as [s|]; cbn [option_map masked].
    + rewrite negb_orb, negb_involutive. reflexivity.
    + now rewrite andb_false_r.
  - destruct (covers sections i) eqn:Ec; [|reflexivity].
    pose proof (covers_inside _ _ _ _ H Ec). lia.
Qed.

Lemma valid_slices_within_array_covers_witness :
  exists r,
    valid_slices_within_array
      [Sample 1 false; Sample 2 true; Sample 3 false] [slice2 0 2] = Ok r
    /\ forall i,
         covers r i
         = covers [slice2 0 2] i
           && match nth_error [Sample 1 false; Sample 2 true; Sample 3 false]
                      (Z.to_nat i) with
              | Some s => negb (masked s)
              | None => false
              end.
Proof.
  apply (valid_slices_within_array_covers
           [Sample 1 false; Sample 2 true; Sample 3 false] [slice2 0 2]).
  repeat constructor. exists 0, 2. cbn. repeat split; auto; lia.
Defined.

(** ** The longest run of valid samples *)

(** The candidates of the loop: the clump held, and the clumps to come. *)
Lemma longest_clump_spec (clumps : list slice) (_max : option slice) :
  Forall (fun c => exists s t, c = slice2 s t) clumps ->
  (forall m, _max = Some m -> exists s t, m = slice2 s t) ->
  exists r,
    longest_clump _max clumps = Ok r
    /\ (r = None -> _max = None /\ clumps = [])
    /\ forall m, r = Some m ->
         (exists s t, m = slice2 s t
                      /\ (_max = Some m \/ In m clumps)
                      /\ (forall s' t', _max = Some (slice2 s' t') ->
                                        t' - s' <= t - s)
                      /\ Forall (fun c => exists w, width c = Some w
                                                    /\ w <= t - s) clumps).
Proof.
  intros HF. revert _max. induction HF as [|c l (s & t & ->) _ IH]; intros _max Hm.
  - exists _max. split; [reflexivity|]. split; [auto|].
    intros m ->. destruct (Hm m eq_refl) as (s & t & ->).
    exists s, t. split; [reflexivity|]. split; [auto|].
    split; [|constructor]. intros s' t' [= <- <-]. lia.
  - cbn [longest_clump slice2 stop start Py.sub bind].
    destruct _max as [m|].
    + destruct (Hm m eq_refl) as (s0 & t0 & ->).
      cbn [slice2 stop start Py.sub bind].
      destruct (Z.ltb_spec (t0 - s0) (t - s)) as [Hlt|Hge].
      * destruct (IH (Some (slice2 s t))) as (r & E & Hnone & Hsome).
        { intros ? [= <-]. eauto. }
        exists r. split; [exact E|]. split.
        { intros Hr. destruct (Hnone Hr) as [Hd _]. discriminate. }
        intros m Hr. destruct (Hsome m Hr) as (a & b & -> & Hin & Hmax & Hall).
        exists a, b. split; [reflexivity|]. split.
        { right. destruct Hin as [[= <- <-] | Hin]; [now left|now right]. }
        specialize (Hmax s t eq_refl). split.
        { intros s' t' [= <- <-]. lia. }
        constructor; [|exact Hall]. exists (t - s). split; [reflexivity|lia].
      * destruct (IH (Some (slice2 s0 t0))) as (r & E & Hnone & Hsome).
        { intros ? [= <-]. eauto. }
        exists r. split; [exact E|]. split.
        { intros Hr. destruct (Hnone Hr) as [Hd _]. discriminate. }
        intros m Hr. destruct (Hsome m Hr) as (a & b & -> & Hin & Hmax & Hall).
        exists a, b. split; [reflexivity|]. split.
        { destruct Hin as [Hin | Hin]; [now left|right; now right]. }
        specialize (Hmax s0 t0 eq_refl). split.
        { intros s' t' [= <- <-]. lia. }
        constructor; [|exact Hall]. exists (t - s). split; [reflexivity|lia].
    + destruct (IH (Some (slice2 s t))) as (r & E & Hnone & Hsome).
      { intros ? [= <-]. eauto. }
      exists r. split; [exact E|]. split.
      { intros Hr. destruct (Hnone Hr) as [Hd _]. discriminate. }
      intros m Hr. destruct (Hsome m Hr) as (a & b & -> & Hin & Hmax & Hall).
      exists a, b. split; [reflexivity|]. split.
      { right. destruct Hin as [[= <- <-] | Hin]; [now left|now right]. }
      specialize (Hmax s t eq_refl). split; [discriminate|].
      constructor; [|exact Hall]. exists (t - s). split; [reflexivity|lia].
Qed.

(** X16. [max_continuous_unmasked] on a window [[a, b)] inside the array:
    [None] when the window is empty or holds no valid sample; otherwise
    one of the runs of valid samples of the window, moved to the positions
    of the array, and no run of the window is longer. *)
Theorem max_continuous_unmasked_longest (array : marray) (a b : Z) :
  0 <= a <= b -> b <= len array ->
  exists window,
    Np.getitem_slice masked_default array (slice2 a b) = Ok window
    /\ match window with
       | [] => max_continuous_unmasked array (slice2 a b) = Ok None
       | _ :: _ =>
           match Np.clump_unmasked window with
           | [] => max_continuous_unmasked array (slice2 a b) = Ok None
           | clumps =>
               exists s t,
                 max_continuous_unmasked array (slice2 a b)
                 = Ok (Some (slice2 (s + a) (t + a)))
                 /\ In (slice2 s t) clumps
                 /\ Forall (fun c => exists w, width c = Some w /\ w <= t - s)
                           clumps
           end
       end.
Proof.
  intros Hab Hb.
  destruct (getitem_slice_inside masked_default array a b) as (window & E & _);
    try lia.
  exists window. split; [exact E|].
  unfold max_continuous_unmasked. cbn [slice2 step start]. rewrite E.
  cbn [bind].
  destruct window as [|w0 ws]; [reflexivity|]. cbv iota.
  remember (w0 :: ws) as win eqn:Ewin.
  assert (Hne : win <> []) by (rewrite Ewin; discriminate).
  clear Ewin. rewrite (clump_unmasked_nonempty win Hne).
  pose proof (clump_from_bounds (map (fun s => negb (masked s)) win)
                0 None 0 ltac:(lia) ltac:(discriminate)) as HB.
  destruct (Np.clump_from 0 None (map (fun s => negb (masked s)) win))
    as [|c rest] eqn:Ec; [reflexivity|].
  assert (HF : Forall (fun c => exists s t, c = slice2 s t) (c :: rest)).
  { eapply Forall_impl; [|exact HB]. intros x (s & t & -> & _). eauto. }
  inversion HB as [|? ? (s0 & t0 & -> & Hs0 & Hst0 & _) _]; subst.
  assert (Hz : slice_eqb (slice2 s0 t0) (Slice (Some 0) (Some 0) None)
               && match rest with [] => true | _ => false end = false).
  { unfold slice_eqb, opt_Zeqb. cbn [slice2 start stop step].
    destruct (Z.eqb_spec s0 0), (Z.eqb_spec t0 0); try reflexivity. lia. }
  rewrite Hz.
  destruct (longest_clump_spec (slice2 s0 t0 :: rest) None HF)
    as (r & Er & Hnone & Hsome); [discriminate|].
  rewrite Er. cbn [bind]. destruct r as [m|].
  - destruct (Hsome m eq_refl) as (s & t & -> & Hin & _ & Hall).
    destruct Hin as [Hin | Hin]; [discriminate|].
    cbn [slice2 start stop Py.add bind]. rewrite or_else_Some_0.
    cbn [bind]. exists s, t. auto.
  - destruct (Hnone eq_refl) as [_ Hd]. discriminate.
Qed.

Lemma max_continuous_unmasked_longest_witness :
  exists window,
    Np.getitem_slice masked_default
      [Sample 1 false; Sample 2 true; Sample 3 false; Sample 4 false]
      (slice2 0 4) = Ok window
    /\ match window with
       | [] => max_continuous_unmasked
                 [Sample 1 false; Sample 2 true; Sample 3 false; Sample 4 false]
                 (slice2 0 4) = Ok None
       | _ :: _ =>
           match Np.clump_unmasked window with
           | [] => max_continuous_unmasked
                     [Sample 1 false; Sample 2 true; Sample 3 false;
                      Sample 4 false]
                     (slice2 0 4) = Ok None
           | clumps =>
               exists s t,
                 max_continuous_unmasked
                   [Sample 1 false; Sample 2 true; Sample 3 false;
                    Sample 4 false]
                   (slice2 0 4)
                 = Ok (Some (slice2 (s + 0) (t + 0)))
                 /\ In (slice2 s t) clumps
                 /\ Forall (fun c => exists w, width c = Some w /\ w <= t - s)
                           clumps
           end
       end.
Proof.
  apply (max_continuous_unmasked_longest
           [Sample 1 false; Sample 2 true; Sample 3 false; Sample 4 false] 0 4).
  - lia.
  - vm_compute. discriminate.
Defined.

(** ** Phase masks *)

Lemma positions_open_start (n y : Z) :
  0 <= y <= n ->
  Np.positions n (Slice None (Some y) None) = Ok (zseq 0 (Z.to_nat y)).
Proof.
  intros H. unfold Np.positions, Np.slice_bounds. cbn.
  rewrite adjust_inside by lia. cbn [bind].
  now rewrite range_forward, Z.sub_0_r.
Qed.

Lemma positions_open_stop (n x : Z) :
  0 <= x <= n ->
  Np.positions n (Slice (Some x) None None) = Ok (zseq x (Z.to_nat (n - x))).
Proof.
  intros H. unfold Np.positions, Np.slice_bounds. cbn.
  rewrite adjust_inside by lia. cbn [bind].
  now rewrite range_forward.
Qed.

Lemma map_zseq_mapi_from {A B} (g : Z -> B) (l : list A) (i : Z) :
  map g (zseq i (length l)) = mapi_from i (fun j _ => g j) l.
Proof.
  revert i. induction l as [|x l IH]; intros i; simpl; [|rewrite IH];
    reflexivity.
Qed.

(** X17. [create_phase_inside] and [create_phase_outside] with the same
    arguments either both raise the same [ValueError] or both return an
    array with the length and the data of the input, and there is a range
    [[ia, ib)] of positions such that the first masks the samples outside
    it and the second the samples inside it (besides the samples already
    masked): a valid sample is masked in exactly one of the two. *)
Theorem create_phase_masks_complementary (array : marray)
    (hz offset phase_start phase_end : Q) :
  match create_phase_inside array hz offset phase_start phase_end,
        create_phase_outside array hz offset phase_start phase_end with
  | Ok inner, Ok outer =>
      exists ia ib : Z,
        inner = mapi (fun i s => Sample (value s)
                                   (negb ((ia <=? i) && (i <? ib)) || masked s))
                     array
        /\ outer = mapi (fun i s => Sample (value s)
                                      ((ia <=? i) && (i <? ib) || masked s))
                        array
  | Raise e1, Raise e2 => e1 = e2
  | _, _ => False
  end.
Proof.
  unfold create_phase_inside, create_phase_outside, _create_phase_mask.
  change (String.eqb "inside" "inside") with true.
  change (String.eqb "outside" "inside") with false.
  cbv zeta.
  set (a' := if Qltb phase_end phase_start then phase_end else phase_start).
  set (b' := if Qltb phase_end phase_start then phase_start else phase_end).
  set (ia := if Qltb (inject_Z (py_int ((a' - offset) * hz)))
                     ((a' - offset) * hz)
             then py_int ((a' - offset) * hz) + 1
             else py_int ((a' - offset) * hz)).
  set (ib := py_int ((b' - offset) * hz) + 1).
  destruct (Z.ltb_spec ia 0) as [|Hia0]; [reflexivity|].
  destruct (Z.ltb_spec (len array) ia) as [|Hian]; [reflexivity|].
  destruct (Z.ltb_spec ib 0) as [|Hib0]; [reflexivity|].
  destruct (Z.ltb_spec (len array) ib) as [|Hibn]; [reflexivity|].
  cbn [orb].
  set (m0 := map (fun i => negb (i =? 0)) (Np.range 0 (len array) 1)).
  assert (Hm0 : m0 = mapi (fun i (_ : sample) => negb (i =? 0)) array).
  { unfold m0, mapi. rewrite range_forward, Z.sub_0_r. unfold len.
    rewrite Nat2Z.id. apply map_zseq_mapi_from. }
  assert (Hl0 : len m0 = len array) by (rewrite Hm0; apply len_mapi).
  assert (Hfinal : forall inside : bool,
     (m <- Np.setitem_slice m0 (Slice None (Some ia) None) inside ;;
      m <- Np.setitem_slice m (Slice (Some ia) (Some ib) None) (negb inside) ;;
      m <- Np.setitem_slice m (Slice (Some ib) None None) inside ;;
      Ok (with_mask array m))
     = Ok (mapi (fun i s => Sample (value s)
                   ((if (ia <=? i) && (i <? ib) then negb inside else inside)
                    || masked s)) array)).
  { intros inside. unfold Np.setitem_slice.
    rewrite positions_open_start by lia. cbn [bind].
    rewrite len_mapi, positions_inside by (auto; lia). cbn [bind].
    rewrite !len_mapi, positions_open_stop by lia. cbn [bind].
    rewrite Hl0. f_equal. rewrite Hm0. unfold with_mask, mapi.
    rewrite !mapi_from_fuse.
    assert (Hz : forall (g : Z -> bool) (l : marray) (i : Z),
               Np.zip_with (fun s m => Sample (value s) (m || masked s)) l
                 (mapi_from i (fun j (_ : sample) => g j) l)
               = mapi_from i (fun j s => Sample (value s) (g j || masked s)) l).
    { intros g l. induction l as [|x l IH]; intros i; simpl; [|rewrite IH];
        reflexivity. }
    rewrite Hz. apply mapi_from_ext. intros j s Hj.
    rewrite !existsb_zseq.
    replace (0 + Z.of_nat (Z.to_nat ia)) with ia by lia.
    replace (ia + Z.of_nat (Z.to_nat (ib - ia))) with (Z.max ia ib) by lia.
    replace (ib + Z.of_nat (Z.to_nat (len array - ib))) with (len array)
      by lia.
    do 2 f_equal.
    destruct (Z.leb_spec ib j), (Z.ltb_spec j (len array)),
      (Z.leb_spec ia j), (Z.ltb_spec j (Z.max ia ib)),
      (Z.leb_spec 0 j), (Z.ltb_spec j ia), (Z.ltb_spec j ib);
      cbn; try reflexivity; try lia; destruct inside; reflexivity. }
  rewrite (Hfinal true), (Hfinal false).
  exists ia, ib. split; unfold mapi; apply mapi_from_ext; intros j s _;
    destruct ((ia <=? j) && (j <? ib)); reflexivity.
Qed.

(** ** Value at an index *)

Lemma getitem_nth_error {A} (arr : list A) (i : Z) (x : A) :
  0 <= i -> nth_error arr (Z.to_nat i) = Some x -> Np.getitem arr i = Ok x.
Proof.
  intros Hi E. unfold Np.getitem.
  assert (Hlt : (Z.to_nat i < length arr)%nat)
    by (apply nth_error_Some; congruence).
  destruct (Z.ltb_spec i 0); [lia|].
  destruct (Z.leb_spec 0 i); [|lia].
  destruct (Z.ltb_spec i (len arr)); [|unfold len in *; lia].
  cbn [andb]. now rewrite E.
Qed.

Lemma py_int_nonneg (x : Q) : (0 <= x)%Q -> py_int x = Qfloor x.
Proof.
  intros H. unfold py_int. apply Qle_bool_iff in H. now rewrite H.
Qed.

(** A float that is not an integer lies strictly between its floor and the
    next integer, which is its ceiling. *)
Lemma floor_ceiling_apart (x : Q) :
  Qeq_bool (inject_Z (Qfloor x)) x = false ->
  Qceiling x = Qfloor x + 1
  /\ (inject_Z (Qfloor x) < x)%Q /\ (x < inject_Z (Qfloor x + 1))%Q.
Proof.
  intros Hne.
  assert (Hlt : (inject_Z (Qfloor x) < x)%Q).
  { destruct (Qlt_le_dec (inject_Z (Qfloor x)) x) as [H|H]; [exact H|].
    exfalso. assert (E : (inject_Z (Qfloor x) == x)%Q)
      by (apply Qle_antisym; [apply Qfloor_le|exact H]).
    apply Qeq_bool_iff in E. congruence. }
  pose proof (Qlt_floor x) as Hup.
  pose proof (Qle_ceiling x) as Hc1.
  pose proof (Qceiling_lt x) as Hc2.
  split; [|split; assumption].
  assert (H1 : (inject_Z (Qfloor x) < inject_Z (Qceiling x))%Q)
    by (eapply Qlt_le_trans; eauto).
  assert (H2 : (inject_Z (Qceiling x - 1) < inject_Z (Qfloor x + 1))%Q)
    by (eapply Qlt_trans; eauto).
  rewrite <- Zlt_Qlt in H1, H2. lia.
Qed.

(** X18. [value_at_index] at an index inside the array whose two
    neighbouring samples (the sample itself, for a whole index) are valid:
    the value returned lies between the two, so interpolation never
    overshoots. *)
Theorem value_at_index_between (array : marray) (index lo hi : Q) :
  (0 <= index)%Q -> (index <= inject_Z (len array - 1))%Q ->
  nth_error array (Z.to_nat (Qfloor index)) = Some (Sample lo false) ->
  nth_error array (Z.to_nat (Qceiling index)) = Some (Sample hi false) ->
  exists v, value_at_index array (Some index) true = Ok (Some (Sample v false))
            /\ ((lo <= v)%Q /\ (v <= hi)%Q \/ (hi <= v)%Q /\ (v <= lo)%Q).
Proof.
  intros H0 Hn Hlo Hhi. unfold value_at_index.
  assert (E0 : Qltb index 0 = false) by (now apply Qltb_ge).
  assert (E1 : Qltb (inject_Z (len array - 1)) index = false)
    by (now apply Qltb_ge).
  rewrite E0, E1, (py_int_nonneg index H0).
  assert (Hf0 : 0 <= Qfloor index).
  { change 0 with (Qfloor 0). now apply Qfloor_resp_le. }
  destruct (Qeq_bool (inject_Z (Qfloor index)) index) eqn:Ei.
  - rewrite (getitem_nth_error _ _ _ Hf0 Hlo). cbn [bind masked].
    exists lo. split; [reflexivity|]. left. split; [apply Qle_refl|].
    apply Qeq_bool_iff in Ei.
    assert (Ec : Qceiling index = Qfloor index).
    { rewrite <- (Qceiling_comp _ _ Ei). apply Qceiling_Z. }
    rewrite Ec, Hlo in Hhi. injection Hhi as <-. apply Qle_refl.
  - destruct (floor_ceiling_apart index Ei) as (Ec & Hl & Hu).
    rewrite Ec in Hhi.
    rewrite (getitem_nth_error _ _ _ Hf0 Hlo).
    assert (Hf1 : 0 <= Qfloor index + 1) by lia.
    rewrite (getitem_nth_error _ _ _ Hf1 Hhi).
    cbn [bind masked value negb].
    eexists. split; [reflexivity|].
    set (r := (index - inject_Z (Qfloor index))%Q).
    assert (Hr0 : (0 < r)%Q) by (unfold r; lra).
    assert (Hr1 : (r < 1)%Q).
    { unfold r. rewrite inject_Z_plus in Hu. change (inject_Z 1) with 1%Q in Hu.
      lra. }
    destruct (Qlt_le_dec hi lo) as [Hlt|Hle].
    + right. split; nra.
    + left. split; nra.
Qed.

Lemma value_at_index_between_witness :
  exists v,
    value_at_index [Sample 10 false; Sample 20 false] (Some (1 # 2)) true
    = Ok (Some (Sample v false))
    /\ ((10 <= v)%Q /\ (v <= 20)%Q \/ (20 <= v)%Q /\ (v <= 10)%Q).
Proof.
  apply (value_at_index_between [Sample 10 false; Sample 20 false] (1 # 2)
           10 20).
  - discriminate.
  - discriminate.
  - reflexivity.
  - reflexivity.
Defined.

Lemma getitem_first {A} (x : A) (l : list A) : Np.getitem (x :: l) 0 = Ok x.
Proof.
  unfold Np.getitem, len. cbn [length Z.ltb Z.compare Z.leb andb].
  destruct (Z.ltb_spec 0 (Z.of_nat (S (length l)))); [reflexivity|lia].
Qed.

Lemma getitem_last_total {A} (l : list A) :
  l <> [] -> exists x, Np.getitem l (-1) = Ok x.
Proof.
  intros Hne. unfold Np.getitem. cbn [Z.ltb Z.compare].
  assert (Hl : 0 < len l).
  { unfold len. destruct l; [congruence|]. cbn [length]. lia. }
  destruct (Z.leb_spec 0 (-1 + len l)); [|lia].
  destruct (Z.ltb_spec (-1 + len l) (len l)); [|lia]. cbn [andb].
  destruct (nth_error l (Z.to_nat (-1 + len l))) as [x|] eqn:E; [eauto|].
  apply nth_error_None in E. unfold len in *. lia.
Qed.

(** X19. [value_at_index] never raises on a non-empty array, whatever the
    index ([None], negative, beyond the end, whole or not) and with
    interpolation on or off; on an empty array it raises [IndexError]. *)
Theorem value_at_index_total (array : marray) (index : option Q)
    (interpolate : bool) :
  match array with
  | [] => value_at_index array index interpolate = Raise IndexError
  | _ => exists r, value_at_index array index interpolate = Ok r
  end.
Proof.
  destruct array as [|x l].
  - unfold value_at_index. destruct index as [index|]; [|reflexivity].
    destruct (Qltb index 0) eqn:E0; [reflexivity|].
    assert (E1 : Qltb (inject_Z (len (@nil sample) - 1)) index = true).
    { apply Qltb_lt. apply Qltb_ge in E0. unfold len. cbn.
      apply Qlt_le_trans with 0%Q; [reflexivity|exact E0]. }
    rewrite E1. reflexivity.
  - set (array := x :: l).
    assert (Hne : array <> []) by discriminate.
    assert (Hlen : 0 < len array).
    { unfold len, array. cbn [length]. lia. }
    unfold value_at_index. destruct index as [index|].
    2:{ unfold array. rewrite getitem_first. cbn. eauto. }
    destruct (Qltb index 0) eqn:E0.
    { unfold array. rewrite getitem_first. cbn. eauto. }
    destruct (Qltb (inject_Z (len array - 1)) index) eqn:E1.
    { destruct (getitem_last_total array Hne) as (y & ->). cbn. eauto. }
    apply Qltb_ge in E0, E1. rewrite (py_int_nonneg index E0).
    assert (Hf0 : 0 <= Qfloor index).
    { change 0 with (Qfloor 0). now apply Qfloor_resp_le. }
    assert (Hf1 : Qfloor index <= len array - 1).
    { rewrite <- (Qfloor_Z (len array - 1)). now apply Qfloor_resp_le. }
    destruct (getitem_in_range array (Qfloor index)) as (lo & Elo); [lia|].
    rewrite Elo. cbn [bind].
    destruct (Qeq_bool (inject_Z (Qfloor index)) index) eqn:Ei; [eauto|].
    destruct (floor_ceiling_apart index Ei) as (_ & Hl & Hu).
    assert (Hf2 : Qfloor index + 1 <= len array - 1).
    { assert (H : (inject_Z (Qfloor index) < inject_Z (len array - 1))%Q)
        by (eapply Qlt_le_trans; eauto).
      rewrite <- Zlt_Qlt in H. lia. }
    destruct (getitem_in_range array (Qfloor index + 1)) as (hi & Ehi); [lia|].
    rewrite Ehi. cbn [bind].
    destruct (masked lo), (masked hi); eauto.
    destruct interpolate; cbn [negb]; eauto.
    unfold getitem_q.
    assert (Hh0 : (0 <= index + (1 # 2))%Q) by lra.
    rewrite (py_int_nonneg _ Hh0).
    assert (Hg0 : 0 <= Qfloor (index + (1 # 2))).
    { change 0 with (Qfloor 0). now apply Qfloor_resp_le. }
    assert (Hg1 : Qfloor (index + (1 # 2)) <= len array - 1).
    { assert (H' : (inject_Z (Qfloor (index + (1 # 2))) <= index + (1 # 2))%Q)
        by apply Qfloor_le.
      assert (H'' : (inject_Z (Qfloor (index + (1 # 2)))
                     < inject_Z (Qfloor index + 2))%Q).
      { eapply Qle_lt_trans; [exact H'|].
        rewrite inject_Z_plus in Hu. rewrite inject_Z_plus.
        change (inject_Z 2) with 2%Q.
        change (inject_Z 1) with 1%Q in Hu. lra. }
      rewrite <- Zlt_Qlt in H''. lia. }
    destruct (getitem_in_range array (Qfloor (index + (1 # 2)))) as (s & ->);
      [lia|].
    cbn. eauto.
Qed.

(** ** Peak of a list *)

(** The scan for the first maximum: the position returned holds a value
    that no element, and not the running maximum either, exceeds. *)
Lemma argmax_from_spec (a : list Q) (i best : Z) (bv : Q) :
  exists v,
    (bv <= v)%Q
    /\ Forall (fun x => (x <= v)%Q) a
    /\ ((Np.argmax_from i best bv a = best /\ v = bv)
        \/ exists k, Np.argmax_from i best bv a = i + Z.of_nat k
                     /\ nth_error a k = Some v).
Proof.
  revert i best bv. induction a as [|x a IH]; intros i best bv.
  - exists bv. split; [apply Qle_refl|]. split; [constructor|]. now left.
  - cbn [Np.argmax_from]. destruct (Qltb bv x) eqn:E.
    + apply Qltb_lt in E.
      destruct (IH (i + 1) i x) as (v & Hv & HF & Hpos).
      exists v. split; [lra|]. split; [constructor; assumption|].
      right. destruct Hpos as [[-> ->] | (k & -> & Hk)].
      * exists O. split; [lia|reflexivity].
      * exists (S k). split; [lia|exact Hk].
    + apply Qltb_ge in E.
      destruct (IH (i + 1) best bv) as (v & Hv & HF & Hpos).
      exists v. split; [exact Hv|]. split; [constructor; [lra|assumption]|].
      destruct Hpos as [[-> ->] | (k & -> & Hk)]; [now left|].
      right. exists (S k). split; [lia|exact Hk].
Qed.

Lemma argmax_spec (a : list Q) :
  a <> [] ->
  exists loc v, Np.argmax a = Ok loc /\ 0 <= loc < len a
                /\ nth_error a (Z.to_nat loc) = Some v
                /\ Forall (fun x => (x <= v)%Q) a.
Proof.
  intros Hne. destruct a as [|x a]; [congruence|]. clear Hne.
  cbn [Np.argmax].
  destruct (argmax_from_spec a 1 0 x) as (v & Hv & HF & Hpos).
  exists (Np.argmax_from 1 0 x a), v. split; [reflexivity|].
  destruct Hpos as [[-> ->] | (k & -> & Hk)].
  - split; [unfold len; cbn [length]; lia|]. split; [reflexivity|].
    constructor; [apply Qle_refl|exact HF].
  - assert (Hlt : (k < length a)%nat) by (apply nth_error_Some; congruence).
    split; [unfold len; cbn [length]; lia|].
    replace (Z.to_nat (1 + Z.of_nat k)) with (S k) by lia.
    split; [exact Hk|]. constructor; assumption.
Qed.

Lemma Forall_nth_error_le (a : list Q) (v x : Q) (n : nat) :
  Forall (fun y => (y <= v)%Q) a -> nth_error a n = Some x -> (x <= v)%Q.
Proof.
  intros HF E. rewrite Forall_forall in HF. apply HF.
  eapply nth_error_In; eauto.
Qed.

(** X20. [peak_index] of a non-empty list returns a position within half
    a sample of the first largest element (the position [np.argmax]
    gives), and inside the list; an empty list is a [ValueError]. *)
Theorem peak_index_within_half_sample (a : list Q) :
  a <> [] ->
  exists r loc,
    peak_index a = Ok r /\ Np.argmax a = Ok loc
    /\ 0 <= loc < len a
    /\ (Qabs (r - inject_Z loc) <= 1 # 2)%Q.
Proof.
  intros Hne.
  destruct (argmax_spec a Hne) as (loc & v & Eloc & Hloc & Hv & HF).
  assert (Hzero : forall q : Q, (Qabs (q - q) <= 1 # 2)%Q).
  { intros q. setoid_replace (q - q)%Q with 0%Q by ring. discriminate. }
  destruct a as [|x0 [|x1 [|x2 rest]]]; [congruence| | |].
  - exists 0%Q, loc. cbn [peak_index]. repeat split; try tauto; try lia.
    assert (loc = 0) by (unfold len in Hloc; cbn [length] in Hloc; lia).
    subst loc. apply Hzero.
  - exists (inject_Z loc), loc. cbn [peak_index]. rewrite Eloc. cbn [bind].
    repeat split; try tauto; try lia. apply Hzero.
  - set (a := x0 :: x1 :: x2 :: rest) in *.
    assert (Epk : peak_index a
                  = (loc <- Np.argmax a ;;
                     if loc =? 0 then Ok 0%Q
                     else if loc =? len a - 1 then Ok (inject_Z (len a - 1))
                     else
                       before <- Np.getitem a (loc - 1) ;;
                       at_loc <- Np.getitem a loc ;;
                       after <- Np.getitem a (loc + 1) ;;
                       let denominator :=
                         (2 * before - 4 * at_loc + 2 * after)%Q in
                       if Qltb (Qabs denominator) (1 # 1000)
                       then Ok (inject_Z loc)
                       else Ok (inject_Z loc
                                + (before - after) / denominator)%Q))
      by reflexivity.
    rewrite Epk, Eloc. cbn [bind]. clear Epk.
    destruct (Z.eqb_spec loc 0) as [->|Hn0].
    { exists 0%Q, 0. repeat split; try tauto; try lia. apply Hzero. }
    destruct (Z.eqb_spec loc (len a - 1)) as [E|Hnl].
    { exists (inject_Z (len a - 1)), loc. rewrite <- E.
      repeat split; try tauto; try lia. apply Hzero. }
    destruct (getitem_in_range a (loc - 1)) as (before & Eb); [lia|].
    destruct (getitem_in_range a (loc + 1)) as (after & Ea); [lia|].
    rewrite Eb, (getitem_nth_error a loc v ltac:(lia) Hv), Ea.
    cbn [bind]. cbv zeta.
    assert (Hb : (before <= v)%Q).
    { unfold Np.getitem in Eb.
      destruct (loc - 1 <? 0); [|].
      - destruct ((0 <=? loc - 1 + len a) && (loc - 1 + len a <? len a));
          [|discriminate].
        destruct (nth_error a (Z.to_nat (loc - 1 + len a))) eqn:En;
          [|discriminate].
        injection Eb as <-. eapply Forall_nth_error_le; eauto.
      - destruct ((0 <=? loc - 1) && (loc - 1 <? len a)); [|discriminate].
        destruct (nth_error a (Z.to_nat (loc - 1))) eqn:En; [|discriminate].
        injection Eb as <-. eapply Forall_nth_error_le; eauto. }
    assert (Ha : (after <= v)%Q).
    { unfold Np.getitem in Ea.
      destruct (loc + 1 <? 0); [|].
      - destruct ((0 <=? loc + 1 + len a) && (loc + 1 + len a <? len a));
          [|discriminate].
        destruct (nth_error a (Z.to_nat (loc + 1 + len a))) eqn:En;
          [|discriminate].
        injection Ea as <-. eapply Forall_nth_error_le; eauto.
      - destruct ((0 <=? loc + 1) && (loc + 1 <? len a)); [|discriminate].
        destruct (nth_error a (Z.to_nat (loc + 1))) eqn:En; [|discriminate].
        injection Ea as <-. eapply Forall_nth_error_le; eauto. }
    set (D := (2 * before - 4 * v + 2 * after)%Q).
    destruct (Qltb (Qabs D) (1 # 1000)) eqn:Ed.
    { exists (inject_Z loc), loc. repeat split; try tauto; try lia.
      apply Hzero. }
    exists (inject_Z loc + (before - after) / D)%Q, loc.
    repeat split; try tauto; try lia.
    apply Qltb_ge in Ed.
    assert (HD : (D < 0)%Q).
    { assert (HDle : (D <= 0)%Q) by (unfold D; lra).
      destruct (Qlt_le_dec D 0) as [H|H]; [exact H|].
      assert (E0 : (D == 0)%Q) by (apply Qle_antisym; assumption).
      rewrite E0 in Ed. exfalso. apply (Qle_not_lt _ _ Ed). reflexivity. }
    assert (Hpos : (0 < - D)%Q) by lra.
    assert (Eq : (inject_Z loc + (before - after) / D - inject_Z loc
                  == (after - before) / (- D))%Q).
    { field. intros E0. rewrite E0 in HD. now apply (Qlt_irrefl 0). }
    rewrite Eq. apply Qabs_Qle_condition. split.
    + apply Qle_shift_div_l; [exact Hpos|]. unfold D. lra.
    + apply Qle_shift_div_r; [exact Hpos|]. unfold D. lra.
Qed.

Lemma peak_index_within_half_sample_witness :
  exists r loc,
    peak_index [1; 3; 2]%Q = Ok r /\ Np.argmax [1; 3; 2]%Q = Ok loc
    /\ 0 <= loc < len [1; 3; 2]%Q
    /\ (Qabs (r - inject_Z loc) <= 1 # 2)%Q.
Proof.
  apply (peak_index_within_half_sample [1; 3; 2]%Q). discriminate.
Defined.

(** ** Power of two *)

Lemma land_pred_pow2 (n : Z) :
  0 < n -> (Z.land n (n - 1) = 0 <-> exists k, 0 <= k /\ n = 2 ^ k).
Proof.
  intros Hn. split.
  - intros Hl. exists (Z.log2 n). split; [apply Z.log2_nonneg|].
    destruct (Z.log2_spec n Hn) as [Hlo Hhi].
    destruct (Z.eq_dec n (2 ^ Z.log2 n)) as [E|Hne]; [exact E|].
    exfalso.
    assert (Hk : Z.log2 (n - 1) = Z.log2 n).
    { apply Z.log2_unique; [apply Z.log2_nonneg|].
      unfold Z.succ in *. lia. }
    assert (Hb1 : Z.testbit n (Z.log2 n) = true) by (apply Z.bit_log2; lia).
    assert (Hb2 : Z.testbit (n - 1) (Z.log2 n) = true).
    { rewrite <- Hk. apply Z.bit_log2.
      assert (0 < 2 ^ Z.log2 n) by (apply Z.pow_pos_nonneg; [lia|apply Z.log2_nonneg]).
      lia. }
    assert (Hb : Z.testbit (Z.land n (n - 1)) (Z.log2 n) = true)
      by (rewrite Z.land_spec, Hb1, Hb2; reflexivity).
    rewrite Hl, Z.bits_0 in Hb. discriminate.
  - intros (k & Hk & ->).
    replace (2 ^ k - 1) with (Z.ones k) by (rewrite Z.ones_equiv; lia).
    rewrite Z.land_ones by lia. apply Z.mod_same.
    assert (0 < 2 ^ k) by (apply Z.pow_pos_nonneg; lia). lia.
Qed.

(** X21. [is_power2] is [True] exactly for the powers of two: the numbers
    equal to [2 ** k] for a natural number [k] (1 included); a number with
    a fractional part, zero and the negative numbers are rejected. *)
Theorem is_power2_iff (number : Q) :
  is_power2 number = true
  <-> exists k : nat, (number == inject_Z (2 ^ Z.of_nat k))%Q.
Proof.
  unfold is_power2. split.
  - destruct (Qeq_bool (number - inject_Z (Qfloor number)) 0) eqn:Ef;
      cbn [negb]; [|discriminate].
    apply Qeq_bool_iff in Ef.
    assert (En : (number == inject_Z (Qfloor number))%Q) by lra.
    assert (Ep : py_int number = Qfloor number).
    { unfold py_int. destruct (Qle_bool 0 number); [reflexivity|].
      rewrite En at 1. now rewrite Qceiling_Z. }
    rewrite Ep. intros H. apply andb_true_iff in H as [Hpos Hl].
    apply Z.ltb_lt in Hpos. apply Z.eqb_eq in Hl.
    apply (land_pred_pow2 _ Hpos) in Hl as (k & Hk & Ek).
    exists (Z.to_nat k). rewrite Z2Nat.id by lia. now rewrite <- Ek.
  - intros (k & Ek).
    assert (Hp : 0 < 2 ^ Z.of_nat k) by (apply Z.pow_pos_nonneg; lia).
    assert (Ef : Qfloor number = 2 ^ Z.of_nat k)
      by (rewrite Ek; apply Qfloor_Z).
    assert (E0 : Qeq_bool (number - inject_Z (Qfloor number)) 0 = true).
    { apply Qeq_bool_iff. rewrite Ef, Ek. ring. }
    rewrite E0. cbn [negb].
    assert (Ep : py_int number = 2 ^ Z.of_nat k).
    { unfold py_int. destruct (Qle_bool 0 number); [exact Ef|].
      rewrite Ek. apply Qceiling_Z. }
    rewrite Ep. apply andb_true_iff. split; [now apply Z.ltb_lt|].
    apply Z.eqb_eq. apply land_pred_pow2; [exact Hp|].
    exists (Z.of_nat k). split; [lia|reflexivity].
Qed.

(** ** First and last valid samples *)

(** The bits [clump_unmasked] scans in a window of the array. *)
Lemma window_bit (array : marray) (a : Z) (n k : nat) :
  nth k (map (fun s => negb (masked s))
           (map (fun i => nth (Z.to_nat i) array masked_default) (zseq a n)))
      false
  = (k <? n)%nat
    && negb (masked (nth (Z.to_nat (a + Z.of_nat k)) array masked_default)).
Proof.
  revert a k. induction n as [|n IH]; intros a k.
  - destruct k; reflexivity.
  - destruct k as [|k]; cbn [zseq map nth].
    + now rewrite Z.add_0_r.
    + rewrite IH. change (S k <? S n)%nat with (k <? n)%nat.
      do 4 f_equal. lia.
Qed.

Lemma nth_default_valid (array : marray) (j : nat) :
  masked (nth j array masked_default) = false ->
  exists v, nth_error array j = Some (Sample v false).
Proof.
  intros H. destruct (nth_error array j) as [s|] eqn:E.
  - rewrite (nth_error_nth _ _ masked_default E) in H.
    destruct s as [v m]. cbn in H. subst m. eauto.
  - rewrite (nth_error_nth' array masked_default) in E.
    + discriminate.
    + apply nth_error_None in E.
      rewrite nth_overflow in H by exact E. discriminate.
Qed.

Lemma nth_default_masked (array : marray) (j : nat) (s : sample) :
  masked (nth j array masked_default) = true ->
  nth_error array j = Some s -> masked s = true.
Proof.
  intros H E. now rewrite (nth_error_nth _ _ masked_default E) in H.
Qed.

Lemma chain_not_covers_below (l : list slice) (lo j : Z) :
  chain lo l -> j < lo -> covers l j = false.
Proof.
  revert lo. induction l as [|c l IH]; intros lo Hc Hj; [reflexivity|].
  destruct Hc as (s & t & -> & H1 & H2 & H3).
  cbn [covers existsb in_slice slice2 start stop].
  fold (covers l j). rewrite (IH t) by (auto; lia).
  destruct (Z.leb_spec s j); [lia|reflexivity].
Qed.


(** X22. [first_valid_sample] never raises. When it returns an index, the
    index is at or after [start_index], the sample there is valid and is
    the value returned, and every sample from [start_index] up to it is
    masked; when it returns [Value(None, None)], no sample at or after a
    non-negative [start_index] is valid. *)
Theorem first_valid_sample_first (array : marray) (start_index : Z) :
  match first_valid_sample array start_index with
  | Ok (Some index, Some v) =>
      0 <= start_index <= index
      /\ nth_error array (Z.to_nat index) = Some (Sample v false)
      /\ forall j s, start_index <= j < index ->
                     nth_error array (Z.to_nat j) = Some s -> masked s = true
  | Ok (None, None) =>
      forall j s, 0 <= start_index <= j ->
                  nth_error array (Z.to_nat j) = Some s -> masked s = true
  | _ => False
  end.
Proof.
  unfold first_valid_sample.
  destruct (Z.leb_spec 0 start_index) as [H0|H0]; cbn [andb negb];
    [|intros j s Hj; lia].
  destruct (Z.ltb_spec start_index (len array)) as [H1|H1]; cbn [negb].
  2:{ intros j s Hj E.
      assert (Hlt : (Z.to_nat j < length array)%nat)
        by (apply nth_error_Some; congruence).
      unfold len in H1. lia. }
  unfold Np.getitem_slice. rewrite positions_open_stop by lia. cbn [bind].
  rewrite clump_unmasked_nonempty
    by (apply map_zseq_nonempty; unfold len in *; lia).
  set (n := Z.to_nat (len array - start_index)).
  set (m := map (fun s => negb (masked s))
              (map (fun i => nth (Z.to_nat i) array masked_default)
                 (zseq start_index n))).
  assert (Hbit : forall k, 0 <= k ->
            covers (Np.clump_from 0 None m) k
            = (k <? len array - start_index)
              && negb (masked (nth (Z.to_nat (start_index + k)) array
                                 masked_default))).
  { intros k Hk. rewrite covers_clump_from by discriminate.
    cbn [orb]. rewrite Z.sub_0_r. unfold m. rewrite window_bit.
    rewrite Z2Nat.id by lia.
    destruct (Z.leb_spec 0 k); [|lia]. cbn [andb]. f_equal.
    unfold n. destruct (Z.ltb_spec k (len array - start_index));
      [apply Nat.ltb_lt|apply Nat.ltb_ge]; lia. }
  pose proof (clump_from_chain m 0 None 0 ltac:(lia) ltac:(discriminate))
    as Hchain.
  destruct (Np.clump_from 0 None m) as [|c rest].
  - intros j s Hj E.
    assert (Hlt : (Z.to_nat j < length array)%nat)
      by (apply nth_error_Some; congruence).
    specialize (Hbit (j - start_index) ltac:(lia)).
    cbn [covers existsb] in Hbit.
    destruct (Z.ltb_spec (j - start_index) (len array - start_index));
      [|unfold len in *; lia].
    cbn [andb] in Hbit. symmetry in Hbit. apply negb_false_iff in Hbit.
    replace (start_index + (j - start_index)) with j in Hbit by lia.
    eapply nth_default_masked; eauto.
  - destruct Hchain as (s & t & -> & Hs & Hst & Hrest).
    cbn [slice2 start Py.add bind].
    assert (Hcov : covers (slice2 s t :: rest) s = true).
    { cbn [covers existsb in_slice slice2 start stop].
      destruct (Z.leb_spec s s); [|lia]. destruct (Z.ltb_spec s t); [|lia].
      reflexivity. }
    rewrite Hbit in Hcov by lia. apply andb_true_iff in Hcov as [Hlt Hv].
    apply Z.ltb_lt in Hlt. apply negb_true_iff in Hv.
    destruct (nth_default_valid _ _ Hv) as (v & Ev).
    replace (start_index + s) with (s + start_index) in Ev by lia.
    rewrite (getitem_nth_error array (s + start_index) _ ltac:(lia) Ev).
    cbn [bind value]. split; [lia|]. split; [exact Ev|].
    intros j x Hj E.
    assert (Hnc : covers (slice2 s t :: rest) (j - start_index) = false).
    { cbn [covers existsb in_slice slice2 start stop].
      fold (covers rest (j - start_index)).
      rewrite (chain_not_covers_below rest t) by (auto; lia).
      destruct (Z.leb_spec s (j - start_index)); [lia|reflexivity]. }
    rewrite Hbit in Hnc by lia.
    destruct (Z.ltb_spec (j - start_index) (len array - start_index));
      [|lia].
    cbn [andb] in Hnc. apply negb_false_iff in Hnc.
    replace (start_index + (j - start_index)) with j in Hnc by lia.
    eapply nth_default_masked; eauto.
Qed.



(** ** Mask repair: what is changed *)

Lemma nth_error_mapi {A B} (f : Z -> A -> B) (l : list A) (n : nat) :
  nth_error (mapi f l) n = option_map (f (Z.of_nat n)) (nth_error l n).
Proof. unfold mapi. now rewrite nth_error_mapi_from, Z.add_0_l. Qed.

Lemma nth_error_fill_section (array : marray) (a b : Z) (f : Z -> Q) (n : nat) :
  nth_error (fill_section array a b f) n
  = option_map (fun s => if (a <=? Z.of_nat n) && (Z.of_nat n <? b)
                         then Sample (f (Z.of_nat n)) false else s)
      (nth_error array n).
Proof. unfold fill_section. apply nth_error_mapi. Qed.

Lemma count_positive_nonempty (array : marray) :
  0 < Np.count array -> len array <> 0.
Proof.
  destruct array; [cbn; lia|]. intros _. unfold len. cbn [length]. lia.
Qed.

Section RepairChanges.

Variable frequency : Q.
Variable repair_duration : option Q.
Variable raise_duration_exceedance extrapolate zero_if_masked : bool.
Variable repair_above : option Q.

(** A section is left alone or filled with valid samples. *)
Lemma repair_section_cases (array : marray) (section : slice) (out : marray) :
  repair_section frequency repair_duration raise_duration_exceedance
    extrapolate zero_if_masked repair_above array section = Ok out ->
  out = array
  \/ exists a b f, start section = Some a /\ stop section = Some b
                   /\ out = fill_section array a b f.
Proof.
  intros H. unfold repair_section in H.
  destruct (start section) as [a|], (stop section) as [b|];
    cbn [Py.sub bind] in H; try discriminate.
  destruct (too_long frequency repair_duration (b - a)).
  { destruct raise_duration_exceedance; [discriminate|].
    injection H as <-. now left. }
  destruct (a =? 0).
  { destruct extrapolate; [|injection H as <-; now left].
    destruct zero_if_masked; [injection H as <-; right; eauto 6|].
    destruct (data_at array b) as [v|]; cbn [bind] in H; [|discriminate].
    injection H as <-. right. eauto 6. }
  destruct (b =? len array).
  { destruct extrapolate; [|injection H as <-; now left].
    destruct zero_if_masked; [injection H as <-; right; eauto 6|].
    destruct (data_at array (a - 1)) as [v|]; cbn [bind] in H; [|discriminate].
    injection H as <-. right. eauto 6. }
  destruct (data_at array (a - 1)) as [sv|]; cbn [bind] in H; [|discriminate].
  destruct (data_at array b) as [ev|]; cbn [bind] in H; [|discriminate].
  destruct (match repair_above with
            | Some ra => Qltb ra sv && Qltb ra ev
            | None => true
            end);
    injection H as <-; [right; eauto 6|now left].
Qed.

(** After the loop a sample is the one the loop started with, or it lies
    in one of the sections and is valid. *)
Lemma repair_sections_changes (sections : list slice) (array out : marray) :
  repair_sections frequency repair_duration raise_duration_exceedance
    extrapolate zero_if_masked repair_above array sections = Ok out ->
  forall n, nth_error out n = nth_error array n
            \/ (covers sections (Z.of_nat n) = true
                /\ exists v, nth_error out n = Some (Sample v false)).
Proof.
  revert array. induction sections as [|section rest IH]; intros array H n.
  - injection H as <-. now left.
  - cbn [repair_sections] in H.
    destruct (repair_section frequency repair_duration
                raise_duration_exceedance extrapolate zero_if_masked
                repair_above array section) as [array'|] eqn:E;
      cbn [bind] in H; [|discriminate].
    destruct (IH _ H n) as [Hsame | (Hc & v & Hv)].
    + destruct (repair_section_cases _ _ _ E)
        as [-> | (a & b & f & Ea & Eb & ->)]; [now left|].
      rewrite nth_error_fill_section in Hsame.
      destruct (nth_error array n) as [s|] eqn:En; cbn [option_map] in Hsame;
        [|now left].
      destruct ((a <=? Z.of_nat n) && (Z.of_nat n <? b)) eqn:Eab;
        [|now left].
      right. split; [|eauto].
      cbn [covers existsb]. unfold in_slice. now rewrite Ea, Eb, Eab.
    + right. split; [|eauto].
      cbn [covers existsb]. fold (covers rest (Z.of_nat n)).
      rewrite Hc. apply orb_true_r.
Qed.

End RepairChanges.

(** [repair_mask] on an array with a valid sample, without
    [raise_duration_exceedance]: it returns, the valid samples are where
    they were, and a sample that is masked in the result is the sample
    of the input. *)
Lemma repair_mask_changes (frequency : Q) (repair_duration : option Q)
    (extrapolate zero_if_masked : bool) (repair_above : option Q)
    (array : marray) (copy : bool) :
  0 < Np.count array ->
  exists out,
    repair_mask frequency repair_duration false extrapolate zero_if_masked
      repair_above array copy = Ok out
    /\ len out = len array
    /\ forall n s, nth_error array n = Some s ->
         (masked s = false -> nth_error out n = Some s)
         /\ (forall s', nth_error out n = Some s' -> masked s' = true ->
                        s' = s).
Proof.
  intros Hcount. unfold repair_mask.
  destruct (Z.eqb_spec (Np.count array) 0) as [E|_]; [lia|].
  destruct (repair_sections_length frequency repair_duration extrapolate
              zero_if_masked repair_above (Np.clump_masked array) array
              (len array) eq_refl) as (out & Hout & Hlen).
  { pose proof (clump_from_bounds (map masked array) 0 None 0) as Hb.
    rewrite Forall_forall in Hb |- *. intros c Hc.
    destruct (Hb ltac:(lia) ltac:(discriminate) c Hc)
      as (a & b & -> & H1 & H2 & H3).
    unfold len in H3. rewrite length_map in H3. fold (len array) in H3.
    exists a, b. repeat split; auto; try lia.
    intros [-> ->]. apply whole_clump_no_count in Hc. lia. }
  exists out. split; [exact Hout|]. split; [exact Hlen|].
  intros n s En.
  assert (Hcov : covers (Np.clump_masked array) (Z.of_nat n) = masked s).
  { unfold Np.clump_masked. rewrite covers_clump_from by discriminate.
    cbn [orb]. rewrite Z.sub_0_r, Nat2Z.id, nth_map_nth_error, En.
    destruct (Z.leb_spec 0 (Z.of_nat n)); [reflexivity|lia]. }
  destruct (repair_sections_changes _ _ _ _ _ _ _ _ _ Hout n)
    as [Hsame | (Hc & v & Hv)].
  - rewrite Hsame, En. split; [reflexivity|]. now intros s' [= ->].
  - rewrite Hcov in Hc. split; [congruence|].
    intros s' Es' Hm. rewrite Hv in Es'. injection Es' as <-. discriminate.
Qed.

(** X24. [repair_mask] never touches a valid sample. On an array with at
    least one valid sample, without [raise_duration_exceedance], it
    returns an array of the same length in which every valid sample of
    the input is unchanged, and every sample still masked is the sample
    of the input: only masked samples are rewritten, and those become
    valid. *)
Theorem repair_mask_fills_masked_only (frequency : Q)
    (repair_duration : option Q) (extrapolate zero_if_masked : bool)
    (repair_above : option Q) (array : marray) (copy : bool) :
  0 < Np.count array ->
  exists out,
    repair_mask frequency repair_duration false extrapolate zero_if_masked
      repair_above array copy = Ok out
    /\ len out = len array
    /\ forall n s, nth_error array n = Some s ->
         (masked s = false -> nth_error out n = Some s)
         /\ (forall s', nth_error out n = Some s' -> masked s' = true ->
                        s' = s).
Proof.
  intros Hcount.
  destruct (repair_mask_changes frequency repair_duration extrapolate
              zero_if_masked repair_above array copy Hcount)
    as (out & Hout & Hlen & Hsame).
  exists out. repeat split; auto; now apply (Hsame n s).
Qed.

Lemma repair_mask_fills_masked_only_witness :
  exists out,
    repair_mask 1 (Some 100%Q) false false false None
      [Sample 1 false; Sample 0 true; Sample 3 false] false = Ok out
    /\ len out = len [Sample 1 false; Sample 0 true; Sample 3 false]
    /\ forall n s,
         nth_error [Sample 1 false; Sample 0 true; Sample 3 false] n = Some s ->
         (masked s = false -> nth_error out n = Some s)
         /\ (forall s', nth_error out n = Some s' -> masked s' = true ->
                        s' = s).
Proof.
  apply (repair_mask_fills_masked_only 1 (Some 100%Q) false false None
           [Sample 1 false; Sample 0 true; Sample 3 false] false).
  reflexivity.
Defined.

(** ** Slices above a value *)

(** X25. [slices_above] on an array with a valid sample never raises;
    every valid sample of the input whose value is at least [value] lies
    in one of the slices returned, and every position of a slice holds,
    in the repaired array returned, a valid sample whose value is at
    least [value]. *)
Theorem slices_above_keeps_valid (REPAIR_DURATION : option Q)
    (array : marray) (value_ : Q) :
  0 < Np.count array ->
  exists repaired slices,
    slices_above REPAIR_DURATION array value_ = Ok (repaired, slices)
    /\ (forall n s, nth_error array n = Some s -> masked s = false ->
                    (value_ <= value s)%Q ->
                    covers slices (Z.of_nat n) = true)
    /\ (forall i, covers slices i = true ->
                  exists s, nth_error repaired (Z.to_nat i) = Some s
                            /\ masked s = false /\ (value_ <= value s)%Q).
Proof.
  intros Hcount. unfold slices_above, repair_mask_default.
  destruct (Z.eqb_spec (len array) 0) as [E|_];
    [now apply count_positive_nonempty in Hcount|].
  destruct (repair_mask_changes 1 REPAIR_DURATION false false None array false
              Hcount) as (out & -> & Hlen & Hsame).
  cbn [bind]. exists out. eexists. split; [reflexivity|].
  assert (Hcov : forall i,
            covers (Np.clump_unmasked (Np.masked_less out value_)) i
            = (0 <=? i)
              && match nth_error out (Z.to_nat i) with
                 | Some s => negb (masked s) && negb (Qltb (value s) value_)
                 | None => false
                 end).
  { intros i. rewrite covers_clump_unmasked. f_equal.
    unfold Np.masked_less. rewrite map_map, nth_map_nth_error.
    destruct (nth_error out (Z.to_nat i)) as [s|]; [|reflexivity].
    cbn [masked value]. now rewrite negb_orb. }
  split.
  - intros n s En Hm Hv. rewrite Hcov, Nat2Z.id.
    destruct (Hsame n s En) as [Hkeep _]. rewrite (Hkeep Hm), Hm.
    apply Qltb_ge in Hv. rewrite Hv.
    destruct (Z.leb_spec 0 (Z.of_nat n)); [reflexivity|lia].
  - intros i Hi. rewrite Hcov in Hi. apply andb_true_iff in Hi as [_ Hi].
    destruct (nth_error out (Z.to_nat i)) as [s|]; [|discriminate].
    apply andb_true_iff in Hi as [Hm Hv].
    apply negb_true_iff in Hm, Hv. apply Qltb_ge in Hv. eauto.
Qed.

Lemma slices_above_keeps_valid_witness :
  exists repaired slices,
    slices_above (Some 100%Q) [Sample 1 false; Sample 5 false] 3
    = Ok (repaired, slices)
    /\ (forall n s, nth_error [Sample 1 false; Sample 5 false] n = Some s ->
                    masked s = false -> (3 <= value s)%Q ->
                    covers slices (Z.of_nat n) = true)
    /\ (forall i, covers slices i = true ->
                  exists s, nth_error repaired (Z.to_nat i) = Some s
                            /\ masked s = false /\ (3 <= value s)%Q).
Proof.
  apply (slices_above_keeps_valid (Some 100%Q)
           [Sample 1 false; Sample 5 false] 3).
  reflexivity.
Defined.

(** X26. On a non-empty array with no valid sample [slices_above] and
    [slices_below] raise the [ValueError] of [repair_mask], while
    [slices_between] returns the array and no slice. *)
Theorem slices_of_fully_masked (REPAIR_DURATION : option Q) (array : marray)
    (v1 v2 : Q) :
  array <> [] -> Forall (fun s => masked s = true) array ->
  slices_above REPAIR_DURATION array v1
  = Raise (ValueError "Array cannot be repaired as it is entirely masked")
  /\ slices_below REPAIR_DURATION array v1
     = Raise (ValueError "Array cannot be repaired as it is entirely masked")
  /\ slices_between REPAIR_DURATION array v1 v2 = Ok (array, []).
Proof.
  intros Hne Hall.
  assert (Hlen : (len array =? 0) = false).
  { apply Z.eqb_neq. unfold len. destruct array; [congruence|].
    cbn [length]. lia. }
  unfold slices_above, slices_below, slices_between, repair_mask_default,
    repair_mask.
  rewrite Hlen, (count_all_masked _ Hall). cbn [Z.eqb bind]. auto.
Qed.

Lemma slices_of_fully_masked_witness :
  slices_above (Some 100%Q) [Sample 0 true] 1
  = Raise (ValueError "Array cannot be repaired as it is entirely masked")
  /\ slices_below (Some 100%Q) [Sample 0 true] 1
     = Raise (ValueError "Array cannot be repaired as it is entirely masked")
  /\ slices_between (Some 100%Q) [Sample 0 true] 1 2
     = Ok ([Sample 0 true], []).
Proof.
  apply (slices_of_fully_masked (Some 100%Q) [Sample 0 true] 1 2).
  - discriminate.
  - repeat constructor.
Defined.

(** ** Shifting slices *)

Lemma in_slice_shift (s : slice) (offset i : Z) :
  in_slice (Slice (option_map (fun x => x + offset) (start s))
                  (option_map (fun x => x + offset) (stop s)) (step s)) i
  = in_slice s (i - offset).
Proof.
  unfold in_slice. cbn [start stop].
  destruct (start s) as [a|], (stop s) as [b|]; cbn [option_map];
    try reflexivity.
  zbool.
Qed.

(** X27. [shift_slices] with an offset that is not zero moves the
    positions covered by the offset, dropping the slices less than one
    sample wide (which cover nothing); shifting back by the opposite
    offset returns the list given, without the slices dropped. *)
Theorem shift_slices_round_trip (slicelist : list slice) (offset : Z) :
  offset <> 0 ->
  (forall i, covers (shift_slices slicelist offset) i
             = covers slicelist (i - offset))
  /\ shift_slices (shift_slices slicelist offset) (- offset)
     = filter keeps_width slicelist.
Proof.
  intros Hk.
  assert (Ek : (offset =? 0) = false) by now apply Z.eqb_neq.
  assert (Ek' : (- offset =? 0) = false) by (apply Z.eqb_neq; lia).
  induction slicelist as [|s l [IHc IHr]].
  - rewrite !shift_slices_nil. split; reflexivity.
  - rewrite shift_slices_cons. unfold shift_slice. rewrite Ek.
    cbn [filter]. unfold keeps_width.
    destruct s as [[a|] [b|] k]; cbn [start stop step option_map].
    + replace (b + offset - (a + offset)) with (b - a) by lia.
      destruct (Z.leb_spec 1 (b - a)) as [Hw|Hw].
      * split.
        -- intros i. cbn [covers existsb].
           fold (covers (shift_slices l offset) i) (covers l (i - offset)).
           rewrite IHc. f_equal.
           cbn [in_slice start stop]. zbool.
        -- rewrite shift_slices_cons. unfold shift_slice. rewrite Ek'.
           cbn [start stop step option_map].
           replace (b + offset + - offset - (a + offset + - offset))
             with (b - a) by lia.
           destruct (Z.leb_spec 1 (b - a)); [|lia].
           rewrite IHr. do 2 f_equal; f_equal; lia.
      * split; [|exact IHr].
        intros i. cbn [covers existsb]. fold (covers l (i - offset)).
        rewrite IHc. cbn [in_slice start stop].
        destruct (Z.leb_spec a (i - offset)), (Z.ltb_spec (i - offset) b);
          cbn [andb orb]; try reflexivity; lia.
    + split.
      * intros i. specialize (IHc i). unfold covers in *.
        cbn [existsb in_slice start stop orb]. exact IHc.
      * rewrite shift_slices_cons. unfold shift_slice. rewrite Ek'.
        cbn [start stop step option_map]. rewrite IHr.
        do 2 f_equal; f_equal; lia.
    + split.
      * intros i. specialize (IHc i). unfold covers in *.
        cbn [existsb in_slice start stop orb]. exact IHc.
      * rewrite shift_slices_cons. unfold shift_slice. rewrite Ek'.
        cbn [start stop step option_map]. rewrite IHr.
        do 2 f_equal; f_equal; lia.
    + split.
      * intros i. specialize (IHc i). unfold covers in *.
        cbn [existsb in_slice start stop orb]. exact IHc.
      * rewrite shift_slices_cons. unfold shift_slice. rewrite Ek'.
        cbn [start stop step option_map]. now rewrite IHr.
Qed.

Lemma shift_slices_round_trip_witness :
  (forall i, covers (shift_slices [slice2 2 5; slice2 7 7] 3) i
             = covers [slice2 2 5; slice2 7 7] (i - 3))
  /\ shift_slices (shift_slices [slice2 2 5; slice2 7 7] 3) (- 3)
     = filter keeps_width [slice2 2 5; slice2 7 7].
Proof.
  apply (shift_slices_round_trip [slice2 2 5; slice2 7 7] 3). lia.
Defined.

(** ** Time delay *)

(** Assigning a list of values to consecutive positions. *)
Lemma fold_setitem_nth {A} (vals arr : list A) (s : Z) (k : nat) :
  nth_error (fold_left
               (fun a iv => mapi (fun j x => if j =? fst iv then snd iv else x) a)
               (combine (zseq s (length vals)) vals) arr) k
  = match nth_error arr k with
    | None => None
    | Some x =>
        if (s <=? Z.of_nat k) && (Z.of_nat k <? s + len vals)
        then nth_error vals (Z.to_nat (Z.of_nat k - s))
        else Some x
    end.
Proof.
  revert arr s. induction vals as [|v vals IH]; intros arr s.
  - cbn [length zseq combine fold_left]. unfold len. cbn [length].
    destruct (nth_error arr k); [|reflexivity].
    destruct (Z.leb_spec s (Z.of_nat k)),
      (Z.ltb_spec (Z.of_nat k) (s + Z.of_nat 0));
      cbn [andb]; try reflexivity; lia.
  - cbn [length zseq combine fold_left fst snd]. rewrite IH, nth_error_mapi.
    destruct (nth_error arr k) as [x|]; cbn [option_map]; [|reflexivity].
    unfold len. cbn [length].
    destruct (Z.eqb_spec (Z.of_nat k) s) as [E|E].
    + destruct (Z.leb_spec (s + 1) (Z.of_nat k)); [lia|]. cbn [andb].
      destruct (Z.leb_spec s (Z.of_nat k)); [|lia].
      destruct (Z.ltb_spec (Z.of_nat k) (s + Z.of_nat (S (length vals))));
        [|lia].
      cbn [andb]. replace (Z.to_nat (Z.of_nat k - s)) with O by lia.
      reflexivity.
    + destruct (Z.leb_spec (s + 1) (Z.of_nat k)),
        (Z.ltb_spec (Z.of_nat k) (s + 1 + Z.of_nat (length vals)));
        destruct (Z.leb_spec s (Z.of_nat k)),
          (Z.ltb_spec (Z.of_nat k) (s + Z.of_nat (S (length vals))));
        cbn [andb]; try reflexivity; try lia.
      replace (Z.to_nat (Z.of_nat k - s))
        with (S (Z.to_nat (Z.of_nat k - (s + 1)))) by lia.
      reflexivity.
Qed.

Lemma positions_from (L n : Z) :
  0 <= L -> 0 <= n ->
  Np.positions L (Slice (Some n) None None)
  = Ok (zseq (Z.min n L) (Z.to_nat (L - Z.min n L))).
Proof.
  intros HL Hn. unfold Np.positions, Np.slice_bounds, Np.adjust.
  cbn [step start stop Z.eqb Z.ltb Z.compare bind].
  destruct (Z.ltb_spec n 0); [lia|].
  destruct (Z.leb_spec L n).
  - rewrite range_forward, Z.min_r by lia. reflexivity.
  - rewrite range_forward, Z.min_l by lia. reflexivity.
Qed.

Lemma positions_upto_neg (L n : Z) :
  0 <= L -> 0 < n ->
  Np.positions L (Slice None (Some (- n)) None)
  = Ok (zseq 0 (Z.to_nat (L - Z.min n L))).
Proof.
  intros HL Hn. unfold Np.positions, Np.slice_bounds, Np.adjust.
  cbn [step start stop Z.eqb Z.ltb Z.compare bind].
  destruct (Z.ltb_spec (- n) 0); [|lia].
  destruct (Z.ltb_spec (- n + L) 0).
  - rewrite range_forward, Z.min_r by lia. do 2 f_equal. lia.
  - rewrite range_forward, Z.min_l by lia. do 2 f_equal. lia.
Qed.

Lemma nth_error_map_nth_zseq {A} (d : A) (arr : list A) (m j : nat) :
  (m <= length arr)%nat ->
  nth_error (map (fun i => nth (Z.to_nat i) arr d) (zseq 0 m)) j
  = if (j <? m)%nat then nth_error arr j else None.
Proof.
  intros Hm. destruct (Nat.ltb_spec j m) as [H|H].
  - rewrite (nth_error_nth' _ d) by (now rewrite length_map, zseq_length).
    rewrite (nth_error_nth' arr d) by lia. f_equal.
    set (g := fun i : Z => nth (Z.to_nat i) arr d).
    rewrite (nth_indep _ d (g 0)) by (now rewrite length_map, zseq_length).
    rewrite (map_nth g), zseq_nth by exact H. unfold g. f_equal. lia.
  - apply nth_error_None. now rewrite length_map, zseq_length.
Qed.

Lemma nth_error_repeat_lt {A} (z : A) (n k : nat) :
  (k < n)%nat -> nth_error (repeat z n) k = Some z.
Proof.
  revert k. induction n as [|n IH]; intros k Hk; [lia|].
  destruct k as [|k]; cbn; [reflexivity|]. apply IH. lia.
Qed.

(** X28. [delay] with a delay of [n = int(period * hz)] samples, [n] not
    negative: the array returned has the length of the input, its first
    [n] samples are masked zeros, and the sample at a position [k >= n] is
    the input sample at [k - n]. *)
Theorem delay_shifts (array : marray) (period hz : Q) :
  (0 <= period * hz)%Q ->
  exists out,
    delay array period hz = Ok out
    /\ len out = len array
    /\ forall k, (k < length array)%nat ->
         nth_error out k
         = if Z.of_nat k <? Qfloor (period * hz) then Some (Sample 0 true)
           else nth_error array (k - Z.to_nat (Qfloor (period * hz))).
Proof.
  intros Hp. unfold delay. rewrite (py_int_nonneg _ Hp).
  set (n := Qfloor (period * hz)).
  assert (Hn : 0 <= n).
  { unfold n. change 0 with (Qfloor 0). now apply Qfloor_resp_le. }
  set (L := len array).
  assert (HL : 0 <= L) by (unfold L, len; lia).
  unfold Np.getitem_slice, np_ma_masked_zeros_like.
  rewrite len_repeat. fold (len array). fold L.
  rewrite positions_from by assumption. cbn [bind].
  destruct (Z.eq_dec n 0) as [E0|E0].
  - rewrite E0. cbn [Z.opp].
    rewrite positions_open_start by lia. cbn [bind Z.to_nat zseq map].
    unfold len at 1 2. rewrite length_map, zseq_length. cbn [length].
    rewrite Z.min_l by lia. rewrite Z.sub_0_r.
    change (Z.of_nat 0) with 0.
    destruct (Z.eqb_spec (Z.of_nat (Z.to_nat L)) 0) as [EL|EL].
    + assert (Enil : array = []).
      { destruct array; [reflexivity|]. unfold L, len in EL.
        cbn [length] in EL. lia. }
      subst array. cbn. exists []. repeat split. intros k Hk. cbn in Hk. lia.
    + cbn [Z.eqb]. exists array. repeat split. intros k Hk.
      cbn [Z.ltb Z.compare Z.to_nat].
      destruct (Z.ltb_spec (Z.of_nat k) 0); [lia|].
      now rewrite Nat.sub_0_r.
  - rewrite positions_upto_neg by lia. cbn [bind].
    set (w := Z.to_nat (L - Z.min n L)).
    unfold len at 1 2. rewrite !length_map, !zseq_length, Z.eqb_refl.
    unfold setitem_slice_values. rewrite len_repeat. fold (len array). fold L.
    rewrite positions_from by assumption. cbn [bind]. fold w.
    unfold len at 1 2. rewrite length_map, !zseq_length, Z.eqb_refl.
    set (head := map (fun i => nth (Z.to_nat i) array masked_default)
                   (zseq 0 w)).
    assert (Hhead : length head = w)
      by (unfold head; now rewrite length_map, zseq_length).
    replace (zseq (Z.min n L) w) with (zseq (Z.min n L) (length head))
      by (now rewrite Hhead).
    eexists. split; [reflexivity|]. split.
    + unfold L, len.
      rewrite (fold_mapi_length
                 (fun iv j x => if j =? fst iv then snd iv else x)).
      now rewrite repeat_length.
    + intros k Hk. rewrite fold_setitem_nth.
      rewrite nth_error_repeat_lt by exact Hk.
      unfold len. rewrite Hhead.
      assert (Hw : Z.of_nat w = L - Z.min n L) by (unfold w; lia).
      assert (HkL : Z.of_nat k < L) by (unfold L, len; lia).
      destruct (Z.ltb_spec (Z.of_nat k) n) as [Hlt|Hge].
      * destruct (Z.leb_spec (Z.min n L) (Z.of_nat k)); [|reflexivity].
        destruct (Z.ltb_spec (Z.of_nat k) (Z.min n L + Z.of_nat w));
          cbn [andb]; [|reflexivity].
        lia.
      * rewrite Z.min_l in * by lia.
        destruct (Z.leb_spec n (Z.of_nat k)); [|lia].
        destruct (Z.ltb_spec (Z.of_nat k) (n + Z.of_nat w)); [|lia].
        cbn [andb]. unfold head.
        rewrite nth_error_map_nth_zseq by (unfold L, len in *; lia).
        replace (Z.to_nat (Z.of_nat k - n)) with (k - Z.to_nat n)%nat by lia.
        destruct (Nat.ltb_spec (k - Z.to_nat n) w); [reflexivity|lia].
Qed.

Lemma delay_shifts_witness :
  exists out,
    delay [Sample 1 false; Sample 2 false; Sample 3 false] 1 1 = Ok out
    /\ len out = len [Sample 1 false; Sample 2 false; Sample 3 false]
    /\ forall k,
         (k < length [Sample 1 false; Sample 2 false; Sample 3 false])%nat ->
         nth_error out k
         = if Z.of_nat k <? Qfloor (1 * 1) then Some (Sample 0 true)
           else nth_error [Sample 1 false; Sample 2 false; Sample 3 false]
                  (k - Z.to_nat (Qfloor (1 * 1))).
Proof.
  apply (delay_shifts [Sample 1 false; Sample 2 false; Sample 3 false] 1 1).
  discriminate.
Defined.

(** ** Hysteresis *)

Lemma where_from_In (c : list bool) (k i : Z) :
  In i (concat (mapi_from k (fun j (b : bool) => if b then [j] else []) c))
  <-> k <= i /\ nth (Z.to_nat (i - k)) c false = true.
Proof.
  revert k. induction c as [|b c IH]; intros k.
  - cbn. destruct (Z.to_nat (i - k)); split; [tauto|intros [_ H]|tauto|intros [_ H]];
      discriminate.
  - cbn [mapi_from concat]. rewrite in_app_iff, IH.
    destruct (Z.eq_dec i k) as [->|Hne].
    + rewrite Z.sub_diag. cbn [Z.to_nat nth].
      destruct b.
      * split; intros _; [split; [lia|reflexivity]|left; now left].
      * split; [intros [[]|[H _]]; lia|intros [_ H]; discriminate].
    + split.
      * intros [H|[H1 H2]].
        -- destruct b; cbn [In] in H; [|tauto]. destruct H as [H|[]]. lia.
        -- split; [lia|].
           replace (Z.to_nat (i - k)) with (S (Z.to_nat (i - (k + 1)))) by lia.
           exact H2.
      * intros [H1 H2]. right. split; [lia|].
        replace (Z.to_nat (i - k)) with (S (Z.to_nat (i - (k + 1)))) in H2
          by lia.
        exact H2.
Qed.

Lemma where_In (c : list bool) (i : Z) :
  In i (Np.where_ c) <-> 0 <= i /\ nth (Z.to_nat i) c false = true.
Proof.
  unfold Np.where_, mapi. rewrite where_from_In. now rewrite Z.sub_0_r.
Qed.

Lemma count_positive_valid (array : marray) :
  Np.count array <> 0 ->
  exists n s, nth_error array n = Some s /\ masked s = false.
Proof.
  unfold Np.count, len. intros H.
  destruct (filter (fun s => negb (masked s)) array) as [|s l] eqn:E;
    [cbn in H; lia|].
  assert (Hin : In s (filter (fun s => negb (masked s)) array))
    by (rewrite E; now left).
  apply filter_In in Hin as [Hin Hm]. apply negb_true_iff in Hm.
  apply In_nth_error in Hin as (n & Hn). eauto.
Qed.

Lemma nth_error_zip_with {A B C} (f : A -> B -> C) (x : list A) (y : list B)
    (n : nat) :
  nth_error (Np.zip_with f x y) n
  = match nth_error x n, nth_error y n with
    | Some a, Some b => Some (f a b)
    | _, _ => None
    end.
Proof.
  revert y n. induction x as [|a x IH]; intros [|b y] [|n];
    cbn [Np.zip_with nth_error]; try reflexivity.
  - destruct (nth_error x n); reflexivity.
  - apply IH.
Qed.

Lemma setitem_in_range {A} (arr : list A) (i : Z) (v : A) :
  0 <= i < len arr ->
  Np.setitem arr i v = Ok (mapi (fun k x => if k =? i then v else x) arr).
Proof.
  intros H. unfold Np.setitem.
  destruct (Z.ltb_spec i 0); [lia|].
  destruct (Z.leb_spec 0 i); [|lia].
  destruct (Z.ltb_spec i (len arr)); [|lia]. reflexivity.
Qed.

Lemma getitem_Ok_nth_error {A} (arr : list A) (i : Z) (x : A) :
  0 <= i -> Np.getitem arr i = Ok x -> nth_error arr (Z.to_nat i) = Some x.
Proof.
  intros Hi. unfold Np.getitem.
  destruct (Z.ltb_spec i 0); [lia|].
  destruct ((0 <=? i) && (i <? len arr)); [|discriminate].
  destruct (nth_error arr (Z.to_nat i)); [|discriminate]. congruence.
Qed.

Section HysteresisLoops.

Variable quarter_range : Q.
Hypothesis Hq : (0 <= quarter_range)%Q.

(** The value kept by a step is within a quarter of the range of the
    sample read. *)
Lemma hysteresis_step_close (old new : Q) :
  (Qabs (hysteresis_step quarter_range old new - new) <= quarter_range)%Q.
Proof.
  unfold hysteresis_step. apply Qabs_Qle_condition.
  destruct (Qltb quarter_range (new - old)) eqn:E1.
  - split; lra.
  - destruct (Qltb (new - old) (- quarter_range)) eqn:E2.
    + split; lra.
    + apply Qltb_ge in E1, E2. split; lra.
Qed.

Lemma hysteresis_forward_near (array : marray) (notmasked done : list Z)
    (old : Q) (half_done : list Q) :
  len half_done = len array ->
  Forall (fun i => 0 <= i < len array) notmasked ->
  (forall i, In i done ->
     0 <= i /\ exists v a, nth_error half_done (Z.to_nat i) = Some v
                           /\ data_at array i = Ok a
                           /\ (Qabs (v - a) <= quarter_range)%Q) ->
  exists old' half_done',
    hysteresis_forward array quarter_range notmasked old half_done
    = Ok (old', half_done')
    /\ len half_done' = len array
    /\ forall i, In i (done ++ notmasked) ->
         0 <= i /\ exists v a, nth_error half_done' (Z.to_nat i) = Some v
                               /\ data_at array i = Ok a
                               /\ (Qabs (v - a) <= quarter_range)%Q.
Proof.
  revert done old half_done.
  induction notmasked as [|index rest IH]; intros done old half_done Hl Hr Hd.
  - exists old, half_done. rewrite app_nil_r. auto.
  - inversion Hr as [|? ? Hi Hr']; subst.
    cbn [hysteresis_forward].
    destruct (data_at_in_range array index Hi) as (a & Ea).
    rewrite Ea. cbn [bind].
    rewrite setitem_in_range by lia. cbn [bind].
    set (old1 := hysteresis_step quarter_range old a).
    set (hd1 := mapi (fun k x => if k =? index then old1 else x) half_done).
    destruct (IH (done ++ [index]) old1 hd1) as (old' & hd' & E & Hl' & H').
    + unfold hd1. now rewrite len_mapi.
    + exact Hr'.
    + intros i Hin. apply in_app_iff in Hin.
      assert (Hnew : nth_error hd1 (Z.to_nat index) = Some old1).
      { unfold hd1. rewrite nth_error_mapi, Z2Nat.id by lia.
        rewrite Z.eqb_refl.
        destruct (nth_error half_done (Z.to_nat index)) eqn:En;
          [reflexivity|].
        apply nth_error_None in En. unfold len in *. lia. }
      destruct (Z.eq_dec i index) as [->|Hne].
      * split; [lia|]. exists old1, a. split; [exact Hnew|].
        split; [exact Ea|]. apply hysteresis_step_close.
      * destruct Hin as [Hin|[Hin|[]]]; [|congruence].
        destruct (Hd i Hin) as (H0 & v & b & Ev & Eb & Hvb).
        split; [exact H0|]. exists v, b. split; [|auto].
        unfold hd1. rewrite nth_error_mapi, Z2Nat.id, Ev by lia.
        cbn [option_map]. destruct (Z.eqb_spec i index); [congruence|].
        reflexivity.
    + exists old', hd'. split; [exact E|]. split; [exact Hl'|].
      intros i Hin. apply H'. rewrite <- app_assoc. exact Hin.
Qed.

Lemma hysteresis_backward_near (half_done : list Q) (notmasked done : list Z)
    (old : Q) (result : list Q) :
  len result = len half_done ->
  Forall (fun i => 0 <= i < len half_done) notmasked ->
  (forall i, In i done ->
     0 <= i /\ exists v a, nth_error result (Z.to_nat i) = Some v
                           /\ Np.getitem half_done i = Ok a
                           /\ (Qabs (v - a) <= quarter_range)%Q) ->
  exists result',
    hysteresis_backward half_done quarter_range notmasked old result
    = Ok result'
    /\ len result' = len half_done
    /\ forall i, In i (done ++ notmasked) ->
         0 <= i /\ exists v a, nth_error result' (Z.to_nat i) = Some v
                               /\ Np.getitem half_done i = Ok a
                               /\ (Qabs (v - a) <= quarter_range)%Q.
Proof.
  revert done old result.
  induction notmasked as [|index rest IH]; intros done old result Hl Hr Hd.
  - exists result. rewrite app_nil_r. auto.
  - inversion Hr as [|? ? Hi Hr']; subst.
    cbn [hysteresis_backward].
    destruct (getitem_in_range half_done index Hi) as (a & Ea).
    rewrite Ea. cbn [bind].
    rewrite setitem_in_range by lia. cbn [bind].
    set (old1 := hysteresis_step quarter_range old a).
    set (r1 := mapi (fun k x => if k =? index then old1 else x) result).
    destruct (IH (done ++ [index]) old1 r1) as (r' & E & Hl' & H').
    + unfold r1. now rewrite len_mapi.
    + exact Hr'.
    + intros i Hin. apply in_app_iff in Hin.
      assert (Hnew : nth_error r1 (Z.to_nat index) = Some old1).
      { unfold r1. rewrite nth_error_mapi, Z2Nat.id by lia.
        rewrite Z.eqb_refl.
        destruct (nth_error result (Z.to_nat index)) eqn:En;
          [reflexivity|].
        apply nth_error_None in En. unfold len in *. lia. }
      destruct (Z.eq_dec i index) as [->|Hne].
      * split; [lia|]. exists old1, a. split; [exact Hnew|].
        split; [exact Ea|]. apply hysteresis_step_close.
      * destruct Hin as [Hin|[Hin|[]]]; [|congruence].
        destruct (Hd i Hin) as (H0 & v & b & Ev & Eb & Hvb).
        split; [exact H0|]. exists v, b. split; [|auto].
        unfold r1. rewrite nth_error_mapi, Z2Nat.id, Ev by lia.
        cbn [option_map]. destruct (Z.eqb_spec i index); [congruence|].
        reflexivity.
    + exists r'. split; [exact E|]. split; [exact Hl'|].
      intros i Hin. apply H'. rewrite <- app_assoc. exact Hin.
Qed.

End HysteresisLoops.

(** X29. [hysteresis] with a level that is not negative never raises; the
    array returned has the length and the mask of the input, and at every
    valid sample its value is within half the level of the input value. *)
Theorem hysteresis_within_half (array : marray) (level : Q) :
  (0 <= level)%Q ->
  exists out,
    hysteresis array level = Ok out
    /\ len out = len array
    /\ forall n s, nth_error array n = Some s ->
         exists r, nth_error out n = Some (Sample r (masked s))
                   /\ (masked s = false ->
                       (Qabs (r - value s) <= level / 2)%Q).
Proof.
  intros Hlevel. unfold hysteresis.
  destruct (Z.eqb_spec (Np.count array) 0) as [E|Hcount].
  { exists array. split; [reflexivity|]. split; [reflexivity|].
    intros n s En. exists (value s). split; [now destruct s|].
    intros _. setoid_replace (value s - value s)%Q with 0%Q by ring.
    change (0 <= level * (1 # 2))%Q. lra. }
  cbv zeta.
  set (q := (level / 4)%Q).
  assert (Hq : (0 <= q)%Q)
    by (unfold q; change (0 <= level * (1 # 4))%Q; lra).
  set (bits := map (fun s => negb (masked s)) array).
  assert (Hwhere : forall i, In i (Np.where_ bits) <->
            0 <= i /\ exists s, nth_error array (Z.to_nat i) = Some s
                                /\ masked s = false).
  { intros i. rewrite where_In. unfold bits. rewrite nth_map_nth_error.
    split; intros [H0 H]; (split; [exact H0|]).
    - destruct (nth_error array (Z.to_nat i)) as [s|]; [|discriminate].
      apply negb_true_iff in H. eauto.
    - destruct H as (s & -> & Hm). now rewrite Hm. }
  assert (Hrange : Forall (fun i => 0 <= i < len array) (Np.where_ bits)).
  { apply Forall_forall. intros i Hi. apply Hwhere in Hi as (H0 & s & Es & _).
    assert (Hlt : (Z.to_nat i < length array)%nat)
      by (apply nth_error_Some; congruence).
    unfold len. lia. }
  destruct (Np.where_ bits) as [|first rest] eqn:Enm.
  { exfalso. destruct (count_positive_valid array Hcount) as (n & s & En & Hm).
    assert (Hin : In (Z.of_nat n) []).
    { apply Hwhere. split; [lia|]. rewrite Nat2Z.id. eauto. }
    destruct Hin. }
  assert (Hfirst : 0 <= first < len array)
    by (inversion Hrange; assumption).
  destruct (data_at_in_range array first Hfirst) as (old & ->). cbn [bind].
  destruct (hysteresis_forward_near q Hq array (first :: rest) [] old
              (repeat 0%Q (Z.to_nat (len array))))
    as (old' & hd & -> & Hlhd & Hhd).
  { rewrite len_repeat. unfold len. lia. }
  { exact Hrange. }
  { intros i []. }
  cbn [bind].
  destruct (hysteresis_backward_near q Hq hd (rev (first :: rest)) [] old'
              (repeat 0%Q (Z.to_nat (len array))))
    as (result & -> & Hlr & Hres).
  { rewrite len_repeat, Hlhd. unfold len. lia. }
  { rewrite Hlhd. apply Forall_forall. intros i Hi. apply in_rev in Hi.
    rewrite Forall_forall in Hrange. now apply Hrange. }
  { intros i []. }
  cbn [bind]. eexists. split; [reflexivity|]. split.
  { unfold len in *. rewrite zip_with_length; lia. }
  intros n s En. rewrite nth_error_zip_with, En.
  destruct (nth_error result n) as [r|] eqn:Er.
  2:{ apply nth_error_None in Er.
      assert (Hlt : (n < length array)%nat)
        by (apply nth_error_Some; congruence).
      unfold len in *. lia. }
  exists r. split; [reflexivity|]. intros Hm.
  assert (Hin : In (Z.of_nat n) (first :: rest)).
  { apply Hwhere. split; [lia|]. rewrite Nat2Z.id. eauto. }
  destruct (Hhd (Z.of_nat n) Hin) as (_ & v & a & Ev & Ea & Hva).
  destruct (Hres (Z.of_nat n)) as (_ & r' & w & Er' & Ew & Hrw).
  { cbn [app]. apply in_rev. rewrite rev_involutive. exact Hin. }
  rewrite Nat2Z.id in *.
  apply getitem_Ok_nth_error in Ew; [|lia]. rewrite Nat2Z.id in Ew.
  assert (r' = r) by congruence. assert (w = v) by congruence. subst r' w.
  assert (Eas : a = value s).
  { unfold data_at in Ea.
    destruct (Np.getitem array (Z.of_nat n)) as [x|] eqn:Ex;
      cbn [bind] in Ea; [|discriminate].
    apply getitem_Ok_nth_error in Ex; [|lia]. rewrite Nat2Z.id in Ex.
    congruence. }
  subst a.
  apply Qabs_Qle_condition in Hva, Hrw. apply Qabs_Qle_condition.
  unfold q in *.
  change (level / 4)%Q with (level * (1 # 4))%Q in *.
  change (level / 2)%Q with (level * (1 # 2))%Q.
  split; lra.
Qed.

Lemma hysteresis_within_half_witness :
  exists out,
    hysteresis [Sample 1 false; Sample 0 true; Sample 5 false] 2 = Ok out
    /\ len out = len [Sample 1 false; Sample 0 true; Sample 5 false]
    /\ forall n s,
         nth_error [Sample 1 false; Sample 0 true; Sample 5 false] n = Some s ->
         exists r, nth_error out n = Some (Sample r (masked s))
                   /\ (masked s = false -> (Qabs (r - value s) <= 2 / 2)%Q).
Proof.
  apply (hysteresis_within_half
           [Sample 1 false; Sample 0 true; Sample 5 false] 2).
  discriminate.
Defined.

(** ** Interpolation over masked blocks *)

Lemma apart_chain (l : list slice) (lo : Z) : apart lo l -> chain lo l.
Proof.
  revert lo. induction l as [|c l IH]; intros lo H; [exact I|].
  destruct H as (s & t & -> & H1 & H2 & H3). exists s, t.
  repeat split; auto. apply (chain_weaken (t + 1)); [lia|]. now apply IH.
Qed.

(** The positions just before and just after a run are outside every
    run. *)
Lemma apart_neighbours (l : list slice) (lo a b : Z) :
  apart lo l -> In (slice2 a b) l ->
  covers l b = false /\ covers l (a - 1) = false.
Proof.
  revert lo. induction l as [|c l IH]; intros lo H Hin; [destruct Hin|].
  destruct H as (s & t & -> & H1 & H2 & H3).
  cbn [covers existsb in_slice slice2 start stop].
  fold (covers l b) (covers l (a - 1)).
  destruct Hin as [E|Hin].
  - injection E as <- <-.
    rewrite !(chain_not_covers_below l (t + 1))
      by (try apply apart_chain; auto; lia).
    split; zbool.
  - destruct (chain_In _ _ _ (apart_chain _ _ H3) Hin)
      as (x & y & E & Hx & Hy).
    injection E as <- <-.
    destruct (IH _ H3 Hin) as [-> ->]. split; zbool.
Qed.

(** What one pass of the loop does to a block [[a, b)] whose known
    neighbours are valid: the block is filled with valid samples and
    nothing else is touched. *)
Lemma interpolate_block_fills (cur : marray) (a b : Z) :
  0 <= a -> a < b -> b <= len cur -> ~ (a = 0 /\ b = len cur) ->
  (a <> 0 ->
   exists v, nth_error cur (Z.to_nat (a - 1)) = Some (Sample v false)) ->
  (b <> len cur ->
   exists v, nth_error cur (Z.to_nat b) = Some (Sample v false)) ->
  exists out,
    interpolate_block (len cur) true cur (slice2 a b) = Ok out
    /\ len out = len cur
    /\ (forall n, a <= Z.of_nat n < b ->
                  exists v, nth_error out n = Some (Sample v false))
    /\ (forall n, ~ (a <= Z.of_nat n < b) ->
                  nth_error out n = nth_error cur n).
Proof.
  intros Ha Hab Hb Hnot Hbefore Hafter.
  assert (Hin : forall n, Z.of_nat n < b -> exists x, nth_error cur n = Some x).
  { intros n Hn. destruct (nth_error cur n) eqn:E; [eauto|].
    apply nth_error_None in E. unfold len in Hb. lia. }
  unfold interpolate_block. cbn [slice2 start stop].
  destruct (Z.eqb_spec a 0) as [E0|E0].
  - subst a. destruct Hafter as (v & Ev); [lia|].
    rewrite (getitem_nth_error cur b _ ltac:(lia) Ev). cbn [bind].
    unfold Np.setitem_slice_sample. rewrite positions_open_start by lia.
    cbn [bind masked value]. eexists. split; [reflexivity|].
    split; [apply len_mapi|]. split.
    + intros n Hn. rewrite nth_error_mapi, existsb_zseq.
      destruct (Hin n ltac:(lia)) as (x & ->). cbn [option_map].
      exists v. destruct (Z.leb_spec 0 (Z.of_nat n)); [|lia].
      destruct (Z.ltb_spec (Z.of_nat n) (0 + Z.of_nat (Z.to_nat b))); [|lia].
      reflexivity.
    + intros n Hn. rewrite nth_error_mapi, existsb_zseq.
      destruct (nth_error cur n); [|reflexivity]. cbn [option_map].
      destruct (Z.leb_spec 0 (Z.of_nat n)); [|lia].
      destruct (Z.ltb_spec (Z.of_nat n) (0 + Z.of_nat (Z.to_nat b))); [lia|].
      reflexivity.
  - destruct (Z.eqb_spec b (len cur)) as [E1|E1].
    + destruct Hbefore as (v & Ev); [lia|].
      rewrite (getitem_nth_error cur (a - 1) _ ltac:(lia) Ev). cbn [bind].
      unfold Np.setitem_slice_sample. rewrite positions_open_stop by lia.
      cbn [bind masked value]. eexists. split; [reflexivity|].
      split; [apply len_mapi|]. split.
      * intros n Hn. rewrite nth_error_mapi, existsb_zseq.
        destruct (Hin n ltac:(lia)) as (x & ->). cbn [option_map].
        exists v. destruct (Z.leb_spec a (Z.of_nat n)); [|lia].
        destruct (Z.ltb_spec (Z.of_nat n)
                    (a + Z.of_nat (Z.to_nat (len cur - a)))); [|lia].
        reflexivity.
      * intros n Hn. rewrite nth_error_mapi, existsb_zseq.
        destruct (nth_error cur n) eqn:En; [|reflexivity]. cbn [option_map].
        assert (Hlt : (n < length cur)%nat)
          by (apply nth_error_Some; congruence).
        unfold len in *.
        destruct (Z.leb_spec a (Z.of_nat n)); [lia|]. reflexivity.
    + destruct Hbefore as (va & Eva); [lia|].
      destruct Hafter as (vb & Evb); [lia|].
      rewrite (getitem_nth_error cur (a - 1) _ ltac:(lia) Eva),
        (getitem_nth_error cur b _ ltac:(lia) Evb).
      cbn [bind value].
      set (join := Np.linspace va vb (b - a + 2)).
      assert (Hjoin : len join = b - a + 2).
      { unfold join, Np.linspace, len.
        rewrite length_map, range_forward, zseq_length. lia. }
      unfold Np.getitem_slice. rewrite Hjoin.
      assert (Epos : Np.positions (b - a + 2) (Slice (Some 1) (Some (-1)) None)
                     = Ok (zseq 1 (Z.to_nat (b - a)))).
      { unfold Np.positions, Np.slice_bounds, Np.adjust.
        cbn [step start stop Z.eqb Z.ltb Z.compare bind].
        destruct (Z.leb_spec (b - a + 2) 1); [lia|].
        destruct (Z.ltb_spec (-1 + (b - a + 2)) 0); [lia|].
        rewrite range_forward. do 2 f_equal. lia. }
      rewrite Epos. cbn [bind].
      set (vals := map (fun v => Sample v false)
                     (map (fun i => nth (Z.to_nat i) join 0%Q)
                        (zseq 1 (Z.to_nat (b - a))))).
      assert (Hvals : length vals = Z.to_nat (b - a)).
      { unfold vals. now rewrite !length_map, zseq_length. }
      unfold setitem_slice_values, slice2.
      rewrite positions_inside by (auto; lia). cbn [bind].
      unfold len at 1 2. rewrite zseq_length, Hvals, Z.eqb_refl.
      replace (zseq a (Z.to_nat (b - a))) with (zseq a (length vals))
        by (now rewrite Hvals).
      eexists. split; [reflexivity|]. split.
      { unfold len.
        now rewrite (fold_mapi_length
                       (fun iv j x => if j =? fst iv then snd iv else x)). }
      split.
      * intros n Hn. rewrite fold_setitem_nth.
        destruct (Hin n ltac:(lia)) as (x & ->). unfold len. rewrite Hvals.
        destruct (Z.leb_spec a (Z.of_nat n)); [|lia].
        destruct (Z.ltb_spec (Z.of_nat n) (a + Z.of_nat (Z.to_nat (b - a))));
          [|lia].
        cbn [andb]. unfold vals. rewrite nth_error_map.
        destruct (nth_error
                    (map (fun i => nth (Z.to_nat i) join 0%Q)
                       (zseq 1 (Z.to_nat (b - a))))
                    (Z.to_nat (Z.of_nat n - a))) as [y|] eqn:Ey.
        -- cbn [option_map]. eauto.
        -- apply nth_error_None in Ey.
           rewrite length_map, zseq_length in Ey. lia.
      * intros n Hn. rewrite fold_setitem_nth.
        destruct (nth_error cur n); [|reflexivity]. unfold len. rewrite Hvals.
        destruct (Z.leb_spec a (Z.of_nat n)); [|reflexivity].
        destruct (Z.ltb_spec (Z.of_nat n) (a + Z.of_nat (Z.to_nat (b - a))));
          [lia|reflexivity].
Qed.

(** The loop over the blocks: valid samples of the input stay as they
    are, valid samples stay valid, and every block is filled. *)
Lemma interpolate_blocks_fill (array : marray) (blocks : list slice)
    (cur : marray) :
  len cur = len array ->
  Forall (fun c => exists a b,
            c = slice2 a b /\ 0 <= a /\ a < b /\ b <= len array
            /\ ~ (a = 0 /\ b = len array)
            /\ (a <> 0 -> exists v, nth_error array (Z.to_nat (a - 1))
                                    = Some (Sample v false))
            /\ (b <> len array -> exists v, nth_error array (Z.to_nat b)
                                            = Some (Sample v false)))
         blocks ->
  (forall n s, covers blocks (Z.of_nat n) = true ->
               nth_error array n = Some s -> masked s = true) ->
  (forall n s, nth_error array n = Some s -> masked s = false ->
               nth_error cur n = Some s) ->
  exists out,
    interpolate_blocks (len array) true cur blocks = Ok out
    /\ len out = len array
    /\ (forall n s, nth_error array n = Some s -> masked s = false ->
                    nth_error out n = Some s)
    /\ (forall n v, nth_error cur n = Some (Sample v false) ->
                    exists w, nth_error out n = Some (Sample w false))
    /\ (forall n, covers blocks (Z.of_nat n) = true ->
                  (n < length array)%nat ->
                  exists w, nth_error out n = Some (Sample w false)).
Proof.
  revert cur. induction blocks as [|block rest IH]; intros cur Hl HF Hm Hkeep.
  - exists cur. split; [reflexivity|]. split; [exact Hl|].
    split; [exact Hkeep|]. split; [eauto|]. intros n Hc. discriminate.
  - inversion HF as [|? ? (a & b & -> & Ha & Hab & Hb & Hnot & Hbef & Haft) HF'];
      subst.
    cbn [interpolate_blocks]. rewrite <- Hl.
    destruct (interpolate_block_fills cur a b) as (cur' & -> & Hl' & Hfill & Hrest);
      try lia.
    { intros H. destruct (Hbef H) as (v & Ev). exists v.
      now apply (Hkeep _ _ Ev). }
    { intros H. destruct Haft as (v & Ev); [lia|]. exists v.
      now apply (Hkeep _ _ Ev). }
    cbn [bind]. rewrite Hl.
    assert (Hblock : forall n, covers (slice2 a b :: rest) (Z.of_nat n)
                               = ((a <=? Z.of_nat n) && (Z.of_nat n <? b))
                                 || covers rest (Z.of_nat n))
      by reflexivity.
    destruct (IH cur') as (out & Eout & Hlo & Hko & Hvo & Hco).
    + lia.
    + exact HF'.
    + intros n s Hc. apply Hm. rewrite Hblock, Hc. apply orb_true_r.
    + intros n s En Hs. rewrite Hrest; [now apply Hkeep|].
      intros Hn. assert (masked s = true); [|congruence].
      apply (Hm n s); [|exact En]. rewrite Hblock.
      destruct (Z.leb_spec a (Z.of_nat n)); [|lia].
      destruct (Z.ltb_spec (Z.of_nat n) b); [|lia]. reflexivity.
    + exists out. split; [exact Eout|]. split; [exact Hlo|].
      split; [exact Hko|]. split.
      * intros n v Ev.
        destruct (Z.leb_spec a (Z.of_nat n)) as [H1|H1].
        -- destruct (Z.ltb_spec (Z.of_nat n) b) as [H2|H2].
           ++ destruct (Hfill n ltac:(lia)) as (w & Ew). eapply Hvo; eauto.
           ++ apply (Hvo n v). rewrite Hrest by lia. exact Ev.
        -- apply (Hvo n v). rewrite Hrest by lia. exact Ev.
      * intros n Hc Hn. rewrite Hblock in Hc.
        apply orb_true_iff in Hc as [Hc|Hc]; [|now apply Hco].
        apply andb_true_iff in Hc as [H1 H2].
        apply Z.leb_le in H1. apply Z.ltb_lt in H2.
        destruct (Hfill n ltac:(lia)) as (w & Ew). eapply Hvo; eauto.
Qed.

(** X30. [interpolate] with extrapolation (its default) never raises; the
    array returned has the length of the input and no masked sample, and
    every valid sample of the input is in it unchanged. *)
Theorem interpolate_fills_all (array : marray) :
  exists out,
    interpolate array true = Ok out
    /\ len out = len array
    /\ Forall (fun s => masked s = false) out
    /\ forall n s, nth_error array n = Some s -> masked s = false ->
                   nth_error out n = Some s.
Proof.
  unfold interpolate.
  set (blocks := Np.clump_masked array).
  assert (Hcov : forall n s, nth_error array n = Some s ->
                             covers blocks (Z.of_nat n) = masked s).
  { intros n s En. unfold blocks, Np.clump_masked.
    rewrite covers_clump_from by discriminate.
    cbn [orb]. rewrite Z.sub_0_r, Nat2Z.id, nth_map_nth_error, En.
    destruct (Z.leb_spec 0 (Z.of_nat n)); [reflexivity|lia]. }
  assert (Hapart : apart 0 blocks)
    by (apply clump_from_apart; [lia|discriminate]).
  assert (Hbounds : Forall (fun c => exists s t, c = slice2 s t /\ 0 <= s
                                                 /\ s < t /\ t <= len array)
                      blocks).
  { pose proof (clump_from_bounds (map masked array) 0 None 0
                  ltac:(lia) ltac:(discriminate)) as HB.
    eapply Forall_impl; [|exact HB].
    intros c (s & t & -> & H1 & H2 & H3).
    unfold len in H3. rewrite length_map in H3. exists s, t.
    unfold len. repeat split; auto; lia. }
  assert (Hsingle : In (slice2 0 (len array)) blocks ->
                    blocks = [slice2 0 (len array)]).
  { intros Hin. destruct blocks as [|c rest]; [destruct Hin|].
    destruct Hapart as (s & t & -> & H1 & H2 & H3).
    assert (Hrest : forall c', In c' rest ->
              exists x y, c' = slice2 x y /\ t + 1 <= x /\ x < y
                          /\ y <= len array).
    { intros c' Hc'.
      destruct (chain_In _ _ _ (apart_chain _ _ H3) Hc') as (x & y & -> & Hx & Hy).
      rewrite Forall_forall in Hbounds.
      destruct (Hbounds (slice2 x y) (or_intror Hc'))
        as (x' & y' & E & _ & _ & Hy').
      injection E as <- <-. eauto 6. }
    destruct Hin as [E|Hin].
    - injection E as -> ->. destruct rest as [|c' rest']; [reflexivity|].
      destruct (Hrest c' (or_introl eq_refl)) as (x & y & _ & Hx & Hxy & Hy).
      lia.
    - destruct (Hrest _ Hin) as (x & y & E & Hx & _). injection E as <- <-.
      lia. }
  destruct (match blocks with
            | [block] => opt_Zeqb (start block) (Some 0)
                         && opt_Zeqb (stop block) (Some (len array))
            | _ => false
            end) eqn:Etest.
  - destruct blocks as [|block [|c2 r]] eqn:Eb; try discriminate.
    inversion Hbounds as [|? ? (s & t & -> & Hs & Hst & Ht) _]; subst.
    cbn [slice2 start stop opt_Zeqb] in Etest.
    apply andb_true_iff in Etest as [E1 E2].
    apply Z.eqb_eq in E1, E2. subst s t.
    exists (np_ma_zeros_like array). split; [reflexivity|].
    unfold np_ma_zeros_like. split; [apply len_repeat|].
    split; [apply Forall_forall; intros x Hx; apply repeat_spec in Hx;
            now subst x|].
    intros n s En Hm. exfalso.
    assert (Hlt : (n < length array)%nat)
      by (apply nth_error_Some; congruence).
    specialize (Hcov n s En). rewrite Hm in Hcov.
    cbn [covers existsb in_slice slice2 start stop] in Hcov.
    unfold len in Hcov.
    destruct (Z.leb_spec 0 (Z.of_nat n)); [|lia].
    destruct (Z.ltb_spec (Z.of_nat n) (Z.of_nat (length array))); [|lia].
    discriminate.
  - assert (Hnot : ~ In (slice2 0 (len array)) blocks).
    { intros Hin. rewrite (Hsingle Hin) in Etest.
      cbn [slice2 start stop opt_Zeqb] in Etest.
      rewrite !Z.eqb_refl in Etest. discriminate. }
    destruct (interpolate_blocks_fill array blocks array eq_refl)
      as (out & Eout & Hlen & Hkeep & _ & Hfill).
    + apply Forall_forall. intros c Hc.
      rewrite Forall_forall in Hbounds.
      destruct (Hbounds c Hc) as (a & b & -> & Ha & Hab & Hb).
      destruct (apart_neighbours _ _ _ _ Hapart Hc) as [Hcb Hca].
      exists a, b. repeat split; auto.
      * intros [-> ->]. now apply Hnot.
      * intros Hne.
        destruct (nth_error array (Z.to_nat (a - 1))) as [[v m]|] eqn:En.
        -- specialize (Hcov _ _ En). rewrite Z2Nat.id in Hcov by lia.
           rewrite Hca in Hcov. cbn in Hcov. subst m. eauto.
        -- apply nth_error_None in En. unfold len in *. lia.
      * intros Hne.
        destruct (nth_error array (Z.to_nat b)) as [[v m]|] eqn:En.
        -- specialize (Hcov _ _ En). rewrite Z2Nat.id in Hcov by lia.
           rewrite Hcb in Hcov. cbn in Hcov. subst m. eauto.
        -- apply nth_error_None in En. unfold len in *. lia.
    + intros n s Hc En. rewrite (Hcov n s En) in Hc. exact Hc.
    + auto.
    + exists out. split; [exact Eout|]. split; [exact Hlen|].
      split; [|exact Hkeep].
      apply Forall_forall. intros x Hx.
      apply In_nth_error in Hx as (n & En).
      assert (Hlt : (n < length array)%nat).
      { assert (n < length out)%nat by (apply nth_error_Some; congruence).
        unfold len in Hlen. lia. }
      destruct (nth_error array n) as [s|] eqn:Es;
        [|apply nth_error_None in Es; lia].
      destruct (masked s) eqn:Hm.
      * destruct (Hfill n) as (w & Ew); [|exact Hlt|].
        -- now rewrite (Hcov n s Es).
        -- rewrite Ew in En. injection En as <-. reflexivity.
      * rewrite (Hkeep n s Es Hm) in En. injection En as <-. exact Hm.
Qed.
